(** * Scout-block guard: a shallow embedding of [lib/scout-checker.cjs]
    and of the [scout-block.cjs] hook, with the properties of the
    command classifier and of the guard orchestrator.

    JavaScript strings are sequences of UTF-16 code units; regular
    expressions are embedded as syntax trees run by a backtracking matcher
    that follows the ECMAScript matching order (leftmost start, greedy
    quantifiers, alternatives tried left to right). *)

From Stdlib Require Import String Ascii.
From Stdlib Require Import List NArith Arith Bool Lia.
From Stdlib Require Import Floats.SpecFloat.
Import ListNotations.

Set Implicit Arguments.
Open Scope string_scope.
Open Scope list_scope.
Open Scope nat_scope.

(* ===================================================================== *)
(** ** JavaScript strings                                                 *)
(* ===================================================================== *)

Module JsString.

(** A string is the list of its UTF-16 code units. *)
Definition jstring := list N.

(** Literal: the code units of an ASCII text. *)
Definition js (s : string) : jstring :=
  map N_of_ascii (list_ascii_of_string s).

Definition cu (a : ascii) : N := N_of_ascii a.

Fixpoint jstring_eqb (a b : jstring) : bool :=
  match a, b with
  | [], [] => true
  | x :: a', y :: b' => N.eqb x y && jstring_eqb a' b'
  | _, _ => false
  end.

(** WhiteSpace and LineTerminator code points: the set stripped by
    [String.prototype.trim] and matched by the class escape [\s]. *)
Definition is_space (c : N) : bool :=
  (N.leb 9 c && N.leb c 13)            (* \t \n \v \f \r *)
  || N.eqb c 32                         (* space *)
  || N.eqb c 160                        (* U+00A0 *)
  || N.eqb c 5760                       (* U+1680 *)
  || (N.leb 8192 c && N.leb c 8202)     (* U+2000 .. U+200A *)
  || N.eqb c 8232 || N.eqb c 8233       (* U+2028, U+2029 *)
  || N.eqb c 8239                       (* U+202F *)
  || N.eqb c 8287                       (* U+205F *)
  || N.eqb c 12288                      (* U+3000 *)
  || N.eqb c 65279.                     (* U+FEFF *)

(** [\w] without the unicode flag: [A-Za-z0-9_]. *)
Definition is_word (c : N) : bool :=
  (N.leb 48 c && N.leb c 57)
  || (N.leb 65 c && N.leb c 90)
  || N.eqb c 95
  || (N.leb 97 c && N.leb c 122).

(** LineTerminator: the code points the dot does not match. *)
Definition is_line_terminator (c : N) : bool :=
  N.eqb c 10 || N.eqb c 13 || N.eqb c 8232 || N.eqb c 8233.

Fixpoint drop_while (p : N -> bool) (s : jstring) : jstring :=
  match s with
  | [] => []
  | c :: t => if p c then drop_while p t else s
  end.

Definition trim_start (s : jstring) : jstring := drop_while is_space s.
Definition trim_end (s : jstring) : jstring := rev (drop_while is_space (rev s)).

(** [String.prototype.trim]. *)
Definition trim (s : jstring) : jstring := trim_end (trim_start s).

(** [s.substring(p, q)] for [p <= q]. *)
Definition substring (p q : nat) (s : jstring) : jstring :=
  firstn (q - p) (skipn p s).

(** [Array.prototype.join]. *)
Fixpoint join (sep : jstring) (l : list jstring) : jstring :=
  match l with
  | [] => []
  | [x] => x
  | x :: t => x ++ sep ++ join sep t
  end.

End JsString.
Import JsString.

(* ===================================================================== *)
(** ** Regular expressions                                                *)
(* ===================================================================== *)

Module Regex.

Inductive regex : Type :=
| REps                                  (* empty pattern *)
| RClass (p : N -> bool)                (* one code unit of a class *)
| RSeq (a b : regex)                    (* ab *)
| RAlt (a b : regex)                    (* a|b, left first *)
| RStar (a : regex)                     (* a*, greedy *)
| RBol                                  (* ^  (no m flag: start of input) *)
| REol                                  (* $  (no m flag: end of input) *)
| RGroup (n : nat) (a : regex).         (* n-th capturing group *)

(** Matcher state: the index reached, the input that is left, and the
    captures recorded so far (most recent first). *)
Record mstate : Type := MState {
  pos : nat;
  rest : jstring;
  caps : list (nat * jstring)
}.

Definition advance (s : mstate) (t : jstring) : mstate :=
  MState (S (pos s)) t (caps s).

Definition capture (n : nat) (from to : mstate) : mstate :=
  MState (pos to) (rest to)
         ((n, firstn (pos to - pos from) (rest from)) :: caps to).

(** The greedy loop of a star: [step] runs the body once.  An iteration
    that consumes nothing is rejected, as RepeatMatcher does, so the loop
    runs at most once per code unit left and [fuel], the number of code
    units left, is never exhausted early. *)
Fixpoint star_loop (R : Type)
  (step : (mstate -> option R) -> mstate -> option R)
  (k : mstate -> option R) (fuel : nat) (s : mstate) {struct fuel} : option R :=
  match fuel with
  | O => k s
  | S fuel' =>
      match step (fun s' =>
                    if length (rest s') <? length (rest s)
                    then star_loop step k fuel' s' else None) s with
      | Some x => Some x
      | None => k s
      end
  end.

(** Backtracking matcher in continuation-passing style: [bt r k s] runs
    [r] from [s] and hands every way of matching it, in priority order,
    to [k] until [k] accepts one. *)
Fixpoint bt (R : Type) (r : regex) (k : mstate -> option R) (s : mstate)
  {struct r} : option R :=
  match r with
  | REps => k s
  | RClass p =>
      match rest s with
      | c :: t => if p c then k (advance s t) else None
      | [] => None
      end
  | RSeq a b => bt a (bt b k) s
  | RAlt a b =>
      match bt a k s with
      | Some x => Some x
      | None => bt b k s
      end
  | RStar a => star_loop (bt a) k (length (rest s)) s
  | RBol => if pos s =? 0 then k s else None
  | REol => match rest s with [] => k s | _ :: _ => None end
  | RGroup n a => bt a (fun s' => k (capture n s s')) s
  end.

(** One attempt at index [i] of [str]. *)
Definition exec_at (r : regex) (str : jstring) (i : nat) : option mstate :=
  bt r (fun s => Some s) (MState i (skipn i str) []).

(** [RegExp.prototype.exec] without the g and y flags: the first index,
    from 0 to the length of the input, at which the pattern matches. *)
Fixpoint search_from (r : regex) (str : jstring) (i n : nat)
  : option (nat * mstate) :=
  match exec_at r str i with
  | Some s => Some (i, s)
  | None =>
      match n with
      | O => None
      | S n' => search_from r str (S i) n'
      end
  end.

Definition exec (r : regex) (str : jstring) : option (nat * mstate) :=
  search_from r str 0 (length str).

(** [r.test(str)]. *)
Definition test (r : regex) (str : jstring) : bool :=
  match exec r str with Some _ => true | None => false end.

(** [str.replace(r, '')] for a pattern without the g flag. *)
Definition replace_empty (r : regex) (str : jstring) : jstring :=
  match exec r str with
  | Some (i, s) => firstn i str ++ rest s
  | None => str
  end.

Fixpoint lookup_cap (n : nat) (l : list (nat * jstring)) : option jstring :=
  match l with
  | [] => None
  | (m, v) :: t => if m =? n then Some v else lookup_cap n t
  end.

(** [str.match(r)] for a pattern without the g flag, read at group [n]. *)
Definition match_group (r : regex) (str : jstring) (n : nat)
  : option (option jstring) :=
  match exec r str with
  | Some (_, s) => Some (lookup_cap n (caps s))
  | None => None
  end.

(** The loop of [String.prototype.split] with a pattern separator that
    has no capturing group: [p] is the start of the piece being built,
    [q] the index tried.  Each round either advances [q] or moves [p]
    forward, so [fuel] rounds, twice the size plus one, are enough;
    [None] stands for a loop that has not finished. *)
Fixpoint split_loop (fuel : nat) (r : regex) (str : jstring) (p q : nat)
  : option (list jstring) :=
  match fuel with
  | O => None
  | S fuel' =>
      if q <? length str then
        match exec_at r str q with
        | None => split_loop fuel' r str p (S q)
        | Some s =>
            let e := Nat.min (pos s) (length str) in
            if e =? p then split_loop fuel' r str p (S q)
            else
              match split_loop fuel' r str e e with
              | Some l => Some (substring p q str :: l)
              | None => None
              end
        end
      else Some [substring p (length str) str]
  end.

Definition split (r : regex) (str : jstring) : option (list jstring) :=
  match str with
  | [] => match exec_at r [] 0 with Some _ => Some [] | None => Some [[]] end
  | _ :: _ => split_loop (2 * length str + 1) r str 0 0
  end.

(** *** Pattern notation *)

Definition chr (a : ascii) : regex := RClass (N.eqb (cu a)).

Fixpoint lit_list (l : list ascii) : regex :=
  match l with
  | [] => REps
  | [a] => chr a
  | a :: t => RSeq (chr a) (lit_list t)
  end.

(** A literal word. *)
Definition lit (s : string) : regex := lit_list (list_ascii_of_string s).

(** [a1|a2|...|an]. *)
Fixpoint alts (l : list regex) : regex :=
  match l with
  | [] => RClass (fun _ => false)
  | [a] => a
  | a :: t => RAlt a (alts t)
  end.

Definition words (l : list string) : regex := alts (map lit l).

Fixpoint seqs (l : list regex) : regex :=
  match l with
  | [] => REps
  | [a] => a
  | a :: t => RSeq a (seqs t)
  end.

(** [a+]: one mandatory iteration, then the greedy star. *)
Definition plus (a : regex) : regex := RSeq a (RStar a).

(** [a?]: greedy, the pattern first and then the empty match. *)
Definition opt (a : regex) : regex := RAlt a REps.

Definition space : regex := RClass is_space.                       (* \s *)
Definition nonspace : regex := RClass (fun c => negb (is_space c)). (* \S, [^\s] *)
Definition word : regex := RClass is_word.                         (* \w *)
Definition dot : regex := RClass (fun c => negb (is_line_terminator c)).
Definition one_of (s : string) : regex :=
  RClass (fun c => existsb (N.eqb c) (js s)).

End Regex.
Import Regex.

(* ===================================================================== *)
(** ** JavaScript values                                                  *)
(* ===================================================================== *)

Module JsValue.

(** The values a tool call carries: what [JSON.parse] can return, and
    [undefined] for a property that is absent. *)
#[warnings="-register-all"]
Inductive value : Type :=
| JUndefined
| JNull
| JBool (b : bool)
| JNum (f : spec_float)
| JStr (s : jstring)
| JArr (l : list value)
| JObj (fields : list (jstring * value)).

(** ToBoolean. *)
Definition truthy (v : value) : bool :=
  match v with
  | JUndefined | JNull => false
  | JBool b => b
  | JNum (S754_zero _) | JNum S754_nan => false
  | JNum _ => true
  | JStr [] => false
  | JStr (_ :: _) => true
  | JArr _ | JObj _ => true
  end.

(** [typeof v === 'object']. *)
Definition typeof_object (v : value) : bool :=
  match v with
  | JNull | JArr _ | JObj _ => true
  | _ => false
  end.

Fixpoint lookup_field (k : jstring) (fs : list (jstring * value)) : value :=
  match fs with
  | [] => JUndefined
  | (k', v) :: t => if jstring_eqb k' k then v else lookup_field k t
  end.

(** [v.k] for one of the property names the guard reads (command,
    pattern, tool_input, tool_name): an own property of an object,
    [undefined] on arrays and primitives, a TypeError ([None]) on
    [null] and [undefined]. *)
Definition get (v : value) (k : string) : option value :=
  match v with
  | JUndefined | JNull => None
  | JObj fs => Some (lookup_field (js k) fs)
  | _ => Some JUndefined
  end.

Fixpoint set_field (k : jstring) (x : value) (fs : list (jstring * value))
  : list (jstring * value) :=
  match fs with
  | [] => [(k, x)]
  | (k', v) :: t =>
      if jstring_eqb k' k then (k', x) :: t else (k', v) :: set_field k x t
  end.

(** [{ ...v, k: x }] for an object [v]: the key keeps its place when
    present and is appended otherwise.  Only objects have one of the
    properties above, so the guard spreads nothing else. *)
Definition spread_with (v : value) (k : string) (x : value) : value :=
  match v with
  | JObj fs => JObj (set_field (js k) x fs)
  | _ => JObj [(js k, x)]
  end.

(** [a === b] where [b] is a string: equal strings only. *)
Definition strict_eq_str (a : value) (b : jstring) : bool :=
  match a with
  | JStr s => jstring_eqb s b
  | _ => false
  end.

End JsValue.
Import JsValue.

(* ===================================================================== *)
(** ** lib/scout-checker.cjs: command patterns and helpers                *)
(* ===================================================================== *)

Module ScoutChecker.

(** The class of the two quote characters, U+0022 and U+0027. *)
Definition quote : regex := RClass (fun c => N.eqb c 34 || N.eqb c 39).

(** The class of the two path separators, slash and backslash. *)
Definition slash : regex := RClass (fun c => N.eqb c 47 || N.eqb c 92).

Definition PACKAGE_MANAGERS : list string := ["npm"; "pnpm"; "yarn"; "bun"].

Definition BUILD_VERBS : list string :=
  ["build"; "test"; "lint"; "dev"; "start"; "install"; "ci"; "add"; "remove";
   "update"; "publish"; "pack"; "init"; "create"; "exec"].

(** /^(npm|pnpm|yarn|bun)\s+([^\s]+\s+)*(run\s+)?(build|test|...|exec)/ *)
Definition BUILD_COMMAND_PATTERN : regex :=
  seqs [RBol;
        RGroup 1 (words PACKAGE_MANAGERS);
        plus space;
        RStar (RGroup 2 (RSeq (plus nonspace) (plus space)));
        opt (RGroup 3 (RSeq (lit "run") (plus space)));
        RGroup 4 (words BUILD_VERBS)].

Definition python3_opt : regex := RSeq (lit "python") (opt (lit "3")).

Definition TOOLS_BEFORE_PYTHON : list string :=
  ["npx"; "pnpx"; "bunx"; "tsc"; "esbuild"; "vite"; "webpack";
   "rollup"; "turbo"; "nx"; "jest"; "vitest"; "mocha"; "eslint";
   "prettier"; "go"; "cargo"; "make"; "mvn"; "mvnw"; "gradle";
   "gradlew"; "dotnet"; "docker"; "podman"; "kubectl"; "helm";
   "terraform"; "ansible"; "bazel"; "cmake"; "sbt"; "flutter";
   "swift"; "ant"; "ninja"; "meson"].

Definition TOOLS_AFTER_PYTHON : list string :=
  ["pip"; "uv"; "deno"; "bundle"; "rake"; "gem"; "php";
   "composer"; "ruby"; "mix"; "elixir"].

(** The alternatives of the tool pattern, in the order of the source. *)
Definition TOOLS : list regex :=
  map lit TOOLS_BEFORE_PYTHON ++ [python3_opt] ++ map lit TOOLS_AFTER_PYTHON.

(** /^(\.\/)?(npx|pnpx|...|python3?|pip|...|elixir)/ *)
Definition TOOL_COMMAND_PATTERN : regex :=
  seqs [RBol; opt (RGroup 1 (lit "./")); RGroup 2 (alts TOOLS)].

(** /(^|S)\.?venvS(bin|Scripts)S/ where S is the class of the two path
    separators. *)
Definition VENV_EXECUTABLE_PATTERN : regex :=
  seqs [RGroup 1 (RAlt RBol slash);
        opt (lit ".");
        lit "venv";
        slash;
        RGroup 2 (words ["bin"; "Scripts"]);
        slash].

(** /^(python3?|py)\s+(-[\w.]+\s+)*-m\s+venv\s+|^uv\s+venv(\s|$)|^virtualenv\s+/ *)
Definition VENV_CREATION_PATTERN : regex :=
  alts [seqs [RBol;
              RGroup 1 (RAlt python3_opt (lit "py"));
              plus space;
              RStar (RGroup 2 (seqs [lit "-";
                                     plus (RClass (fun c => is_word c || N.eqb c 46));
                                     plus space]));
              lit "-m"; plus space; lit "venv"; plus space];
        seqs [RBol; lit "uv"; plus space; lit "venv"; RGroup 3 (RAlt space REol)];
        seqs [RBol; lit "virtualenv"; plus space]].

(** /^(\w+=\S+\s+)+/ *)
Definition ENV_ASSIGNMENTS : regex :=
  RSeq RBol (plus (RGroup 1 (seqs [plus word; lit "="; plus nonspace; plus space]))).

Definition COMMAND_WRAPPERS : list string :=
  ["sudo"; "env"; "nice"; "nohup"; "time"; "timeout"].

(** /^(sudo|env|nice|nohup|time|timeout)\s+/ *)
Definition COMMAND_WRAPPER : regex :=
  seqs [RBol; RGroup 1 (words COMMAND_WRAPPERS); plus space].

(** /\s*(?:&&|\|\||;)\s*/ *)
Definition COMPOUND_OPERATOR : regex :=
  seqs [RStar space; alts [lit "&&"; lit "||"; lit ";"]; RStar space].

(** /^(?:(?:bash|sh|zsh)\s+-c|eval)\s+Q(.+)Q\s*$/ where Q is the class
    of the two quote characters. *)
Definition SHELL_EXECUTOR : regex :=
  seqs [RBol;
        RAlt (seqs [words ["bash"; "sh"; "zsh"]; plus space; lit "-c"])
             (lit "eval");
        plus space;
        quote;
        RGroup 1 (plus dot);
        quote;
        RStar space;
        REol].

Definition is_empty (s : jstring) : bool :=
  match s with [] => true | _ :: _ => false end.

(** The helpers below are the string case of the source functions; the
    guard [!command] is the test for the empty string.  A value that is
    not a string is handled where the orchestrator calls them. *)

Definition stripCommandPrefix (command : jstring) : jstring :=
  if is_empty command then command else
  let stripped := trim command in
  let stripped := replace_empty ENV_ASSIGNMENTS stripped in
  let stripped := replace_empty COMMAND_WRAPPER stripped in
  let stripped := replace_empty ENV_ASSIGNMENTS stripped in
  trim stripped.

(** A command that still starts with something [stripCommandPrefix]
    removes: environment assignments, or a wrapper and white space. *)
Definition has_strippable_prefix (command : jstring) : bool :=
  test ENV_ASSIGNMENTS command || test COMMAND_WRAPPER command.

Definition isBuildCommand (command : jstring) : bool :=
  if is_empty command then false else
  let trimmed := trim command in
  test BUILD_COMMAND_PATTERN trimmed || test TOOL_COMMAND_PATTERN trimmed.

Definition nonblank (cmd : jstring) : bool :=
  negb (is_empty cmd) && (0 <? length (trim cmd)).

Definition splitCompoundCommand (command : jstring) : list jstring :=
  if is_empty command then [] else
  match split COMPOUND_OPERATOR command with
  | Some parts => filter nonblank parts
  | None => []
  end.

Definition unwrapShellExecutor (command : jstring) : jstring :=
  if is_empty command then command else
  match match_group SHELL_EXECUTOR (trim command) 1 with
  | Some (Some inner) => inner
  | _ => command
  end.

Definition isVenvExecutable (command : jstring) : bool :=
  if is_empty command then false else
  test VENV_EXECUTABLE_PATTERN command.

Definition isVenvCreationCommand (command : jstring) : bool :=
  if is_empty command then false else
  test VENV_CREATION_PATTERN (trim command).

Definition isAllowedCommand (command : jstring) : bool :=
  let stripped := stripCommandPrefix command in
  isBuildCommand stripped || isVenvExecutable stripped
  || isVenvCreationCommand stripped.

End ScoutChecker.
Import ScoutChecker.

(* ===================================================================== *)
(** ** Splitting, read on the text                                        *)
(* ===================================================================== *)

Module SplitSpec.

Definition head_is (c : N) (s : jstring) : bool :=
  match s with x :: _ => N.eqb x c | [] => false end.

(** An operator at the head of [s]: [;], [&&] or [||]; the result is
    what follows it. *)
Definition operator_at (s : jstring) : option jstring :=
  match s with
  | c :: t =>
      if N.eqb c 59 then Some t
      else if N.eqb c 38 && head_is 38 t then Some (tl t)
      else if N.eqb c 124 && head_is 124 t then Some (tl t)
      else None
  | [] => None
  end.

(** A separator at the head of [s]: white space, an operator, and white
    space; the result is what follows. *)
Definition sep_at (s : jstring) : option jstring :=
  match operator_at (drop_while is_space s) with
  | Some t => Some (drop_while is_space t)
  | None => None
  end.

(** The pieces between separators: [cur] is the piece being built, [s]
    the text left.  Each round shortens [s], so [fuel] beyond its length
    is never used up. *)
Fixpoint scan (fuel : nat) (cur s : jstring) : list jstring :=
  match fuel with
  | O => [cur ++ s]
  | S fuel' =>
      match s with
      | [] => [cur]
      | c :: t =>
          match sep_at s with
          | Some r => cur :: scan fuel' [] r
          | None => scan fuel' (cur ++ [c]) t
          end
      end
  end.

Definition pieces (cur s : jstring) : list jstring := scan (S (length s)) cur s.

(** The text holds one of the operators [;], [&&], [||]. *)
Fixpoint has_operator (s : jstring) : bool :=
  match s with
  | [] => false
  | c :: t =>
      N.eqb c 59
      || (N.eqb c 38 && head_is 38 t)
      || (N.eqb c 124 && head_is 124 t)
      || has_operator t
  end.

(** No separator starts inside [x] when [tail] follows it. *)
Definition quiet (x tail : jstring) : Prop :=
  forall j, j < length x -> sep_at (skipn j x ++ tail) = None.

Definition no_trailing_space (x : jstring) : Prop :=
  forall l w, x = l ++ [w] -> is_space w = false.

Definition no_leading_space (x : jstring) : Prop :=
  match x with w :: _ => is_space w = false | [] => True end.

(** The greedy star over a class, read on the input that is left: the
    longest run first, then shorter ones. *)
Fixpoint greedy (R : Type) (p : N -> bool) (k : mstate -> option R)
  (n : nat) (caps : list (nat * jstring)) (l : jstring) : option R :=
  match l with
  | c :: t =>
      if p c then
        match greedy p k (S n) caps t with
        | Some x => Some x
        | None => k (MState n l caps)
        end
      else k (MState n l caps)
  | [] => k (MState n [] caps)
  end.

Definition OPERATORS : regex := alts [lit "&&"; lit "||"; lit ";"].

(** The sub-commands the orchestrator keeps, and the text it narrows the
    command to. *)
Definition nonAllowed (command : jstring) : list jstring :=
  filter (fun cmd => negb (isAllowedCommand (trim cmd)))
         (splitCompoundCommand command).

Definition narrowed_text (command : jstring) : jstring :=
  join (js " ; ") (nonAllowed command).

Definition two_lines : jstring :=
  js "cat <<EOF" ++ [10%N] ++ js "a & b | c" ++ [10%N] ++ js "EOF".

End SplitSpec.
Import SplitSpec.

(* ===================================================================== *)
(** ** Shell-executor invocations, as shapes of text                      *)
(* ===================================================================== *)

Module ExecutorSpec.

Definition is_quote (c : N) : bool := N.eqb c 34 || N.eqb c 39.

Definition SHELLS : list string := ["bash"; "sh"; "zsh"].

(** The head of a shell-executor invocation: a shell, white space and
    the flag -c, or the word eval. *)
Inductive executor_prefix : jstring -> Prop :=
| EP_shell : forall sh ws,
    In sh SHELLS -> ws <> [] -> forallb is_space ws = true ->
    executor_prefix (js sh ++ ws ++ js "-c")
| EP_eval : executor_prefix (js "eval").

(** [wraps t inner]: the text [t] is an executor head, white space, a
    quote character, the body [inner] and a quote character.  The body
    is not empty and holds no line terminator; the two quote characters
    need not be the same, and the body may hold quote characters. *)
Definition wraps (t inner : jstring) : Prop :=
  exists e ws q1 q2,
    executor_prefix e /\ ws <> [] /\ forallb is_space ws = true /\
    is_quote q1 = true /\ is_quote q2 = true /\
    inner <> [] /\
    forallb (fun c => negb (is_line_terminator c)) inner = true /\
    t = e ++ ws ++ [q1] ++ inner ++ [q2].

Fixpoint strip_prefix (w s : jstring) : option jstring :=
  match w, s with
  | [], _ => Some s
  | a :: w', c :: s' => if N.eqb a c then strip_prefix w' s' else None
  | _ :: _, [] => None
  end.

Definition strip_spaces (s : jstring) : option jstring :=
  match s with
  | c :: t => if is_space c then Some (drop_while is_space t) else None
  | [] => None
  end.

Definition after_shell (sh : string) (t : jstring) : option jstring :=
  match strip_prefix (js sh) t with
  | Some r1 =>
      match strip_spaces r1 with
      | Some r2 =>
          match strip_prefix (js "-c") r2 with
          | Some r3 => strip_spaces r3
          | None => None
          end
      | None => None
      end
  | None => None
  end.

Definition after_eval (t : jstring) : option jstring :=
  match strip_prefix (js "eval") t with
  | Some r => strip_spaces r
  | None => None
  end.

Definition or_next (A : Type) (a b : option A) : option A :=
  match a with Some _ => a | None => b end.

(** The text that follows an executor head and its white space. *)
Definition after_executor (t : jstring) : option jstring :=
  or_next (after_shell "bash" t)
    (or_next (after_shell "sh" t)
       (or_next (after_shell "zsh" t) (after_eval t))).

(** The reading of the contract: the text after the head is a single
    quoted string, one quote character, a body without that character,
    and the same quote character again. *)
Definition single_quoted (s : jstring) : option jstring :=
  match s with
  | q :: t =>
      match rev t with
      | q' :: body_rev =>
          if is_quote q && N.eqb q q'
             && negb (existsb (N.eqb q) body_rev) && negb (is_empty body_rev)
          then Some (rev body_rev) else None
      | [] => None
      end
  | [] => None
  end.

(** [unwrapExecutor] read from the contract: the body of a single quoted
    string after an executor head, and the input otherwise. *)
Definition unwrapExecutor_contract (command : jstring) : jstring :=
  match after_executor (trim command) with
  | Some r => match single_quoted r with Some body => body | None => command end
  | None => command
  end.

Definition nested_invocation : jstring :=
  js "bash -c " ++ [34%N] ++ js "sh -c 'ls -la'" ++ [34%N].

End ExecutorSpec.
Import ExecutorSpec.

Definition dq : jstring := [34%N].
Definition sq : jstring := [39%N].
Definition nl : jstring := [10%N].


(* ===================================================================== *)
(** ** The allow-grammar, as shapes of text                               *)
(* ===================================================================== *)

Module AllowGrammar.

(** A run of white space that is not empty. *)
Definition spaces1 (ws : jstring) : Prop :=
  ws <> [] /\ forallb is_space ws = true.

(** A run of tokens, each followed by white space. *)
Inductive token_run : jstring -> Prop :=
| TR_nil : token_run []
| TR_cons : forall tok ws more,
    tok <> [] -> forallb (fun c => negb (is_space c)) tok = true ->
    spaces1 ws -> token_run more ->
    token_run (tok ++ ws ++ more).

(** The part of the build pattern that reads such a run. *)
Definition TOKENS : regex := RStar (RGroup 2 (RSeq (plus nonspace) (plus space))).

(** A package manager, white space, any tokens, and text that begins
    with a verb of the safe set. *)
Definition build_shape (s : jstring) : Prop :=
  exists pm ws toks verb tail,
    In pm PACKAGE_MANAGERS /\ spaces1 ws /\ token_run toks /\
    In verb BUILD_VERBS /\
    s = js pm ++ ws ++ toks ++ js verb ++ tail.

Definition TOOL_NAMES : list string :=
  TOOLS_BEFORE_PYTHON ++ ["python"; "python3"] ++ TOOLS_AFTER_PYTHON.

(** Text that begins with the name of a listed binary, after an optional
    dot and slash. *)
Definition tool_shape (s : jstring) : Prop :=
  exists name tail,
    In name TOOL_NAMES /\
    (s = js name ++ tail \/ s = js "./" ++ js name ++ tail).

Definition is_sep (c : N) : bool := N.eqb c 47 || N.eqb c 92.

(** Text that holds, at its start or after a path separator, the
    executable directory of an isolated environment. *)
Definition venv_exec_shape (s : jstring) : Prop :=
  exists before dot dir s1 s2 tail,
    (before = [] \/ exists b c, before = b ++ [c] /\ is_sep c = true) /\
    (dot = [] \/ dot = js ".") /\
    In dir ["bin"; "Scripts"] /\
    is_sep s1 = true /\ is_sep s2 = true /\
    s = before ++ dot ++ js "venv" ++ [s1] ++ js dir ++ [s2] ++ tail.

(** A run of interpreter flags, each followed by white space. *)
Inductive flag_run : jstring -> Prop :=
| FR_nil : flag_run []
| FR_cons : forall w ws more,
    w <> [] -> forallb (fun c => is_word c || N.eqb c 46) w = true ->
    spaces1 ws -> flag_run more ->
    flag_run (js "-" ++ w ++ ws ++ more).

(** The part of the creation pattern that reads such a run. *)
Definition FLAGS : regex :=
  RStar (RGroup 2 (RSeq (lit "-")
                     (RSeq (plus (RClass (fun c => is_word c || N.eqb c 46)))
                           (plus space)))).

(** A command that creates an isolated environment. *)
Definition venv_create_shape (s : jstring) : Prop :=
  (exists py ws flags ws2 ws3 tail,
     In py ["python"; "python3"; "py"] /\ spaces1 ws /\ flag_run flags /\
     spaces1 ws2 /\ spaces1 ws3 /\
     s = js py ++ ws ++ flags ++ js "-m" ++ ws2 ++ js "venv" ++ ws3 ++ tail)
  \/ (exists ws tail,
        spaces1 ws /\ (tail = [] \/ exists c t, tail = c :: t /\ is_space c = true) /\
        s = js "uv" ++ ws ++ js "venv" ++ tail)
  \/ (exists ws tail, spaces1 ws /\ s = js "virtualenv" ++ ws ++ tail).

(** The allow-grammar as the patterns read it: on the text, by prefix. *)
Definition allow_shape (s : jstring) : Prop :=
  build_shape s \/ tool_shape s \/ venv_exec_shape s \/ venv_create_shape s.

Definition is_token (names : list string) (t : jstring) : bool :=
  existsb (fun n => jstring_eqb t (js n)) names.

(** The text cut at each white-space code unit. *)
Definition chunks (s : jstring) : list jstring :=
  fold_right (fun c acc =>
                if is_space c then [] :: acc
                else match acc with
                     | [] => [[c]]
                     | w :: ws => (c :: w) :: ws
                     end) [[]] s.

(** The tokens of a text: its chunks that are not empty. *)
Definition words_of (s : jstring) : list jstring :=
  filter (fun w => negb (is_empty w)) (chunks s).

(** A token without the dot and slash it may start with. *)
Definition without_dot_slash (t : jstring) : jstring :=
  match t with
  | a :: b :: t' => if N.eqb a 46 && N.eqb b 47 then t' else t
  | _ => t
  end.

(** The allow-grammar as the contract words it, on the leading tokens of
    a normalized sub-command: a package manager and, among its arguments,
    a verb of the safe set; a listed binary as the first token; a first
    token that lies in the executable directory of an isolated
    environment; or a command that creates such an environment. *)
Definition leading_tokens_allowed (s : jstring) : bool :=
  match words_of s with
  | [] => false
  | first :: args =>
      (is_token PACKAGE_MANAGERS first && existsb (is_token BUILD_VERBS) args)
      || is_token TOOL_NAMES (without_dot_slash first)
      || test VENV_EXECUTABLE_PATTERN first
      || test VENV_CREATION_PATTERN s
  end.

End AllowGrammar.
Import AllowGrammar.

(* ===================================================================== *)
(** ** lib/scout-checker.cjs: the guard orchestrator                      *)
(* ===================================================================== *)

Module Guard.

(** What [matchPath] returns. *)
Record MatchResult : Type := {
  mr_blocked : bool;
  mr_pattern : option jstring
}.

(** What [detectBroadPatternIssue] returns. *)
Record BroadResult : Type := {
  br_blocked : bool;
  br_reason : option jstring;
  br_suggestions : option (list jstring)
}.

(** The modules of [scout-block/] that the checker requires, and the host
    functions it calls.  Their code is not part of the checker: the
    orchestrator is embedded over any implementation of them. *)
Record ScoutBlock : Type := {
  Matcher : Type;
  loadPatterns : jstring -> list jstring;
  createMatcher : list jstring -> Matcher;
  matchPath : Matcher -> jstring -> MatchResult;
  extractFromToolInput : value -> list jstring;
  detectBroadPatternIssue : value -> BroadResult;
  path_join : jstring -> jstring -> jstring;
  process_cwd : jstring
}.

(** The calls the orchestrator makes to those modules, in order. *)
Inductive Call : Type :=
| DetectBroadPatternIssue (toolInput : value)
| LoadPatterns (file : jstring)
| CreateMatcher (patterns : list jstring)
| ExtractFromToolInput (toolInput : value)
| MatchPath (p : jstring).

Record Options : Type := {
  ckignorePath : option jstring;
  claudeDir : option jstring;
  checkBroadPatterns : option bool
}.

(** [options = {}]. *)
Definition no_options : Options := Build_Options None None None.

(** The object [checkScoutBlock] returns; an absent key is [None]. *)
Record GuardDecision : Type := {
  blocked : bool;
  path : option jstring;
  pattern : option value;
  reason : option jstring;
  isBroadPattern : option bool;
  suggestions : option (list jstring);
  isAllowedCommand_flag : option bool
}.

(** [{ blocked: false, isAllowedCommand: true }] *)
Definition allowed_command : GuardDecision :=
  Build_GuardDecision false None None None None None (Some true).

(** [{ blocked: false }] *)
Definition not_blocked : GuardDecision :=
  Build_GuardDecision false None None None None None None.

Definition DEFAULT_BROAD_REASON : jstring :=
  js "Pattern too broad - may fill context with too many files".

(** [a || b] on an optional string. *)
Definition or_else (a : option jstring) (b : jstring) : jstring :=
  match a with
  | Some ((_ :: _) as s) => s
  | _ => b
  end.

(** The text a template literal gives an optional string. *)
Definition to_text (a : option jstring) : jstring :=
  match a with Some s => s | None => js "undefined" end.

Definition blocked_broad (pat : value) (b : BroadResult) : GuardDecision :=
  {| blocked := true;
     path := None;
     pattern := Some pat;
     reason := Some (or_else (br_reason b) DEFAULT_BROAD_REASON);
     isBroadPattern := Some true;
     suggestions := Some (match br_suggestions b with Some l => l | None => [] end);
     isAllowedCommand_flag := None |}.

Definition blocked_path (p : jstring) (r : MatchResult) : GuardDecision :=
  {| blocked := true;
     path := Some p;
     pattern := match mr_pattern r with Some s => Some (JStr s) | None => Some JUndefined end;
     reason := Some (js "Path matches blocked pattern: " ++ to_text (mr_pattern r));
     isBroadPattern := None;
     suggestions := None;
     isAllowedCommand_flag := None |}.

(** [unwrapShellExecutor] and [splitCompoundCommand] on any value: a value
    that is not a string is returned as it is, and splits into nothing. *)
Definition unwrap_value (command : value) : value :=
  match command with
  | JStr s => JStr (unwrapShellExecutor s)
  | v => v
  end.

Definition split_value (command : value) : list jstring :=
  match command with
  | JStr s => splitCompoundCommand s
  | _ => []
  end.

(** [unwrapped !== toolInput.command]: a string differs by content, any
    other value is the command itself. *)
Definition differs (unwrapped command : value) : bool :=
  match unwrapped, command with
  | JStr a, JStr b => negb (jstring_eqb a b)
  | _, _ => false
  end.

Section Orchestrator.

Variable M : ScoutBlock.

(** The loop over the extracted paths; the calls to [matchPath] are
    recorded up to the first blocking one. *)
Fixpoint check_paths (matcher : Matcher M) (paths : list jstring)
  : GuardDecision * list Call :=
  match paths with
  | [] => (not_blocked, [])
  | extractedPath :: more =>
      let result := matchPath M matcher extractedPath in
      if mr_blocked result
      then (blocked_path extractedPath result, [MatchPath extractedPath])
      else let (d, calls) := check_paths matcher more in
           (d, MatchPath extractedPath :: calls)
  end.

(** Lines 162-169: unwrap a shell executor. *)
Definition unwrap_step (toolInput command : value) : value :=
  if truthy command then
    let unwrapped := unwrap_value command in
    if differs unwrapped command
    then spread_with toolInput "command" unwrapped
    else toolInput
  else toolInput.

(** Lines 188-232: breadth check, rules, extraction and matching. *)
Definition inspect (toolName toolInput : value) (options : Options)
  : option (GuardDecision * list Call) :=
  let dir := match claudeDir options with
             | Some d => d
             | None => path_join M (process_cwd M) (js ".claude")
             end in
  let check_broad := match checkBroadPatterns options with
                     | Some b => b
                     | None => true
                     end in
  match get toolInput "pattern" with
  | None => None
  | Some pat =>
      let broad := check_broad && (strict_eq_str toolName (js "Glob") || truthy pat) in
      let broadResult := detectBroadPatternIssue M toolInput in
      if broad && br_blocked broadResult
      then Some (blocked_broad pat broadResult, [DetectBroadPatternIssue toolInput])
      else
        let resolvedCkignorePath :=
          match ckignorePath options with
          | Some ((_ :: _) as f) => f
          | _ => path_join M dir (js ".ckignore")
          end in
        let patterns := loadPatterns M resolvedCkignorePath in
        let matcher := createMatcher M patterns in
        let extractedPaths := extractFromToolInput M toolInput in
        let (d, calls) := check_paths matcher extractedPaths in
        Some (d,
              (if broad then [DetectBroadPatternIssue toolInput] else [])
              ++ [LoadPatterns resolvedCkignorePath;
                  CreateMatcher patterns;
                  ExtractFromToolInput toolInput]
              ++ calls)
  end.

(** [checkScoutBlock({ toolName, toolInput, options })]: the decision and
    the calls made to reach it, or [None] when reading a property of
    [toolInput] throws. *)
Definition checkScoutBlock (toolName toolInput : value) (options : Options)
  : option (GuardDecision * list Call) :=
  match get toolInput "command" with
  | None => None
  | Some command =>
      let toolInput := unwrap_step toolInput command in
      match get toolInput "command" with
      | None => None
      | Some command =>
          if truthy command then
            let subCommands := split_value command in
            let nonAllowed :=
              filter (fun cmd => negb (isAllowedCommand (trim cmd))) subCommands in
            if length nonAllowed =? 0 then Some (allowed_command, [])
            else
              let toolInput :=
                if length nonAllowed <? length subCommands
                then spread_with toolInput "command"
                                 (JStr (join (js " ; ") nonAllowed))
                else toolInput in
              inspect toolName toolInput options
          else inspect toolName toolInput options
      end
  end.

End Orchestrator.

(** An action that is not enumeration-shaped: the tool is not the
    enumeration tool and the action carries no pattern. *)
Definition not_enumeration (toolName toolInput : value) : bool :=
  negb (strict_eq_str toolName (js "Glob"))
  && match get toolInput "pattern" with
     | Some pat => negb (truthy pat)
     | None => false
     end.

(** The file the rules are read from. *)
Definition rule_resource (M : ScoutBlock) (options : Options) : jstring :=
  match ckignorePath options with
  | Some ((_ :: _) as f) => f
  | _ => path_join M
           (match claudeDir options with
            | Some d => d
            | None => path_join M (process_cwd M) (js ".claude")
            end) (js ".ckignore")
  end.

End Guard.
Import Guard.

(* ===================================================================== *)
(** ** scout-block.cjs: the hook the host runs                            *)
(* ===================================================================== *)

Module Hook.

(** What the hook script takes from the host: the JSON parser ([None]
    when [JSON.parse] throws), the switch read by [isHookEnabled], and the
    directory of the script. *)
Record Host : Type := {
  JSON_parse : jstring -> option value;
  isHookEnabled : jstring -> bool;
  path_dirname : jstring -> jstring;
  dirname_ : jstring
}.

Definition EXIT_ALLOWED : nat := 0.
Definition EXIT_BLOCKED : nat := 2.

Definition is_true (b : option bool) : bool :=
  match b with Some true => true | _ => false end.

Section Script.

Variable M : ScoutBlock.
Variable H : Host.

(** The exit code of one run of the hook on the text read from standard
    input.  An exception inside the inner [try] block reaches its
    [catch], which exits with 0. *)
Definition scout_block (hookInput : jstring) : nat :=
  if negb (isHookEnabled H (js "scout-block")) then EXIT_ALLOWED
  else if is_empty hookInput || (length (trim hookInput) =? 0) then EXIT_BLOCKED
  else
    match JSON_parse H hookInput with
    | None => EXIT_ALLOWED
    | Some data =>
        match get data "tool_input", get data "tool_name" with
        | Some tool_input, Some tool_name =>
            if negb (truthy tool_input) || negb (typeof_object tool_input)
            then EXIT_ALLOWED
            else
              let toolInput := tool_input in
              let toolName := if truthy tool_name then tool_name
                              else JStr (js "unknown") in
              let dir := path_dirname H (dirname_ H) in
              let options :=
                {| ckignorePath := Some (path_join M dir (js ".ckignore"));
                   claudeDir := Some dir;
                   checkBroadPatterns := Some true |} in
              match checkScoutBlock M toolName toolInput options with
              | None => EXIT_ALLOWED
              | Some (result, _) =>
                  if is_true (isAllowedCommand_flag result) then EXIT_ALLOWED
                  else if blocked result && is_true (isBroadPattern result)
                  then EXIT_BLOCKED
                  else if blocked result then EXIT_BLOCKED
                  else EXIT_ALLOWED
              end
        | _, _ => EXIT_ALLOWED
        end
    end.

End Script.

(** The input the hook rejects before parsing: empty, or white space only. *)
Definition blank (hookInput : jstring) : bool :=
  is_empty hookInput || (length (trim hookInput) =? 0).

(** [data] carries a [tool_input] that is an object ([null] excluded). *)
Definition has_tool_input_object (data : value) : bool :=
  match get data "tool_input" with
  | Some v => truthy v && typeof_object v
  | None => false
  end.

End Hook.
Import Hook.

(* ===================================================================== *)
(** ** The pattern matcher, from its contract                             *)
(* ===================================================================== *)

Module PatternMatcher.

(** Modelled from the spec: the ordered rules of the rule resource.  The
    file [scout-block/pattern-matcher.cjs] is missing; a rule is the
    source text of one line, its negation flag and its glob, and blank
    lines and comment lines are not rules. *)
Record PatternRule : Type := {
  rule_text : jstring;
  negated : bool;
  glob : jstring
}.

(** Modelled from the spec: a path or a glob cut at each separator. *)
Definition split_on (sep : N) (s : jstring) : list jstring :=
  fold_right (fun c acc =>
                if N.eqb c sep then [] :: acc
                else match acc with
                     | [] => [[c]]
                     | w :: ws => (c :: w) :: ws
                     end) [[]] s.

(** Modelled from the spec: the segments of a path or of a glob. *)
Definition segments (s : jstring) : list jstring :=
  filter (fun w => negb (is_empty w)) (split_on 47 s).

(** Modelled from the spec: a star matches any run of code units inside
    one path segment. *)
Fixpoint seg_match (fuel : nat) (pat seg : jstring) : bool :=
  match fuel with
  | O => false
  | S fuel' =>
      match pat, seg with
      | [], [] => true
      | [], _ :: _ => false
      | p :: pat', _ =>
          if N.eqb p 42 then
            seg_match fuel' pat' seg
            || match seg with
               | [] => false
               | _ :: seg' => seg_match fuel' pat seg'
               end
          else match seg with
               | [] => false
               | c :: seg' => N.eqb p c && seg_match fuel' pat' seg'
               end
      end
  end.

(** Modelled from the spec: one segment of a glob against one segment of
    a path. *)
Definition segment_matches (pat seg : jstring) : bool :=
  seg_match (S (length pat + length seg)) pat seg.

(** Modelled from the spec: the segment that matches across segments. *)
Definition is_double_star (pat : jstring) : bool := jstring_eqb pat (js "**").

(** Modelled from the spec: a double star matches across segments, a rule
    whose segments are exhausted matches the directory and all below. *)
Fixpoint segs_match (fuel : nat) (pats segs : list jstring) : bool :=
  match fuel with
  | O => false
  | S fuel' =>
      match pats with
      | [] => true
      | p :: pats' =>
          if is_double_star p then
            segs_match fuel' pats' segs
            || match segs with
               | [] => false
               | _ :: segs' => segs_match fuel' pats segs'
               end
          else match segs with
               | [] => false
               | s :: segs' => segment_matches p s && segs_match fuel' pats' segs'
               end
      end
  end.

(** Modelled from the spec: a match at any depth of the path. *)
Fixpoint any_suffix (f : list jstring -> bool) (segs : list jstring) : bool :=
  f segs || match segs with [] => false | _ :: t => any_suffix f t end.

(** Modelled from the spec: an anchored rule (one with a separator before
    its last segment) matches from the root, an unanchored one at any
    depth. *)
Definition glob_matches (g p : jstring) : bool :=
  let pats := segments g in
  let segs := segments p in
  let fuel := S (length pats + length segs) in
  let anchored := existsb (N.eqb 47) (removelast g) in
  if anchored then segs_match fuel pats segs
  else any_suffix (segs_match fuel pats) segs.

(** Modelled from the spec: a rule matches a path when its glob does. *)
Definition rule_matches (r : PatternRule) (p : jstring) : bool :=
  glob_matches (glob r) p.

(** Modelled from the spec: one line of the rule resource; blank lines
    and number-sign lines are not rules, an exclamation mark negates. *)
Definition parse_rule (line : jstring) : option PatternRule :=
  match trim line with
  | [] => None
  | c :: t =>
      if N.eqb c 35 then None
      else if N.eqb c 33 then Some (Build_PatternRule (trim line) true t)
      else Some (Build_PatternRule (trim line) false (c :: t))
  end.

(** Modelled from the spec: [compile], rule order preserved. *)
Fixpoint compile (lines : list jstring) : list PatternRule :=
  match lines with
  | [] => []
  | l :: t =>
      match parse_rule l with
      | Some r => r :: compile t
      | None => compile t
      end
  end.

(** Modelled from the spec: [match] evaluates each rule against the path
    in file order; a plain rule that matches marks the path blocked, a
    negated rule that matches marks it allowed, and the verdict standing
    after the last rule is the outcome. *)
Fixpoint match_from (verdict : MatchResult) (rules : list PatternRule)
  (p : jstring) : MatchResult :=
  match rules with
  | [] => verdict
  | r :: more =>
      if rule_matches r p
      then match_from (if negated r
                       then Build_MatchResult false None
                       else Build_MatchResult true (Some (rule_text r)))
                      more p
      else match_from verdict more p
  end.

(** Modelled from the spec: [match] on a compiled rule set; a path starts
    out not blocked. *)
Definition match_path (rules : list PatternRule) (p : jstring) : MatchResult :=
  match_from (Build_MatchResult false None) rules p.

(** [r] is the last rule of [R], in file order, that matches [P]. *)
Definition last_matching (R : list PatternRule) (P : jstring) (r : PatternRule)
  : Prop :=
  exists before after,
    R = before ++ r :: after /\
    rule_matches r P = true /\
    Forall (fun r' => rule_matches r' P = false) after.

(** A rule resource of five lines, three of them rules. *)
Definition sample_rules : list PatternRule :=
  compile [js "# build output"; js "dist"; js "**/etc/**"; js ""; js "!dist/keep"].

End PatternMatcher.
Import PatternMatcher.


(* ===================================================================== *)
(** ** What a pattern matches, declaratively                              *)
(* ===================================================================== *)

Module RegexSpec.

(** [matches r s s']: the pattern [r] can take the matcher from state [s]
    to state [s'].  The relation is the language of [r] with its
    assertions and captures, without any matching order. *)
Inductive matches : regex -> mstate -> mstate -> Prop :=
| M_eps : forall s, matches REps s s
| M_class : forall p s c t,
    rest s = c :: t -> p c = true -> matches (RClass p) s (advance s t)
| M_seq : forall a b s s1 s2,
    matches a s s1 -> matches b s1 s2 -> matches (RSeq a b) s s2
| M_alt_l : forall a b s s', matches a s s' -> matches (RAlt a b) s s'
| M_alt_r : forall a b s s', matches b s s' -> matches (RAlt a b) s s'
| M_star_stop : forall a s, matches (RStar a) s s
| M_star_step : forall a s s1 s2,
    matches a s s1 -> length (rest s1) < length (rest s) ->
    matches (RStar a) s1 s2 -> matches (RStar a) s s2
| M_bol : forall s, pos s = 0 -> matches RBol s s
| M_eol : forall s, rest s = [] -> matches REol s s
| M_group : forall n a s s',
    matches a s s' -> matches (RGroup n a) s (capture n s s').

(** [s'] is reached from [s] by consuming the code units [w]. *)
Definition consumed (s s' : mstate) (w : jstring) : Prop :=
  rest s = w ++ rest s' /\ pos s' = pos s + length w.

(** A lower bound on the number of code units a match consumes. *)
Fixpoint min_len (r : regex) : nat :=
  match r with
  | REps | RBol | REol | RStar _ => 0
  | RClass _ => 1
  | RSeq a b => min_len a + min_len b
  | RAlt a b => Nat.min (min_len a) (min_len b)
  | RGroup _ a => min_len a
  end.

(** A pattern that starts with the assertion [^]. *)
Fixpoint anchored (r : regex) : bool :=
  match r with
  | RBol => true
  | RSeq a _ => anchored a
  | RAlt a b => anchored a && anchored b
  | RGroup _ a => anchored a
  | _ => false
  end.

(** [runs r s t]: the pattern [r] can be matched from [s] leaving [t]. *)
Definition runs (r : regex) (s : mstate) (t : jstring) : Prop :=
  exists s', matches r s s' /\ rest s' = t.

(** The state in which an attempt at index [i] of [str] starts. *)
Definition start_at (str : jstring) (i : nat) : mstate :=
  MState i (skipn i str) [].

End RegexSpec.
Import RegexSpec.

(* ===================================================================== *)
(** ** Prefixes and parts of a command, read on the text                  *)
(* ===================================================================== *)

Module TextShapes.

(** The strings of [l] occur in [s] one after the other, without
    overlap. *)
Inductive in_order : list jstring -> jstring -> Prop :=
| IO_nil : forall s, in_order [] s
| IO_cons : forall x l pre t,
    in_order l t -> in_order (x :: l) (pre ++ x ++ t).

(** A pattern without the assertion [$]. *)
Fixpoint eol_free (r : regex) : bool :=
  match r with
  | REol => false
  | RSeq a b | RAlt a b => eol_free a && eol_free b
  | RStar a | RGroup _ a => eol_free a
  | REps | RClass _ | RBol => true
  end.

(** The matcher state [s] with [t] added after the input that is left. *)
Definition extend (s : mstate) (t : jstring) : mstate :=
  MState (pos s) (rest s ++ t) (caps s).

(** A run of one or more code units of the class [p] at the head of [s],
    as long as it can be; the result is what follows the run. *)
Definition run_of (p : N -> bool) (s : jstring) : option jstring :=
  match s with
  | c :: _ => if p c then Some (drop_while p s) else None
  | [] => None
  end.

(** One assignment at the head of [s], as /\w+=\S+\s+/ reads it: a run of
    word characters, the sign [=], a run of code units that are not white
    space and a run of white space; the result is what follows. *)
Definition assignment_at (s : jstring) : option jstring :=
  match run_of is_word s with
  | Some (e :: s2) =>
      if N.eqb e 61 then
        match run_of (fun c => negb (is_space c)) s2 with
        | Some s3 => run_of is_space s3
        | None => None
        end
      else None
  | _ => None
  end.

(** The body of the loop of [ENV_ASSIGNMENTS]: one assignment. *)
Definition ASSIGNMENT : regex :=
  RGroup 1 (seqs [plus word; lit "="; plus nonspace; plus space]).

(** The text left when the assignments at the head of [s] are skipped one
    after the other; each one shortens the text, so [fuel] beyond its
    length is never used up. *)
Fixpoint skip_assignments (fuel : nat) (s : jstring) : jstring :=
  match fuel with
  | O => s
  | S fuel' =>
      match assignment_at s with
      | Some r => skip_assignments fuel' r
      | None => s
      end
  end.

End TextShapes.
Import TextShapes.

(* ===================================================================== *)
(** ** An instance of the required modules, from their contracts          *)
(* ===================================================================== *)

Module SpecModel.

(** Modelled from the spec: a token that begins with the flag marker. *)
Definition starts_with_char (c : N) (s : jstring) : bool :=
  match s with x :: _ => N.eqb x c | [] => false end.

(** Modelled from the spec: a token of a command is path-shaped when it
    holds a path separator and is neither a flag, a key=value pair nor a
    URL.  The file [scout-block/path-extractor.cjs] is missing. *)
Definition path_shaped (w : jstring) : bool :=
  existsb (N.eqb 47) w
  && negb (starts_with_char 45 w)
  && negb (existsb (N.eqb 61) w)
  && negb (existsb (N.eqb 58) w).

(** Modelled from the spec: a path field yields its value as it is. *)
Definition string_field (v : value) (k : string) : list jstring :=
  match get v k with
  | Some (JStr ((_ :: _) as s)) => [s]
  | _ => []
  end.

(** Modelled from the spec: [extract] yields the path and pattern fields
    as they are, then the path-shaped tokens of the command text. *)
Definition extract (toolInput : value) : list jstring :=
  string_field toolInput "file_path"
  ++ string_field toolInput "path"
  ++ string_field toolInput "pattern"
  ++ match get toolInput "command" with
     | Some (JStr c) => filter path_shaped (words_of c)
     | _ => []
     end.

(** Modelled from the spec: a segment that qualifies nothing. *)
Definition is_wildcard_segment (w : jstring) : bool :=
  jstring_eqb w (js "*") || jstring_eqb w (js "**").

(** Modelled from the spec: [assess] flags a recursive wildcard with no
    file-type or name qualifier and proposes narrower patterns.  The file
    [scout-block/broad-pattern-detector.cjs] is missing. *)
Definition assess (toolInput : value) : BroadResult :=
  match get toolInput "pattern" with
  | Some (JStr p) =>
      if existsb is_double_star (segments p) && forallb is_wildcard_segment (segments p)
      then Build_BroadResult true
             (Some (js "Pattern matches every file under every directory"))
             (Some [js "src/**/*.js"; js "**/*.md"])
      else Build_BroadResult false None None
  | _ => Build_BroadResult false None None
  end.

(** The rule resource of this instance: one file of three rules. *)
Definition rule_file (file : jstring) : list jstring :=
  if jstring_eqb file (js "/repo/.claude/.ckignore")
  then [js "node_modules"; js "**/etc/**"; js "!node_modules/.bin"]
  else [].

(** [path.join] on two segments of this instance. *)
Definition join_path (a b : jstring) : jstring := a ++ js "/" ++ b.

(** The instance: the matcher and the extractor above, over a
    repository at [/repo]. *)
Definition modules : ScoutBlock :=
  {| Matcher := list PatternRule;
     loadPatterns := rule_file;
     createMatcher := compile;
     matchPath := match_path;
     extractFromToolInput := extract;
     detectBroadPatternIssue := assess;
     path_join := join_path;
     process_cwd := js "/repo" |}.

(** A parser that knows four texts, enough to run the hook on them. *)
Definition parse_table (text : jstring) : option value :=
  if jstring_eqb text (js "{}") then Some (JObj [])
  else if jstring_eqb text (js "null") then Some JNull
  else if jstring_eqb text (js "[]") then Some (JArr [])
  else if jstring_eqb text (js "true") then Some (JBool true)
  else None.

(** [path.dirname] on the paths of this instance. *)
Definition strip_last_segment (s : jstring) : jstring :=
  rev (match drop_while (fun c => negb (N.eqb c 47)) (rev s) with
       | _ :: t => t
       | [] => []
       end).

(** The tool name of a shell action. *)
Definition bash : value := JStr (js "Bash").

(** An action that carries a command and nothing else. *)
Definition command_only (command : value) : value :=
  JObj [(js "command", command)].

(** An allowed build followed by a read of a path below [etc]. *)
Definition build_then_read : jstring :=
  js "npm run build && cat ../../etc/secrets".

(** A host with the hook switched on, installed below [/repo/.claude]. *)
Definition host : Host :=
  {| JSON_parse := parse_table;
     isHookEnabled := fun _ => true;
     path_dirname := strip_last_segment;
     dirname_ := js "/repo/.claude/hooks" |}.

(** The parsed text of one run: the shell tool and the command above. *)
Definition read_action : value :=
  JObj [(js "tool_name", bash);
        (js "tool_input", command_only (JStr build_then_read))].

(** The same host with a parser that yields [data] on every text. *)
Definition host_reading (data : value) : Host :=
  {| JSON_parse := fun _ => Some data;
     isHookEnabled := fun _ => true;
     path_dirname := strip_last_segment;
     dirname_ := js "/repo/.claude/hooks" |}.

(** Options that name the rule file. *)
Definition named_rules : Options :=
  Build_Options (Some (js "/repo/.claude/.ckignore")) None None.

End SpecModel.
Import SpecModel.

(* ===================================================================== *)
(** * Properties                                                          *)
(* ===================================================================== *)

Unset Implicit Arguments.

Module RegexFacts.

Lemma consumed_refl : forall s, consumed s s [].
Proof. intros s; split; simpl; auto. Qed.

Lemma consumed_trans : forall s1 s2 s3 w1 w2,
  consumed s1 s2 w1 -> consumed s2 s3 w2 -> consumed s1 s3 (w1 ++ w2).
Proof.
  intros s1 s2 s3 w1 w2 [H1 H2] [H3 H4]; split.
  - rewrite H1, H3, app_assoc; reflexivity.
  - rewrite H4, H2, length_app; lia.
Qed.

(** A match consumes a prefix of the input and moves the index by its length. *)
Lemma matches_consumed : forall r s s',
  matches r s s' -> exists w, consumed s s' w.
Proof.
  induction 1.
  - exists []; apply consumed_refl.
  - exists [c]; split; simpl; [assumption | lia].
  - destruct IHmatches1 as [w1 H1], IHmatches2 as [w2 H2].
    exists (w1 ++ w2); eapply consumed_trans; eauto.
  - assumption.
  - assumption.
  - exists []; apply consumed_refl.
  - destruct IHmatches1 as [w1 H1'], IHmatches2 as [w2 H2'].
    exists (w1 ++ w2); eapply consumed_trans; eauto.
  - exists []; apply consumed_refl.
  - exists []; apply consumed_refl.
  - destruct IHmatches as [w Hw]; exists w.
    destruct Hw as [Hr Hp]; split; simpl; assumption.
Qed.

Lemma consumed_length : forall s s' w,
  consumed s s' w -> length (rest s) = length w + length (rest s').
Proof. intros s s' w [H _]; rewrite H, length_app; reflexivity. Qed.

(** Soundness of the star loop, given soundness of its body. *)
Lemma star_loop_sound : forall (R : Type) a (k : mstate -> option R),
  (forall (k' : mstate -> option R) s x, bt a k' s = Some x ->
     exists s', matches a s s' /\ k' s' = Some x) ->
  forall fuel s x, star_loop (bt a) k fuel s = Some x ->
  exists s', matches (RStar a) s s' /\ k s' = Some x.
Proof.
  intros R a k IHa; induction fuel as [|fuel IH]; intros s x H; simpl in H.
  - exists s; split; [constructor | assumption].
  - destruct (bt a _ s) as [y|] eqn:E.
    + inversion H; subst y; clear H.
      apply IHa in E; destruct E as [s1 [Hm Hk]].
      destruct (length (rest s1) <? length (rest s)) eqn:L; [|discriminate].
      apply Nat.ltb_lt in L.
      apply IH in Hk; destruct Hk as [s2 [Hs Hk2]].
      exists s2; split; [eapply M_star_step; eauto | assumption].
    + exists s; split; [constructor | assumption].
Qed.

(** Soundness: every answer of the matcher comes from a match. *)
Theorem bt_sound : forall (R : Type) r (k : mstate -> option R) s x,
  bt r k s = Some x -> exists s', matches r s s' /\ k s' = Some x.
Proof.
  intros R r; induction r; intros k s x H; simpl in H.
  - exists s; split; [constructor | assumption].
  - destruct (rest s) as [|c t] eqn:E; [discriminate|].
    destruct (p c) eqn:P; [|discriminate].
    exists (advance s t); split; [econstructor; eauto | assumption].
  - apply IHr1 in H; destruct H as [s1 [H1 H]].
    apply IHr2 in H; destruct H as [s2 [H2 H]].
    exists s2; split; [econstructor; eauto | assumption].
  - destruct (bt r1 k s) as [y|] eqn:E.
    + inversion H; subst y. apply IHr1 in E; destruct E as [s' [Hm Hk]].
      exists s'; split; [apply M_alt_l; assumption | assumption].
    + apply IHr2 in H; destruct H as [s' [Hm Hk]].
      exists s'; split; [apply M_alt_r; assumption | assumption].
  - eapply star_loop_sound; eauto.
  - destruct (pos s =? 0) eqn:E; [|discriminate].
    apply Nat.eqb_eq in E. exists s; split; [constructor; assumption | assumption].
  - destruct (rest s) eqn:E; [|discriminate].
    exists s; split; [constructor; assumption | assumption].
  - apply IHr in H; destruct H as [s' [Hm Hk]].
    exists (capture n s s'); split; [constructor; assumption | assumption].
Qed.

(** Completeness: where a match exists that the continuation accepts, the
    matcher answers. *)
Theorem bt_complete : forall r s s',
  matches r s s' ->
  forall (R : Type) (k : mstate -> option R) x, k s' = Some x ->
  exists y, bt r k s = Some y.
Proof.
  intros r s s' Hm.
  assert (Hgen : forall (R : Type) (k : mstate -> option R) x, k s' = Some x ->
            (exists y, bt r k s = Some y) /\
            (forall a, r = RStar a -> forall fuel, length (rest s) <= fuel ->
               exists y, star_loop (bt a) k fuel s = Some y)).
  { induction Hm; intros R k x Hk.
    - split; [simpl; eauto | intros; discriminate].
    - split; [simpl; rewrite H, H0; eauto | intros; discriminate].
    - split; [|intros; discriminate]. simpl.
      destruct (IHHm2 R k x Hk) as [[y Hy] _].
      destruct (IHHm1 R (bt b k) y Hy) as [[z Hz] _]. eauto.
    - split; [|intros; discriminate]. simpl.
      destruct (IHHm R k x Hk) as [[y Hy] _]. rewrite Hy; eauto.
    - split; [|intros; discriminate]. simpl.
      destruct (bt a k s); [eauto|].
      destruct (IHHm R k x Hk) as [[y Hy] _]. eauto.
    - assert (L : forall fuel, exists y, star_loop (bt a) k fuel s = Some y).
      { intros [|fuel]; simpl; [eauto|]. destruct (bt a _ s); eauto. }
      split; [simpl; apply L|]. intros a' E fuel _; inversion E; subst a'. apply L.
    - assert (L : forall fuel, length (rest s) <= fuel ->
                exists y, star_loop (bt a) k fuel s = Some y).
      { intros [|fuel] Hf; [lia|]. simpl.
        destruct (IHHm2 R k x Hk) as [_ Hloop].
        destruct (Hloop a eq_refl fuel ltac:(lia)) as [y Hy].
        destruct (IHHm1 R (fun s' => if length (rest s') <? length (rest s)
                                     then star_loop (bt a) k fuel s' else None) y) as [[z Hz] _].
        { apply Nat.ltb_lt in H. rewrite H. assumption. }
        rewrite Hz; eauto. }
      split; [simpl; apply L; lia|]. intros a' E fuel Hf; inversion E; subst a'. apply L; assumption.
    - split; [|intros; discriminate]. simpl. rewrite H; simpl; eauto.
    - split; [|intros; discriminate]. simpl. rewrite H; eauto.
    - split; [|intros; discriminate]. simpl.
      destruct (IHHm R (fun s'0 => k (capture n s s'0)) x Hk) as [[y Hy] _]. eauto. }
  intros R k x Hk. destruct (Hgen R k x Hk) as [H _]. exact H.
Qed.

End RegexFacts.
Import RegexFacts.

Module SearchFacts.

Lemma exec_at_sound : forall r str i s',
  exec_at r str i = Some s' -> matches r (start_at str i) s'.
Proof.
  unfold exec_at; intros r str i s' H.
  apply bt_sound in H. destruct H as [s2 [Hm Hk]].
  inversion Hk; subst; assumption.
Qed.

Lemma exec_at_complete : forall r str i s',
  matches r (start_at str i) s' -> exists s2, exec_at r str i = Some s2.
Proof.
  unfold exec_at; intros r str i s' H.
  eapply bt_complete with (k := fun s => Some s) in H; eauto.
Qed.

Lemma exec_at_none : forall r str i,
  exec_at r str i = None -> forall s', ~ matches r (start_at str i) s'.
Proof.
  intros r str i H s' Hm. apply exec_at_complete in Hm.
  destruct Hm as [s2 H2]. congruence.
Qed.

Lemma search_from_some : forall r str n i j s',
  search_from r str i n = Some (j, s') ->
  i <= j <= i + n /\ exec_at r str j = Some s' /\
  (forall k, i <= k < j -> exec_at r str k = None).
Proof.
  intros r str; induction n as [|n IH]; intros i j s' H; simpl in H.
  - destruct (exec_at r str i) eqn:E; [|discriminate].
    inversion H; subst. repeat split; try lia; auto; intros; lia.
  - destruct (exec_at r str i) eqn:E.
    + inversion H; subst. repeat split; try lia; auto; intros; lia.
    + apply IH in H. destruct H as [Hr [He Hn]].
      repeat split; try lia; auto.
      intros k Hk. destruct (Nat.eq_dec k i); [subst; assumption|].
      apply Hn; lia.
Qed.

Lemma search_from_none : forall r str n i,
  search_from r str i n = None ->
  forall k, i <= k <= i + n -> exec_at r str k = None.
Proof.
  intros r str; induction n as [|n IH]; intros i H k Hk; simpl in H.
  - destruct (exec_at r str i) eqn:E; [discriminate|].
    assert (k = i) by lia; subst; assumption.
  - destruct (exec_at r str i) eqn:E; [discriminate|].
    destruct (Nat.eq_dec k i); [subst; assumption|].
    apply (IH (S i)); [assumption | lia].
Qed.

Lemma search_from_found : forall r str n i k s',
  i <= k <= i + n -> exec_at r str k = Some s' ->
  exists j s2, search_from r str i n = Some (j, s2).
Proof.
  intros r str n i k s' Hk He.
  destruct (search_from r str i n) as [[j s2]|] eqn:E; [eauto|].
  rewrite (search_from_none r str n i E k Hk) in He. discriminate.
Qed.

(** [test] answers true exactly when the pattern matches at some index. *)
Lemma test_true_iff : forall r str,
  test r str = true <->
  exists i s', i <= length str /\ matches r (start_at str i) s'.
Proof.
  intros r str; unfold test, exec; split.
  - destruct (search_from r str 0 (length str)) as [[j s']|] eqn:E; [|discriminate].
    intros _. apply search_from_some in E. destruct E as [Hr [He _]].
    exists j, s'; split; [lia | apply exec_at_sound; assumption].
  - intros (i & s' & Hi & Hm). apply exec_at_complete in Hm. destruct Hm as [s2 H2].
    destruct (search_from_found r str (length str) 0 i) with (s' := s2) as (j & s3 & E);
      [lia | assumption |]. rewrite E. reflexivity.
Qed.

Lemma test_false_iff : forall r str,
  test r str = false <->
  forall i s', i <= length str -> ~ matches r (start_at str i) s'.
Proof.
  intros r str; split.
  - intros H i s' Hi Hm.
    assert (T : test r str = true) by (apply test_true_iff; eauto). congruence.
  - intros H. destruct (test r str) eqn:E; [|reflexivity].
    apply test_true_iff in E. destruct E as (i & s' & Hi & Hm).
    exfalso; eapply H; eauto.
Qed.

(** A match consumes at least [min_len] code units. *)
Lemma matches_min_len : forall r s s',
  matches r s s' -> pos s + min_len r <= pos s'.
Proof.
  induction 1; simpl in *; try lia.
Qed.

Lemma matches_pos_le : forall r s s', matches r s s' -> pos s <= pos s'.
Proof. intros r s s' H; apply matches_min_len in H; lia. Qed.

Lemma matches_rest_length : forall r s s',
  matches r s s' -> length (rest s) = (pos s' - pos s) + length (rest s').
Proof.
  intros r s s' H. apply matches_consumed in H. destruct H as [w [Hr Hp]].
  rewrite Hr, length_app. lia.
Qed.

Lemma anchored_pos : forall r s s',
  matches r s s' -> anchored r = true -> pos s = 0.
Proof.
  induction 1; simpl; intros A; try discriminate; auto.
  - apply andb_true_iff in A; destruct A; auto.
  - apply andb_true_iff in A; destruct A; auto.
Qed.

Lemma exec_anchored : forall r str i s',
  anchored r = true -> exec r str = Some (i, s') -> i = 0.
Proof.
  intros r str i s' A E. unfold exec in E. apply search_from_some in E.
  destruct E as [_ [He _]]. apply exec_at_sound in He.
  apply anchored_pos in He; assumption.
Qed.

Lemma test_anchored_iff : forall r str,
  anchored r = true ->
  (test r str = true <-> exists s', matches r (start_at str 0) s').
Proof.
  intros r str A; rewrite test_true_iff; split.
  - intros (i & s' & Hi & Hm). pose proof (anchored_pos _ _ _ Hm A) as P.
    simpl in P; subst i. eauto.
  - intros [s' Hm]. exists 0, s'; split; [lia | assumption].
Qed.

Lemma test_exec : forall r str,
  test r str = false -> exec r str = None.
Proof.
  unfold test; intros r str. destruct (exec r str); [discriminate | reflexivity].
Qed.

Lemma replace_empty_no_match : forall r str,
  test r str = false -> replace_empty r str = str.
Proof.
  intros r str H; unfold replace_empty; rewrite (test_exec _ _ H); reflexivity.
Qed.

(** Removing a match removes as many code units as the match consumed. *)
Lemma replace_empty_length : forall r str i s',
  exec r str = Some (i, s') ->
  length (replace_empty r str) + (pos s' - i) = length str.
Proof.
  intros r str i s' E. unfold replace_empty. rewrite E.
  unfold exec in E. apply search_from_some in E. destruct E as [Hr [He _]].
  apply exec_at_sound in He. apply matches_rest_length in He. simpl in He.
  rewrite length_skipn in He.
  rewrite length_app, length_firstn. lia.
Qed.

Lemma replace_empty_le : forall r str,
  length (replace_empty r str) <= length str.
Proof.
  intros r str. destruct (exec r str) as [[i s']|] eqn:E.
  - pose proof (replace_empty_length _ _ _ _ E). lia.
  - unfold replace_empty; rewrite E; lia.
Qed.

Lemma replace_empty_shorter : forall r str,
  test r str = true -> 0 < min_len r ->
  length (replace_empty r str) < length str.
Proof.
  intros r str T L. unfold test in T.
  destruct (exec r str) as [[i s']|] eqn:E; [|discriminate].
  pose proof (replace_empty_length _ _ _ _ E) as Hl.
  unfold exec in E. apply search_from_some in E. destruct E as [_ [He _]].
  apply exec_at_sound in He. apply matches_min_len in He. simpl in He. lia.
Qed.

End SearchFacts.

Module TrimFacts.

Lemma drop_while_length : forall p s, length (drop_while p s) <= length s.
Proof.
  induction s as [|c t IH]; simpl; [lia|]. destruct (p c); simpl; lia.
Qed.

Lemma drop_while_fixed : forall p c t, p c = false -> drop_while p (c :: t) = c :: t.
Proof. intros p c t H; simpl; rewrite H; reflexivity. Qed.

Lemma drop_while_idem : forall p s, drop_while p (drop_while p s) = drop_while p s.
Proof.
  induction s as [|c t IH]; simpl; [reflexivity|].
  destruct (p c) eqn:E; [assumption | simpl; rewrite E; reflexivity].
Qed.

Lemma drop_while_snoc : forall p l c,
  p c = false -> drop_while p (l ++ [c]) = drop_while p l ++ [c].
Proof.
  induction l as [|x l IH]; intros c H; simpl.
  - rewrite H; reflexivity.
  - destruct (p x); [apply IH; assumption | reflexivity].
Qed.

Lemma trim_end_cons : forall c t,
  is_space c = false -> trim_end (c :: t) = c :: trim_end t.
Proof.
  intros c t H. unfold trim_end. simpl rev.
  rewrite drop_while_snoc by assumption.
  rewrite rev_app_distr. reflexivity.
Qed.

Lemma trim_end_idem : forall s, trim_end (trim_end s) = trim_end s.
Proof.
  intros s. unfold trim_end. rewrite rev_involutive, drop_while_idem. reflexivity.
Qed.

Lemma trim_end_length : forall s, length (trim_end s) <= length s.
Proof.
  intros s. unfold trim_end. rewrite length_rev.
  pose proof (drop_while_length is_space (rev s)) as H. rewrite length_rev in H. lia.
Qed.

Lemma trim_length : forall s, length (trim s) <= length s.
Proof.
  intros s. unfold trim, trim_start.
  pose proof (trim_end_length (drop_while is_space s)).
  pose proof (drop_while_length is_space s). lia.
Qed.

Lemma trim_start_trim_end : forall s,
  trim_start (trim_end (trim_start s)) = trim_end (trim_start s).
Proof.
  intros s. unfold trim_start.
  destruct (drop_while is_space s) as [|c t] eqn:E; [reflexivity|].
  assert (Hc : is_space c = false).
  { clear -E. induction s as [|x s IH]; simpl in E; [discriminate|].
    destruct (is_space x) eqn:X; [auto|]. inversion E; subst; assumption. }
  rewrite trim_end_cons by assumption. apply drop_while_fixed; assumption.
Qed.

(** [trim] leaves a trimmed string as it is. *)
Lemma trim_idem : forall s, trim (trim s) = trim s.
Proof.
  intros s. unfold trim at 1. unfold trim.
  rewrite trim_start_trim_end. apply trim_end_idem.
Qed.

End TrimFacts.
Import SearchFacts.
Import TrimFacts.

Module BlockFacts.

Lemma mstate_eq : forall a b : mstate,
  pos a = pos b -> rest a = rest b -> caps a = caps b -> a = b.
Proof. intros [p1 r1 c1] [p2 r2 c2]; simpl; intros; subst; reflexivity. Qed.

Lemma seq_elim : forall a b s s',
  matches (RSeq a b) s s' -> exists s1, matches a s s1 /\ matches b s1 s'.
Proof. intros a b s s' H; inversion H; subst; eauto. Qed.

Lemma alt_elim : forall a b s s',
  matches (RAlt a b) s s' -> matches a s s' \/ matches b s s'.
Proof. intros a b s s' H; inversion H; subst; auto. Qed.

Lemma group_elim : forall n a s s',
  matches (RGroup n a) s s' -> exists s1, matches a s s1 /\ s' = capture n s s1.
Proof. intros n a s s' H; inversion H; subst; eauto. Qed.

Lemma bol_elim : forall s s', matches RBol s s' -> pos s = 0 /\ s' = s.
Proof. intros s s' H; inversion H; subst; auto. Qed.

Lemma eol_elim : forall s s', matches REol s s' -> rest s = [] /\ s' = s.
Proof. intros s s' H; inversion H; subst; auto. Qed.

Lemma eps_elim : forall s s', matches REps s s' -> s' = s.
Proof. intros s s' H; inversion H; subst; auto. Qed.

Lemma class_elim : forall p s s',
  matches (RClass p) s s' ->
  exists c t, p c = true /\ rest s = c :: t /\ s' = MState (pos s + 1) t (caps s).
Proof.
  intros p s s' H; inversion H; subst.
  exists c, t; repeat split; auto.
  apply mstate_eq; simpl; auto; lia.
Qed.

Lemma class_intro : forall p s c t,
  p c = true -> rest s = c :: t ->
  matches (RClass p) s (MState (pos s + 1) t (caps s)).
Proof.
  intros p s c t Hp Hr.
  replace (MState (pos s + 1) t (caps s)) with (advance s t)
    by (apply mstate_eq; simpl; auto; lia).
  econstructor; eauto.
Qed.

Lemma chr_elim : forall a s s',
  matches (chr a) s s' ->
  exists t, rest s = cu a :: t /\ s' = MState (pos s + 1) t (caps s).
Proof.
  intros a s s' H. apply class_elim in H. destruct H as (c & t & Hp & Hr & Hs).
  apply N.eqb_eq in Hp. subst c. eauto.
Qed.

Lemma chr_intro : forall a s t,
  rest s = cu a :: t -> matches (chr a) s (MState (pos s + 1) t (caps s)).
Proof. intros a s t H. eapply class_intro; eauto. apply N.eqb_refl. Qed.

(** A literal consumes exactly its own code units. *)
Lemma lit_list_elim : forall l s s',
  matches (lit_list l) s s' ->
  exists t, rest s = map cu l ++ t /\ s' = MState (pos s + length l) t (caps s).
Proof.
  induction l as [|a l IH]; intros s s' H.
  - inversion H; subst. exists (rest s'); split; [reflexivity|].
    apply mstate_eq; simpl; auto; lia.
  - destruct l as [|b l].
    + apply chr_elim in H. destruct H as (t & Hr & Hs). exists t; split; auto.
    + change (lit_list (a :: b :: l)) with (RSeq (chr a) (lit_list (b :: l))) in H.
      apply seq_elim in H. destruct H as (s1 & H3 & H5).
      apply chr_elim in H3. destruct H3 as (t1 & Hr1 & Hs1).
      apply IH in H5. destruct H5 as (t & Hr & Hs). subst s1. simpl in Hr, Hs.
      exists t; split; [simpl; rewrite Hr1, Hr; reflexivity|].
      rewrite Hs. apply mstate_eq; simpl; auto; lia.
Qed.

Lemma lit_list_intro : forall l s t,
  rest s = map cu l ++ t ->
  matches (lit_list l) s (MState (pos s + length l) t (caps s)).
Proof.
  induction l as [|a l IH]; intros s t H.
  - simpl in *. replace (MState (pos s + 0) t (caps s)) with s
      by (apply mstate_eq; simpl; auto; lia). constructor.
  - destruct l as [|b l].
    + simpl in *. apply chr_intro; assumption.
    + change (lit_list (a :: b :: l)) with (RSeq (chr a) (lit_list (b :: l))).
      simpl in H.
      eapply M_seq; [apply chr_intro; eassumption|].
      replace (MState (pos s + length (a :: b :: l)) t (caps s))
        with (MState (pos (MState (pos s + 1) (cu b :: map cu l ++ t) (caps s))
                      + length (b :: l)) t
                     (caps (MState (pos s + 1) (cu b :: map cu l ++ t) (caps s))))
        by (apply mstate_eq; simpl; auto; lia).
      apply IH. reflexivity.
Qed.

Lemma js_length : forall w, length (js w) = length (list_ascii_of_string w).
Proof. intros w; unfold js; apply length_map. Qed.

Lemma lit_elim : forall w s s',
  matches (lit w) s s' ->
  exists t, rest s = js w ++ t /\ s' = MState (pos s + length (js w)) t (caps s).
Proof.
  intros w s s' H. apply lit_list_elim in H. destruct H as (t & Hr & Hs).
  exists t; split; [exact Hr | rewrite js_length; exact Hs].
Qed.

Lemma lit_intro : forall w s t,
  rest s = js w ++ t ->
  matches (lit w) s (MState (pos s + length (js w)) t (caps s)).
Proof.
  intros w s t H. rewrite js_length. apply lit_list_intro. exact H.
Qed.

Lemma alts_elim : forall l s s',
  matches (alts l) s s' -> exists r, In r l /\ matches r s s'.
Proof.
  induction l as [|a l IH]; intros s s' H.
  - simpl in H. inversion H; subst. discriminate.
  - destruct l as [|b l].
    + exists a; split; [left; reflexivity | assumption].
    + change (alts (a :: b :: l)) with (RAlt a (alts (b :: l))) in H.
      apply alt_elim in H. destruct H as [H|H3].
      * exists a; split; [left; reflexivity | assumption].
      * apply IH in H3. destruct H3 as (r & Hin & Hm).
        exists r; split; [right; assumption | assumption].
Qed.

Lemma alts_intro : forall l r s s',
  In r l -> matches r s s' -> matches (alts l) s s'.
Proof.
  induction l as [|a l IH]; intros r s s' Hin Hm; [destruct Hin|].
  destruct l as [|b l].
  - destruct Hin as [->|[]]. assumption.
  - change (alts (a :: b :: l)) with (RAlt a (alts (b :: l))).
    destruct Hin as [->|Hin]; [apply M_alt_l; assumption|].
    apply M_alt_r. eapply IH; eauto.
Qed.

Lemma words_elim : forall l s s',
  matches (words l) s s' ->
  exists w t, In w l /\ rest s = js w ++ t /\
              s' = MState (pos s + length (js w)) t (caps s).
Proof.
  intros l s s' H. apply alts_elim in H. destruct H as (r & Hin & Hm).
  apply in_map_iff in Hin. destruct Hin as (w & <- & Hw).
  apply lit_elim in Hm. destruct Hm as (t & Hr & Hs). eauto.
Qed.

Lemma words_intro : forall l w s t,
  In w l -> rest s = js w ++ t ->
  matches (words l) s (MState (pos s + length (js w)) t (caps s)).
Proof.
  intros l w s t Hin Hr. eapply alts_intro.
  - apply in_map. exact Hin.
  - apply lit_intro. exact Hr.
Qed.

(** A star over a class consumes a run of code units of the class. *)
Lemma star_class_elim : forall p s s',
  matches (RStar (RClass p)) s s' ->
  exists w t, forallb p w = true /\ rest s = w ++ t /\
              s' = MState (pos s + length w) t (caps s).
Proof.
  intros p s s' H. remember (RStar (RClass p)) as r eqn:E.
  induction H; inversion E; subst.
  - exists [], (rest s); repeat split. apply mstate_eq; simpl; auto; lia.
  - clear IHmatches1. specialize (IHmatches2 eq_refl).
    apply class_elim in H. destruct H as (c & t1 & Hp & Hr & Hs). subst s1.
    destruct IHmatches2 as (w & t & Hw & Hr2 & Hs2). simpl in *.
    exists (c :: w), t; repeat split.
    + simpl. rewrite Hp, Hw. reflexivity.
    + rewrite Hr, Hr2. reflexivity.
    + rewrite Hs2. apply mstate_eq; simpl; auto; lia.
Qed.

Lemma star_class_intro : forall p w s t,
  forallb p w = true -> rest s = w ++ t ->
  matches (RStar (RClass p)) s (MState (pos s + length w) t (caps s)).
Proof.
  induction w as [|c w IH]; intros s t Hw Hr.
  - simpl in *. replace (MState (pos s + 0) t (caps s)) with s
      by (apply mstate_eq; simpl; auto; lia). constructor.
  - simpl in Hw. apply andb_true_iff in Hw. destruct Hw as [Hc Hw]. simpl in Hr.
    eapply M_star_step.
    + eapply class_intro; eauto.
    + simpl. rewrite Hr. simpl. lia.
    + replace (MState (pos s + length (c :: w)) t (caps s))
        with (MState (pos (MState (pos s + 1) (w ++ t) (caps s)) + length w) t
                     (caps (MState (pos s + 1) (w ++ t) (caps s))))
        by (apply mstate_eq; simpl; auto; lia).
      apply IH; auto.
Qed.

Lemma plus_class_elim : forall p s s',
  matches (plus (RClass p)) s s' ->
  exists w t, w <> [] /\ forallb p w = true /\ rest s = w ++ t /\
              s' = MState (pos s + length w) t (caps s).
Proof.
  intros p s s' H. unfold plus in H. apply seq_elim in H. destruct H as (s1 & H3 & H5).
  apply class_elim in H3. destruct H3 as (c & t1 & Hp & Hr & Hs). subst s1.
  apply star_class_elim in H5. destruct H5 as (w & t & Hw & Hr2 & Hs2). simpl in *.
  exists (c :: w), t; repeat split.
  - discriminate.
  - simpl. rewrite Hp, Hw. reflexivity.
  - rewrite Hr, Hr2. reflexivity.
  - rewrite Hs2. apply mstate_eq; simpl; auto; lia.
Qed.

Lemma plus_class_intro : forall p w s t,
  w <> [] -> forallb p w = true -> rest s = w ++ t ->
  matches (plus (RClass p)) s (MState (pos s + length w) t (caps s)).
Proof.
  intros p [|c w] s t Hn Hw Hr; [congruence|].
  simpl in Hw. apply andb_true_iff in Hw. destruct Hw as [Hc Hw]. simpl in Hr.
  unfold plus. eapply M_seq.
  - eapply class_intro; eauto.
  - replace (MState (pos s + length (c :: w)) t (caps s))
      with (MState (pos (MState (pos s + 1) (w ++ t) (caps s)) + length w) t
                   (caps (MState (pos s + 1) (w ++ t) (caps s))))
      by (apply mstate_eq; simpl; auto; lia).
    apply star_class_intro; auto.
Qed.

Lemma opt_elim : forall a s s',
  matches (opt a) s s' -> matches a s s' \/ s' = s.
Proof.
  intros a s s' H. unfold opt in H. apply alt_elim in H.
  destruct H as [H|H]; [left; assumption|].
  apply eps_elim in H. right; assumption.
Qed.

End BlockFacts.
Import BlockFacts.

Module PatternMatcherFacts.

Lemma match_from_no_match : forall rules P v,
  Forall (fun r => rule_matches r P = false) rules ->
  match_from v rules P = v.
Proof.
  induction rules as [|r rules IH]; intros P v H; simpl; [reflexivity|].
  inversion H; subst. rewrite H2. apply IH; assumption.
Qed.

Lemma match_from_app : forall before rules P v,
  match_from v (before ++ rules) P = match_from (match_from v before P) rules P.
Proof.
  induction before as [|r before IH]; intros rules P v; simpl; [reflexivity|].
  destruct (rule_matches r P); apply IH.
Qed.

Lemma match_from_last : forall R P r v,
  last_matching R P r ->
  match_from v R P =
  if negated r then Build_MatchResult false None
  else Build_MatchResult true (Some (rule_text r)).
Proof.
  intros R P r v (before & after & -> & Hm & Hafter).
  rewrite match_from_app. simpl. rewrite Hm.
  apply match_from_no_match; assumption.
Qed.

(** C6. For every ordered rule set R and path P, the verdict of [match_path]
    is not-blocked when the last rule of R, in file order, that matches P is a
    negation; it is blocked, with that rule as the deciding one, when the last
    matching rule is a plain rule; and it is not-blocked when no rule of R
    matches P. *)
Theorem last_matching_rule_decides : forall (R : list PatternRule) (P : jstring),
  (forall r, last_matching R P r -> negated r = true ->
     mr_blocked (match_path R P) = false) /\
  (forall r, last_matching R P r -> negated r = false ->
     mr_blocked (match_path R P) = true /\
     mr_pattern (match_path R P) = Some (rule_text r)) /\
  (Forall (fun r => rule_matches r P = false) R ->
     mr_blocked (match_path R P) = false).
Proof.
  intros R P; repeat split.
  - intros r Hl Hn. unfold match_path. rewrite (match_from_last _ _ _ _ Hl), Hn. reflexivity.
  - unfold match_path. rewrite (match_from_last _ _ _ _ H), H0. reflexivity.
  - unfold match_path. rewrite (match_from_last _ _ _ _ H), H0. reflexivity.
  - intros H. unfold match_path. rewrite match_from_no_match by assumption. reflexivity.
Qed.

(** The rule set above on three paths: a negation last, a plain rule last,
    and no rule at all. *)
Lemma last_matching_rule_decides_witness :
  mr_blocked (match_path sample_rules (js "dist/keep/a.js")) = false /\
  (mr_blocked (match_path sample_rules (js "../../etc/secrets")) = true /\
   mr_pattern (match_path sample_rules (js "../../etc/secrets")) = Some (js "**/etc/**")) /\
  mr_blocked (match_path sample_rules (js "src/main.js")) = false.
Proof.
  destruct (last_matching_rule_decides sample_rules (js "dist/keep/a.js")) as [Hneg _].
  destruct (last_matching_rule_decides sample_rules (js "../../etc/secrets")) as [_ [Hplain _]].
  destruct (last_matching_rule_decides sample_rules (js "src/main.js")) as [_ [_ Hnone]].
  split; [|split].
  - apply (Hneg (Build_PatternRule (js "!dist/keep") true (js "dist/keep"))).
    + exists [Build_PatternRule (js "dist") false (js "dist");
              Build_PatternRule (js "**/etc/**") false (js "**/etc/**")], [].
      repeat split; constructor.
    + reflexivity.
  - apply (Hplain (Build_PatternRule (js "**/etc/**") false (js "**/etc/**"))).
    + exists [Build_PatternRule (js "dist") false (js "dist")],
             [Build_PatternRule (js "!dist/keep") true (js "dist/keep")].
      repeat split. constructor; [reflexivity | constructor].
    + reflexivity.
  - apply Hnone. repeat constructor.
Defined.

End PatternMatcherFacts.
Import PatternMatcherFacts.

Module HookFacts.

(** C2, as the hook has it. With the hook switched on, an input that is not
    JSON, or that is JSON without a [tool_input] object, ends the hook with
    exit code 0 (allowed); an input that is empty or only white space ends
    it with exit code 2 (blocked). With the hook switched off every input
    ends it with exit code 0. The hook always ends with an exit code. *)
Theorem malformed_input_exit_code : forall (M : ScoutBlock) (H : Host) (hookInput : jstring),
  (isHookEnabled H (js "scout-block") = false ->
     scout_block M H hookInput = EXIT_ALLOWED) /\
  (isHookEnabled H (js "scout-block") = true ->
     (blank hookInput = true -> scout_block M H hookInput = EXIT_BLOCKED) /\
     (blank hookInput = false -> JSON_parse H hookInput = None ->
        scout_block M H hookInput = EXIT_ALLOWED) /\
     (forall data, blank hookInput = false -> JSON_parse H hookInput = Some data ->
        has_tool_input_object data = false ->
        scout_block M H hookInput = EXIT_ALLOWED)).
Proof.
  intros M H hookInput; split.
  - intros E. unfold scout_block. rewrite E. reflexivity.
  - intros E. unfold scout_block, blank. rewrite E. simpl. repeat split.
    + intros B. rewrite B. reflexivity.
    + intros B P. rewrite B, P. reflexivity.
    + intros data B P T. rewrite B, P. unfold has_tool_input_object in T.
      destruct (get data "tool_input") as [ti|]; [|reflexivity].
      destruct (get data "tool_name") as [tn|]; [|reflexivity].
      destruct (truthy ti); simpl in *; [|reflexivity].
      destruct (typeof_object ti); simpl in *; [discriminate|reflexivity].
Qed.

(** The hook of the model instance on four inputs: text that is not JSON,
    JSON null, an empty JSON object, and white space. *)
Lemma malformed_input_exit_code_witness :
  scout_block SpecModel.modules SpecModel.host (js "not json") = EXIT_ALLOWED /\
  scout_block SpecModel.modules SpecModel.host (js "null") = EXIT_ALLOWED /\
  scout_block SpecModel.modules SpecModel.host (js "{}") = EXIT_ALLOWED /\
  scout_block SpecModel.modules SpecModel.host (js "  ") = EXIT_BLOCKED.
Proof.
  pose proof (malformed_input_exit_code SpecModel.modules SpecModel.host) as T.
  split; [|split; [|split]].
  - destruct (T (js "not json")) as [_ T1]. apply T1; reflexivity.
  - destruct (T (js "null")) as [_ T1].
    destruct (T1 eq_refl) as [_ [_ T2]]. apply (T2 JNull); reflexivity.
  - destruct (T (js "{}")) as [_ T1].
    destruct (T1 eq_refl) as [_ [_ T2]]. apply (T2 (JObj [])); reflexivity.
  - destruct (T (js "  ")) as [_ T1]. apply T1; reflexivity.
Defined.

(** C2 fails on the empty input: the hook ends with exit code 2. *)
Lemma empty_input_is_blocked :
  scout_block SpecModel.modules SpecModel.host [] = 2.
Proof. reflexivity. Qed.

End HookFacts.
Import HookFacts.

Module NormalizeFacts.

Lemma is_empty_false : forall s : jstring, is_empty s = false -> s <> [].
Proof. intros [|c t] H; [discriminate | discriminate]. Qed.

Lemma stripCommandPrefix_nonempty : forall c,
  is_empty c = false ->
  stripCommandPrefix c =
  trim (replace_empty ENV_ASSIGNMENTS
          (replace_empty COMMAND_WRAPPER
             (replace_empty ENV_ASSIGNMENTS (trim c)))).
Proof. intros c H; unfold stripCommandPrefix; rewrite H; reflexivity. Qed.

(** The result of [stripCommandPrefix] is trimmed. *)
Lemma stripCommandPrefix_trimmed : forall c,
  trim (stripCommandPrefix c) = stripCommandPrefix c.
Proof.
  intros c. destruct (is_empty c) eqn:E.
  - destruct c; [reflexivity | discriminate].
  - rewrite stripCommandPrefix_nonempty by assumption. apply trim_idem.
Qed.

Lemma stripCommandPrefix_length : forall c,
  length (stripCommandPrefix c) <= length (trim c) \/ c = [].
Proof.
  intros c. destruct (is_empty c) eqn:E.
  - right; destruct c; [reflexivity | discriminate].
  - left. rewrite stripCommandPrefix_nonempty by assumption.
    pose proof (trim_length (replace_empty ENV_ASSIGNMENTS
          (replace_empty COMMAND_WRAPPER
             (replace_empty ENV_ASSIGNMENTS (trim c))))).
    pose proof (replace_empty_le ENV_ASSIGNMENTS
          (replace_empty COMMAND_WRAPPER
             (replace_empty ENV_ASSIGNMENTS (trim c)))).
    pose proof (replace_empty_le COMMAND_WRAPPER
             (replace_empty ENV_ASSIGNMENTS (trim c))).
    pose proof (replace_empty_le ENV_ASSIGNMENTS (trim c)).
    lia.
Qed.

(** A trimmed command without a strippable prefix is a fixed point. *)
Lemma strip_fixed : forall y,
  trim y = y -> has_strippable_prefix y = false -> stripCommandPrefix y = y.
Proof.
  intros y T H. apply orb_false_iff in H. destruct H as [He Hw].
  destruct (is_empty y) eqn:E.
  - destruct y; [reflexivity | discriminate].
  - rewrite stripCommandPrefix_nonempty by assumption. rewrite T.
    rewrite (replace_empty_no_match _ _ He), (replace_empty_no_match _ _ Hw),
      (replace_empty_no_match _ _ He). assumption.
Qed.

(** A trimmed command with a strippable prefix gets shorter. *)
Lemma strip_shorter : forall y,
  trim y = y -> has_strippable_prefix y = true ->
  length (stripCommandPrefix y) < length y.
Proof.
  intros y T H.
  destruct (is_empty y) eqn:E.
  - destruct y; [discriminate H | discriminate E].
  - rewrite stripCommandPrefix_nonempty by assumption. rewrite T.
    set (y1 := replace_empty ENV_ASSIGNMENTS y).
    set (y2 := replace_empty COMMAND_WRAPPER y1).
    set (y3 := replace_empty ENV_ASSIGNMENTS y2).
    pose proof (trim_length y3) as L4.
    pose proof (replace_empty_le ENV_ASSIGNMENTS y2) as L3. fold y3 in L3.
    pose proof (replace_empty_le COMMAND_WRAPPER y1) as L2. fold y2 in L2.
    pose proof (replace_empty_le ENV_ASSIGNMENTS y) as L1. fold y1 in L1.
    destruct (test ENV_ASSIGNMENTS y) eqn:Te.
    + assert (length y1 < length y).
      { apply replace_empty_shorter; [assumption | cbv; lia]. }
      lia.
    + unfold has_strippable_prefix in H. rewrite Te in H. simpl in H.
      assert (Hy1 : y1 = y) by (apply replace_empty_no_match; assumption).
      assert (length y2 < length y1).
      { unfold y2. rewrite Hy1. apply replace_empty_shorter; [assumption | cbv; lia]. }
      lia.
Qed.

(** C3, as the code has it. Applying [stripCommandPrefix] to its own result
    changes nothing exactly when that result no longer starts with an
    environment assignment or with a wrapper followed by white space: one
    application strips one level of wrapper only. *)
Theorem normalize_idempotent_iff : forall c : jstring,
  stripCommandPrefix (stripCommandPrefix c) = stripCommandPrefix c <->
  has_strippable_prefix (stripCommandPrefix c) = false.
Proof.
  intros c. pose proof (stripCommandPrefix_trimmed c) as T.
  split.
  - intros H. destruct (has_strippable_prefix (stripCommandPrefix c)) eqn:S; [|reflexivity].
    pose proof (strip_shorter _ T S) as L. rewrite H in L. lia.
  - intros H. apply strip_fixed; assumption.
Qed.

(** Two runs of the theorem: a command that is a fixed point after one
    application, and its reading on a command that is not. *)
Lemma normalize_idempotent_iff_witness :
  stripCommandPrefix (stripCommandPrefix (js "NODE_ENV=production sudo npm run build"))
  = stripCommandPrefix (js "NODE_ENV=production sudo npm run build").
Proof.
  apply (proj2 (normalize_idempotent_iff (js "NODE_ENV=production sudo npm run build"))).
  vm_compute. reflexivity.
Defined.

(** C3 fails on a doubled wrapper: the first application strips one
    [sudo], the second strips the other. *)
Lemma normalize_not_idempotent :
  stripCommandPrefix (js "sudo sudo ls") = js "sudo ls" /\
  stripCommandPrefix (stripCommandPrefix (js "sudo sudo ls")) = js "ls".
Proof. split; vm_compute; reflexivity. Qed.

End NormalizeFacts.
Import NormalizeFacts.

Module ExecutorFacts.

Lemma drop_while_spaces_app : forall ws c r,
  forallb is_space ws = true -> is_space c = false ->
  drop_while is_space (ws ++ c :: r) = c :: r.
Proof.
  induction ws as [|x ws IH]; intros c r Hw Hc; simpl.
  - rewrite Hc; reflexivity.
  - simpl in Hw. apply andb_true_iff in Hw. destruct Hw as [Hx Hw].
    rewrite Hx. apply IH; assumption.
Qed.

Lemma strip_spaces_app : forall ws c r,
  ws <> [] -> forallb is_space ws = true -> is_space c = false ->
  strip_spaces (ws ++ c :: r) = Some (c :: r).
Proof.
  intros [|x ws] c r Hn Hw Hc; [congruence|].
  simpl in Hw. apply andb_true_iff in Hw. destruct Hw as [Hx Hw].
  simpl. rewrite Hx. rewrite drop_while_spaces_app; auto.
Qed.

Lemma strip_prefix_app : forall w r, strip_prefix w (w ++ r) = Some r.
Proof.
  induction w as [|a w IH]; intros r; simpl; [reflexivity|].
  rewrite N.eqb_refl. apply IH.
Qed.

Lemma is_quote_not_space : forall q, is_quote q = true -> is_space q = false.
Proof.
  intros q H. unfold is_quote in H. apply orb_true_iff in H.
  destruct H as [H|H]; apply N.eqb_eq in H; subst; reflexivity.
Qed.

(** The head of an invocation is read off the text in one way only. *)
Lemma after_executor_head : forall e ws c r,
  executor_prefix e -> ws <> [] -> forallb is_space ws = true ->
  is_space c = false ->
  after_executor (e ++ ws ++ c :: r) = Some (c :: r).
Proof.
  intros e ws c r He Hn Hw Hc. destruct He as [sh ws' Hin Hn' Hw'|].
  - assert (A : after_shell sh ((js sh ++ ws' ++ js "-c") ++ ws ++ c :: r)
                = Some (c :: r)).
    { unfold after_shell. rewrite <- !app_assoc. rewrite strip_prefix_app.
      change (js "-c" ++ ws ++ c :: r) with (45%N :: (99%N :: ws ++ c :: r)).
      rewrite strip_spaces_app by (auto; reflexivity).
      change (45%N :: 99%N :: ws ++ c :: r) with (js "-c" ++ (ws ++ c :: r)).
      rewrite strip_prefix_app. apply strip_spaces_app; assumption. }
    simpl in Hin. destruct Hin as [<-|[<-|[<-|[]]]]; unfold after_executor.
    + rewrite A. reflexivity.
    + rewrite A. reflexivity.
    + rewrite A. reflexivity.
  - unfold after_executor. simpl. apply strip_spaces_app; assumption.
Qed.

Lemma wraps_after_executor : forall t inner,
  wraps t inner ->
  exists q1 q2, after_executor t = Some (q1 :: inner ++ [q2]).
Proof.
  intros t inner (e & ws & q1 & q2 & He & Hn & Hw & Hq1 & Hq2 & _ & _ & ->).
  exists q1, q2. simpl. apply after_executor_head; auto.
  apply is_quote_not_space; assumption.
Qed.

(** A text wraps at most one body. *)
Lemma wraps_unique : forall t i1 i2, wraps t i1 -> wraps t i2 -> i1 = i2.
Proof.
  intros t i1 i2 H1 H2.
  apply wraps_after_executor in H1. destruct H1 as (q1 & q2 & E1).
  apply wraps_after_executor in H2. destruct H2 as (q1' & q2' & E2).
  rewrite E1 in E2. inversion E2. apply app_inj_tail in H1. tauto.
Qed.

Lemma trim_end_last : forall y l x, trim_end y = l ++ [x] -> is_space x = false.
Proof.
  intros y l x H. unfold trim_end in H.
  apply (f_equal (@rev N)) in H. rewrite rev_involutive, rev_app_distr in H.
  simpl in H. remember (rev y) as z. clear Heqz.
  induction z as [|c z IH]; simpl in H; [discriminate|].
  destruct (is_space c) eqn:E; [auto|]. inversion H; subst; assumption.
Qed.

(** A trimmed text does not end with white space. *)
Lemma trim_no_trailing : forall c a ws,
  trim c = a ++ ws -> forallb is_space ws = true -> ws = [].
Proof.
  intros c a ws H Hw. destruct ws as [|w0 ws0]; [reflexivity|]. exfalso.
  destruct (@exists_last _ (w0 :: ws0)) as (l & x & E); [discriminate|].
  rewrite E in H, Hw. unfold trim in H.
  rewrite app_assoc in H. apply trim_end_last in H.
  rewrite forallb_app in Hw. apply andb_true_iff in Hw. destruct Hw as [_ Hx].
  simpl in Hx. rewrite H in Hx. discriminate.
Qed.

Lemma executor_head_elim : forall s s',
  matches (RAlt (RSeq (words ["bash"; "sh"; "zsh"]) (RSeq (plus space) (lit "-c")))
                (lit "eval")) s s' ->
  exists e t, executor_prefix e /\ rest s = e ++ t /\
              s' = MState (pos s + length e) t (caps s).
Proof.
  intros s s' H. apply alt_elim in H. destruct H as [H|H].
  - apply seq_elim in H. destruct H as (s1 & H1 & H).
    apply seq_elim in H. destruct H as (s2 & H2 & H3).
    apply words_elim in H1. destruct H1 as (sh & t1 & Hin & Hr1 & ->).
    apply plus_class_elim in H2. destruct H2 as (ws & t2 & Hn & Hw & Hr2 & ->).
    apply lit_elim in H3. destruct H3 as (t3 & Hr3 & ->). simpl in *.
    exists (js sh ++ ws ++ js "-c"), t3; repeat split.
    + constructor; assumption.
    + rewrite Hr1, Hr2, Hr3. rewrite <- !app_assoc. reflexivity.
    + apply mstate_eq; simpl; auto. rewrite !length_app. simpl. lia.
  - apply lit_elim in H. destruct H as (t & Hr & ->).
    exists (js "eval"), t; repeat split; [constructor | assumption].
Qed.

Lemma executor_head_intro : forall e s t,
  executor_prefix e -> rest s = e ++ t ->
  matches (RAlt (RSeq (words ["bash"; "sh"; "zsh"]) (RSeq (plus space) (lit "-c")))
                (lit "eval")) s (MState (pos s + length e) t (caps s)).
Proof.
  intros e s t He Hr. destruct He as [sh ws Hin Hn Hw|].
  - apply M_alt_l. rewrite <- !app_assoc in Hr.
    eapply M_seq; [apply (words_intro _ sh _ _ Hin Hr)|].
    eapply M_seq; [apply plus_class_intro with (w := ws); eauto; reflexivity|].
    simpl.
    replace (MState (pos s + length (js sh ++ ws ++ js "-c")) t (caps s))
      with (MState (pos (MState (pos s + length (js sh) + length ws) (js "-c" ++ t) (caps s))
                    + length (js "-c")) t
                   (caps (MState (pos s + length (js sh) + length ws) (js "-c" ++ t) (caps s))))
      by (apply mstate_eq; simpl; auto; rewrite !length_app; simpl; lia).
    apply lit_intro. reflexivity.
  - apply M_alt_r. apply lit_intro. assumption.
Qed.

(** Every match of the executor pattern from the start of a text shows the
    shape of the text, and its first group is the body. *)
Lemma shell_executor_elim : forall t s',
  matches SHELL_EXECUTOR (start_at t 0) s' ->
  exists e ws q1 inner q2 ws2,
    executor_prefix e /\ ws <> [] /\ forallb is_space ws = true /\
    is_quote q1 = true /\ is_quote q2 = true /\ inner <> [] /\
    forallb (fun c => negb (is_line_terminator c)) inner = true /\
    forallb is_space ws2 = true /\
    t = e ++ ws ++ [q1] ++ inner ++ [q2] ++ ws2 /\
    lookup_cap 1 (caps s') = Some inner.
Proof.
  intros t s' H. cbv [SHELL_EXECUTOR seqs] in H.
  apply seq_elim in H. destruct H as (s0 & H0 & H). apply bol_elim in H0. destruct H0 as [_ ->].
  apply seq_elim in H. destruct H as (s1 & H1 & H).
  apply executor_head_elim in H1. destruct H1 as (e & t1 & He & Hr1 & ->).
  apply seq_elim in H. destruct H as (s2 & H2 & H).
  apply plus_class_elim in H2. destruct H2 as (ws & t2 & Hn & Hw & Hr2 & ->).
  apply seq_elim in H. destruct H as (s3 & H3 & H).
  apply class_elim in H3. destruct H3 as (q1 & t3 & Hq1 & Hr3 & ->).
  apply seq_elim in H. destruct H as (s4 & H4 & H).
  apply group_elim in H4. destruct H4 as (s4' & H4 & ->).
  apply plus_class_elim in H4. destruct H4 as (inner & t4 & Hi & Hd & Hr4 & ->).
  apply seq_elim in H. destruct H as (s5 & H5 & H).
  apply class_elim in H5. destruct H5 as (q2 & t5 & Hq2 & Hr5 & ->).
  apply seq_elim in H. destruct H as (s6 & H6 & H).
  apply star_class_elim in H6. destruct H6 as (ws2 & t6 & Hw2 & Hr6 & ->).
  apply eol_elim in H. destruct H as [Hr7 ->].
  simpl in *. subst t6.
  exists e, ws, q1, inner, q2, ws2. repeat split; auto.
  - rewrite Hr1, Hr2, Hr3, Hr4, Hr5, Hr6. rewrite app_nil_r. reflexivity.
  - replace (length e + length ws + 1 + length inner
             - (length e + length ws + 1)) with (length inner + 0) by lia.
    rewrite Hr4, firstn_app_2. simpl. rewrite app_nil_r. reflexivity.
Qed.

Lemma shell_executor_intro : forall t inner,
  wraps t inner -> exists s', matches SHELL_EXECUTOR (start_at t 0) s'.
Proof.
  intros t inner (e & ws & q1 & q2 & He & Hn & Hw & Hq1 & Hq2 & Hi & Hd & ->).
  eexists. cbv [SHELL_EXECUTOR seqs].
  eapply M_seq; [apply M_bol; reflexivity|].
  eapply M_seq; [apply executor_head_intro with (e := e); [exact He | reflexivity]|].
  eapply M_seq; [apply plus_class_intro with (w := ws); [exact Hn | exact Hw | reflexivity]|].
  eapply M_seq; [apply class_intro with (c := q1); [exact Hq1 | reflexivity]|].
  eapply M_seq; [apply M_group; apply plus_class_intro with (w := inner);
                 [exact Hi | exact Hd | reflexivity]|].
  eapply M_seq; [apply class_intro with (c := q2); [exact Hq2 | reflexivity]|].
  eapply M_seq; [apply M_star_stop|].
  apply M_eol. reflexivity.
Qed.

(** What [unwrapShellExecutor] does on a text that wraps a body. *)
Lemma unwrap_wraps : forall c inner,
  wraps (trim c) inner -> unwrapShellExecutor c = inner.
Proof.
  intros c inner W. unfold unwrapShellExecutor.
  destruct (is_empty c) eqn:E.
  { destruct c; [|discriminate]. destruct W as (e & ws & q1 & q2 & He & _ & _ & _ & _ & _ & _ & Ht).
    exfalso. change (trim []) with (@nil N) in Ht.
    destruct He; simpl in Ht; try discriminate.
    simpl in H. destruct H as [<-|[<-|[<-|[]]]]; discriminate. }
  destruct (shell_executor_intro _ _ W) as [s' Hm].
  apply exec_at_complete in Hm. destruct Hm as [s2 H2].
  unfold match_group, exec.
  assert (S : search_from SHELL_EXECUTOR (trim c) 0 (length (trim c)) = Some (0, s2)).
  { destruct (length (trim c)); simpl; rewrite H2; reflexivity. }
  rewrite S. apply exec_at_sound in H2. apply shell_executor_elim in H2.
  destruct H2 as (e & ws & q1 & inner2 & q2 & ws2 & He & Hn & Hw & Hq1 & Hq2 & Hi & Hd & Hw2 & Ht & Hc).
  rewrite Hc.
  assert (ws2 = []).
  { apply (trim_no_trailing c (e ++ ws ++ [q1] ++ inner2 ++ [q2]) ws2); [|assumption].
    rewrite Ht. rewrite <- !app_assoc. reflexivity. }
  subst ws2. rewrite app_nil_r in Ht.
  apply (wraps_unique (trim c)); [|assumption].
  exists e, ws, q1, q2. repeat split; auto.
Qed.

(** What it does on every other text. *)
Lemma unwrap_other : forall c,
  (forall inner, ~ wraps (trim c) inner) -> unwrapShellExecutor c = c.
Proof.
  intros c W. unfold unwrapShellExecutor.
  destruct (is_empty c); [reflexivity|].
  unfold match_group.
  destruct (exec SHELL_EXECUTOR (trim c)) as [[i s']|] eqn:E; [|reflexivity].
  exfalso. pose proof (exec_anchored SHELL_EXECUTOR _ _ _ eq_refl E) as ->.
  unfold exec in E. apply search_from_some in E. destruct E as [_ [E _]].
  apply exec_at_sound in E. apply shell_executor_elim in E.
  destruct E as (e & ws & q1 & inner & q2 & ws2 & He & Hn & Hw & Hq1 & Hq2 & Hi & Hd & Hw2 & Ht & Hc).
  assert (ws2 = []).
  { apply (trim_no_trailing c (e ++ ws ++ [q1] ++ inner ++ [q2]) ws2); [|assumption].
    rewrite Ht. rewrite <- !app_assoc. reflexivity. }
  subst ws2. rewrite app_nil_r in Ht.
  apply (W inner). exists e, ws, q1, q2. repeat split; auto.
Qed.

(** The body found is never empty, so a command stays a command. *)
Lemma unwrap_nonempty : forall c, c <> [] -> unwrapShellExecutor c <> [].
Proof.
  intros c Hc. unfold unwrapShellExecutor.
  destruct (is_empty c); [assumption|].
  unfold match_group.
  destruct (exec SHELL_EXECUTOR (trim c)) as [[i s']|] eqn:E; [|assumption].
  pose proof (exec_anchored SHELL_EXECUTOR _ _ _ eq_refl E) as ->.
  unfold exec in E. apply search_from_some in E. destruct E as [_ [E _]].
  apply exec_at_sound in E. apply shell_executor_elim in E.
  destruct E as (e & ws & q1 & inner & q2 & ws2 & He & Hn & Hw & Hq1 & Hq2 & Hi & Hd & Hw2 & Ht & Hcap).
  rewrite Hcap. assumption.
Qed.

(** C9, as the code has it. [unwrapShellExecutor] returns the body exactly
    when the trimmed input is an executor head (bash, sh or zsh with -c,
    or eval), white space, a quote character, a body that is not empty and
    holds no line terminator, and a quote character; the two quote
    characters need not be the same and the body may hold quote characters.
    Every other input is returned unchanged. One call removes one level:
    the body of a nested invocation is returned with its own executor. *)
Theorem unwrap_executor_shape : forall c : jstring,
  (forall inner, wraps (trim c) inner -> unwrapShellExecutor c = inner) /\
  ((forall inner, ~ wraps (trim c) inner) -> unwrapShellExecutor c = c) /\
  (unwrapShellExecutor nested_invocation = js "sh -c 'ls -la'" /\
   unwrapShellExecutor (unwrapShellExecutor nested_invocation) = js "ls -la").
Proof.
  intros c. split; [|split; [|split]].
  - apply unwrap_wraps.
  - apply unwrap_other.
  - vm_compute. reflexivity.
  - vm_compute. reflexivity.
Qed.

(** The theorem on an eval invocation and on a command that is none. *)
Lemma unwrap_executor_shape_witness :
  unwrapShellExecutor (js "  eval 'npm test'  ") = js "npm test" /\
  unwrapShellExecutor nl = nl.
Proof.
  split.
  - apply (proj1 (unwrap_executor_shape (js "  eval 'npm test'  "))).
    exists (js "eval"), (js " "), 39%N, 39%N.
    repeat split; try discriminate. constructor.
  - apply (proj1 (proj2 (unwrap_executor_shape nl))).
    intros inner W. apply wraps_after_executor in W.
    destruct W as (q1 & q2 & W). discriminate W.
Defined.

(** C9 fails on a body between two different quote characters: the text
    after the head is not a quoted string, and the body is returned all the
    same; and on a quoted string that holds a line break, which is returned
    with its executor. *)
Lemma unwrap_accepts_unpaired_quotes :
  unwrapExecutor_contract (js "eval " ++ dq ++ js "ls'") = js "eval " ++ dq ++ js "ls'" /\
  unwrapShellExecutor (js "eval " ++ dq ++ js "ls'") = js "ls" /\
  unwrapExecutor_contract (js "eval 'a" ++ nl ++ js "b'") = js "a" ++ nl ++ js "b" /\
  unwrapShellExecutor (js "eval 'a" ++ nl ++ js "b'") = js "eval 'a" ++ nl ++ js "b'".
Proof. repeat split; vm_compute; reflexivity. Qed.

End ExecutorFacts.
Import ExecutorFacts.

Module GuardFacts.

Lemma jstring_eqb_eq : forall a b, jstring_eqb a b = true <-> a = b.
Proof.
  induction a as [|x a IH]; intros [|y b]; simpl; split; intros H;
    try reflexivity; try discriminate.
  - apply andb_true_iff in H. destruct H as [H1 H2].
    apply N.eqb_eq in H1. apply IH in H2. subst; reflexivity.
  - inversion H; subst. rewrite N.eqb_refl. simpl. apply IH. reflexivity.
Qed.

Lemma jstring_eqb_refl : forall a, jstring_eqb a a = true.
Proof. intros a; apply jstring_eqb_eq; reflexivity. Qed.

Lemma lookup_set_same : forall k x fs, lookup_field k (set_field k x fs) = x.
Proof.
  induction fs as [|[k' v] fs IH]; simpl.
  - rewrite jstring_eqb_refl. reflexivity.
  - destruct (jstring_eqb k' k) eqn:E; simpl; rewrite E; [reflexivity | assumption].
Qed.

Lemma lookup_set_other : forall k k' x fs,
  jstring_eqb k k' = false ->
  lookup_field k' (set_field k x fs) = lookup_field k' fs.
Proof.
  induction fs as [|[k0 v] fs IH]; intros H; simpl.
  - destruct (jstring_eqb k k') eqn:E; [congruence | reflexivity].
  - destruct (jstring_eqb k0 k) eqn:E; simpl.
    + destruct (jstring_eqb k0 k') eqn:E'; [|reflexivity].
      apply jstring_eqb_eq in E, E'. subst.
      rewrite jstring_eqb_refl in H. discriminate.
    + destruct (jstring_eqb k0 k'); [reflexivity | apply IH; assumption].
Qed.


(** Only an object carries a truthy command. *)
Lemma truthy_command_object : forall toolInput k v,
  get toolInput k = Some v -> truthy v = true ->
  exists fs, toolInput = JObj fs /\ lookup_field (js k) fs = v.
Proof.
  intros toolInput k v G T. destruct toolInput; simpl in G;
    try discriminate; inversion G; subst; try discriminate.
  eauto.
Qed.

Lemma truthy_unwrap : forall command,
  truthy command = true -> truthy (unwrap_value command) = true.
Proof.
  intros [] T; simpl in *; auto.
  destruct s as [|c s]; [discriminate|].
  destruct (unwrapShellExecutor (c :: s)) eqn:E; [|reflexivity].
  exfalso. revert E. apply unwrap_nonempty. discriminate.
Qed.

Lemma differs_false : forall command,
  differs (unwrap_value command) command = false ->
  unwrap_value command = command.
Proof.
  intros [] D; simpl in *; auto.
  apply negb_false_iff in D. apply jstring_eqb_eq in D. rewrite D. reflexivity.
Qed.

(** After the unwrapping step the action carries the unwrapped command. *)
Lemma unwrap_step_command : forall toolInput command,
  get toolInput "command" = Some command -> truthy command = true ->
  get (unwrap_step toolInput command) "command" = Some (unwrap_value command).
Proof.
  intros toolInput command G T. unfold unwrap_step. rewrite T.
  destruct (differs (unwrap_value command) command) eqn:D.
  - destruct (truthy_command_object _ _ _ G T) as (fs & -> & L).
    simpl. rewrite lookup_set_same. reflexivity.
  - rewrite (differs_false _ D). assumption.
Qed.

Lemma filter_none : forall (A : Type) (f : A -> bool) l,
  (forall x, In x l -> f x = false) -> filter f l = [].
Proof.
  induction l as [|x l IH]; intros H; simpl; [reflexivity|].
  rewrite (H x (or_introl eq_refl)). apply IH. intros y Hy. apply H. right; assumption.
Qed.

(** The short circuit: no sub-command is left after classification. *)
Lemma short_circuit : forall M toolName toolInput options command,
  get toolInput "command" = Some command ->
  truthy command = true ->
  filter (fun cmd => negb (isAllowedCommand (trim cmd)))
         (split_value (unwrap_value command)) = [] ->
  checkScoutBlock M toolName toolInput options = Some (allowed_command, []).
Proof.
  intros M toolName toolInput options command G T F.
  unfold checkScoutBlock. rewrite G.
  rewrite (unwrap_step_command _ _ G T).
  rewrite (truthy_unwrap _ T). rewrite F. reflexivity.
Qed.

(** C5. When the action carries a command (a truthy value, so not the
    empty string) and every sub-command of the command, split after
    unwrapping, classifies as allowed, the decision is the object
    [{ blocked: false, isAllowedCommand: true }]: not blocked, with the
    recognized-tooling flag set and no other key; and no call is made to
    the breadth check, to rule loading, to path extraction or to the
    matcher. *)
Theorem all_allowed_short_circuit :
  forall (M : ScoutBlock) (toolName toolInput : value) (options : Options)
         (command : value),
  get toolInput "command" = Some command ->
  truthy command = true ->
  (forall sub, In sub (split_value (unwrap_value command)) ->
               isAllowedCommand (trim sub) = true) ->
  checkScoutBlock M toolName toolInput options
  = Some ({| blocked := false; path := None; pattern := None; reason := None;
             isBroadPattern := None; suggestions := None;
             isAllowedCommand_flag := Some true |}, []).
Proof.
  intros M toolName toolInput options command G T A.
  rewrite (short_circuit M toolName toolInput options command G T).
  - reflexivity.
  - apply filter_none. intros x Hx. rewrite (A x Hx). reflexivity.
Qed.

(** The guard on the command of the contract: two package-manager calls. *)
Lemma all_allowed_short_circuit_witness :
  checkScoutBlock SpecModel.modules (JStr (js "Bash"))
    (JObj [(js "command", JStr (js "npm run build && npm test"))]) no_options
  = Some ({| blocked := false; path := None; pattern := None; reason := None;
             isBroadPattern := None; suggestions := None;
             isAllowedCommand_flag := Some true |}, []).
Proof.
  apply (all_allowed_short_circuit SpecModel.modules (JStr (js "Bash"))
           (JObj [(js "command", JStr (js "npm run build && npm test"))])
           no_options (JStr (js "npm run build && npm test"))).
  - reflexivity.
  - reflexivity.
  - intros sub Hin. vm_compute in Hin.
    destruct Hin as [<-|[<-|[]]]; vm_compute; reflexivity.
Defined.

(** The rest of the orchestrator never sets the recognized-tooling flag,
    and always calls one of the required modules. *)
Lemma check_paths_flag : forall M matcher paths,
  isAllowedCommand_flag (fst (check_paths M matcher paths)) = None.
Proof.
  induction paths as [|p paths IH]; simpl; [reflexivity|].
  destruct (mr_blocked (matchPath M matcher p)); [reflexivity|].
  destruct (check_paths M matcher paths); simpl in *; assumption.
Qed.

Lemma inspect_not_flagged : forall M toolName toolInput options d calls,
  inspect M toolName toolInput options = Some (d, calls) ->
  isAllowedCommand_flag d = None /\ calls <> [].
Proof.
  intros M toolName toolInput options d calls H. unfold inspect in H.
  destruct (get toolInput "pattern") as [pat|]; [|discriminate].
  match type of H with
  | (if ?b then _ else _) = _ => destruct b
  end.
  - inversion H; subst. split; [reflexivity | discriminate].
  - match type of H with
    | (let (_, _) := check_paths ?m ?mt ?ps in _) = _ =>
        pose proof (check_paths_flag m mt ps) as F;
        destruct (check_paths m mt ps) as [d' calls']
    end.
    inversion H; subst. split; [exact F|].
    destruct (_ && _); discriminate.
Qed.

(** C10, as the code has it. When the command of the action is a truthy
    value that splits into no sub-command (white space, text made of the
    operators only, a value that is not a string), the decision is the
    object [{ blocked: false, isAllowedCommand: true }], not blocked and
    with the recognized-tooling flag set, and no call is made to the
    breadth check, to rule loading, to path extraction or to the matcher.
    When the command is the empty string the command block is skipped: the
    decision is the one of the remaining checks, which call the required
    modules and never set the flag. *)
Theorem no_subcommand_decision :
  forall (M : ScoutBlock) (toolName toolInput : value) (options : Options)
         (command : value),
  get toolInput "command" = Some command ->
  split_value (unwrap_value command) = [] ->
  (truthy command = true ->
     checkScoutBlock M toolName toolInput options
     = Some ({| blocked := false; path := None; pattern := None; reason := None;
                isBroadPattern := None; suggestions := None;
                isAllowedCommand_flag := Some true |}, [])) /\
  (command = JStr [] ->
     checkScoutBlock M toolName toolInput options
     = inspect M toolName toolInput options /\
     forall d calls,
       checkScoutBlock M toolName toolInput options = Some (d, calls) ->
       isAllowedCommand_flag d = None /\ calls <> []).
Proof.
  intros M toolName toolInput options command G S. split.
  - intros T. rewrite (short_circuit M toolName toolInput options command G T).
    + reflexivity.
    + rewrite S. reflexivity.
  - intros ->.
    assert (E : checkScoutBlock M toolName toolInput options
                = inspect M toolName toolInput options).
    { unfold checkScoutBlock. rewrite G. unfold unwrap_step. simpl.
      rewrite G. reflexivity. }
    split; [exact E|]. intros d calls H. rewrite E in H.
    eapply inspect_not_flagged; eauto.
Qed.

(** The guard of the model instance on white space, on operators only and
    on two values that are not strings. *)
Lemma no_subcommand_decision_witness :
  checkScoutBlock SpecModel.modules bash (command_only (JStr (js "   "))) no_options
  = Some ({| blocked := false; path := None; pattern := None; reason := None;
             isBroadPattern := None; suggestions := None;
             isAllowedCommand_flag := Some true |}, []) /\
  checkScoutBlock SpecModel.modules bash (command_only (JStr (js " && ; || "))) no_options
  = Some ({| blocked := false; path := None; pattern := None; reason := None;
             isBroadPattern := None; suggestions := None;
             isAllowedCommand_flag := Some true |}, []) /\
  checkScoutBlock SpecModel.modules bash (command_only (JBool true)) no_options
  = Some ({| blocked := false; path := None; pattern := None; reason := None;
             isBroadPattern := None; suggestions := None;
             isAllowedCommand_flag := Some true |}, []) /\
  checkScoutBlock SpecModel.modules bash (command_only (JArr [])) no_options
  = Some ({| blocked := false; path := None; pattern := None; reason := None;
             isBroadPattern := None; suggestions := None;
             isAllowedCommand_flag := Some true |}, []).
Proof.
  split; [|split; [|split]].
  - apply (no_subcommand_decision SpecModel.modules bash
             (command_only (JStr (js "   "))) no_options (JStr (js "   ")));
      vm_compute; reflexivity.
  - apply (no_subcommand_decision SpecModel.modules bash
             (command_only (JStr (js " && ; || "))) no_options (JStr (js " && ; || ")));
      vm_compute; reflexivity.
  - apply (no_subcommand_decision SpecModel.modules bash
             (command_only (JBool true)) no_options (JBool true));
      vm_compute; reflexivity.
  - apply (no_subcommand_decision SpecModel.modules bash
             (command_only (JArr [])) no_options (JArr []));
      vm_compute; reflexivity.
Defined.

(** C10 fails on the empty string: it splits into no sub-command, and
    still the rules are loaded and the paths are extracted, and the
    decision is [{ blocked: false }], without the recognized-tooling
    flag. *)
Lemma empty_command_is_inspected :
  splitCompoundCommand [] = [] /\
  checkScoutBlock SpecModel.modules bash (command_only (JStr [])) no_options
  = Some ({| blocked := false; path := None; pattern := None; reason := None;
             isBroadPattern := None; suggestions := None;
             isAllowedCommand_flag := None |},
          [LoadPatterns (js "/repo/.claude/.ckignore");
           CreateMatcher [js "node_modules"; js "**/etc/**"; js "!node_modules/.bin"];
           ExtractFromToolInput (command_only (JStr []))]).
Proof. split; vm_compute; reflexivity. Qed.





End GuardFacts.
Import GuardFacts.

Module SeparatorFacts.

Lemma star_loop_greedy : forall (R : Type) p (k : mstate -> option R) fuel s,
  length (rest s) <= fuel ->
  star_loop (bt (RClass p)) k fuel s = greedy p k (pos s) (caps s) (rest s).
Proof.
  intros R p k; induction fuel as [|fuel IH]; intros [n l c] H.
  - destruct l; [reflexivity | simpl in H; lia].
  - destruct l as [|x t]; [reflexivity|].
    cbn [star_loop bt rest pos caps greedy].
    destruct (p x) eqn:P; [|reflexivity].
    replace (length (rest (advance (MState n (x :: t) c) t)) <? length (x :: t))
      with true by (symmetry; apply Nat.ltb_lt; simpl; lia).
    rewrite IH by (simpl in *; lia). reflexivity.
Qed.

(** When the continuation refuses every state that still starts with a
    code unit of the class, the star consumes the whole run. *)
Lemma greedy_all : forall (R : Type) p (k : mstate -> option R) caps l n,
  (forall m c t, p c = true -> k (MState m (c :: t) caps) = None) ->
  greedy p k n caps l
  = k (MState (n + (length l - length (drop_while p l))) (drop_while p l) caps).
Proof.
  intros R p k caps; induction l as [|c t IH]; intros n H.
  - simpl. replace (n + 0) with n by lia. reflexivity.
  - cbn [greedy drop_while]. destruct (p c) eqn:P.
    + rewrite IH by assumption. rewrite (H n c t P).
      pose proof (TrimFacts.drop_while_length p t).
      replace (S n + (length t - length (drop_while p t)))
        with (n + (length (c :: t) - length (drop_while p t))) by (cbn [length]; lia).
      destruct (k _); reflexivity.
    + rewrite Nat.sub_diag. replace (n + 0) with n by lia. reflexivity.
Qed.

(** When the continuation accepts everything, too. *)
Lemma greedy_accept : forall p caps l n,
  greedy p (fun s => Some s) n caps l
  = Some (MState (n + (length l - length (drop_while p l))) (drop_while p l) caps).
Proof.
  intros p caps; induction l as [|c t IH]; intros n.
  - simpl. replace (n + 0) with n by lia. reflexivity.
  - cbn [greedy drop_while]. destruct (p c) eqn:P.
    + rewrite IH. pose proof (TrimFacts.drop_while_length p t).
      replace (S n + (length t - length (drop_while p t)))
        with (n + (length (c :: t) - length (drop_while p t))) by (cbn [length]; lia).
      reflexivity.
    + rewrite Nat.sub_diag. replace (n + 0) with n by lia. reflexivity.
Qed.

(** The three operators, tried in order on the input that is left. *)
Lemma operators_run : forall (R : Type) (k : mstate -> option R) n l caps,
  bt OPERATORS k (MState n l caps)
  = match operator_at l with
    | Some t => k (MState (n + (length l - length t)) t caps)
    | None => None
    end.
Proof.
  intros R k n l caps. unfold OPERATORS, operator_at.
  destruct l as [|c t]; [reflexivity|].
  assert (A1 : n + (length (c :: t) - length t) = S n) by (cbn [length]; lia).
  assert (A2 : forall c2 t2, t = c2 :: t2 -> n + (length (c :: t) - length t2) = S (S n)).
  { intros c2 t2 ->. cbn [length]. lia. }
  cbn -[N.eqb length Nat.sub]. unfold advance. cbn -[N.eqb length Nat.sub].
  rewrite !(N.eqb_sym _ c).
  destruct (N.eqb_spec c 59) as [->|N59].
  - cbn -[length Nat.sub]. rewrite A1. destruct t; reflexivity.
  - destruct (N.eqb_spec c 38) as [->|N38].
    + destruct t as [|c2 t]; [reflexivity|].
      cbn -[N.eqb length Nat.sub]. rewrite !(N.eqb_sym _ c2).
      destruct (N.eqb_spec c2 38) as [->|N38']; cbn -[N.eqb length Nat.sub].
      * rewrite (A2 _ _ eq_refl). destruct (k _); reflexivity.
      * destruct (N.eqb_spec c2 124); reflexivity.
    + cbn -[N.eqb length Nat.sub].
      destruct (N.eqb_spec c 124) as [->|N124]; cbn -[N.eqb length Nat.sub].
      * destruct t as [|c2 t]; [reflexivity|].
        cbn -[N.eqb length Nat.sub]. rewrite !(N.eqb_sym _ c2).
        destruct (N.eqb_spec c2 124) as [->|N124']; cbn -[N.eqb length Nat.sub].
        -- rewrite (A2 _ _ eq_refl). destruct (k _); reflexivity.
        -- reflexivity.
      * reflexivity.
Qed.

Lemma operator_at_space : forall c t,
  is_space c = true -> operator_at (c :: t) = None.
Proof.
  intros c t H. unfold operator_at.
  destruct (N.eqb_spec c 59) as [->|_]; [discriminate|].
  destruct (N.eqb_spec c 38) as [->|_]; [discriminate|].
  destruct (N.eqb_spec c 124) as [->|_]; [discriminate|].
  reflexivity.
Qed.

Lemma operator_at_shorter : forall s t,
  operator_at s = Some t -> exists m, s = m ++ t /\ m <> [].
Proof.
  intros [|c s] t H; simpl in H; [discriminate|].
  destruct (N.eqb c 59).
  - inversion H; subst. exists [c]; split; [reflexivity | discriminate].
  - destruct (N.eqb c 38 && head_is 38 s) eqn:E.
    + inversion H; subst. destruct s as [|c2 s]; [rewrite andb_false_r in E; discriminate|].
      exists [c; c2]; split; [reflexivity | discriminate].
    + destruct (N.eqb c 124 && head_is 124 s) eqn:E2; [|discriminate].
      inversion H; subst. destruct s as [|c2 s]; [rewrite andb_false_r in E2; discriminate|].
      exists [c; c2]; split; [reflexivity | discriminate].
Qed.

Lemma drop_while_split : forall p s,
  exists w, s = w ++ drop_while p s /\ forallb p w = true.
Proof.
  induction s as [|c s IH]; simpl.
  - exists []; split; reflexivity.
  - destruct (p c) eqn:P.
    + destruct IH as (w & Hs & Hw). exists (c :: w); split.
      * simpl. rewrite <- Hs. reflexivity.
      * simpl. rewrite P, Hw. reflexivity.
    + exists []; split; reflexivity.
Qed.

(** A separator consumes at least one code unit and leaves a suffix that
    does not start with white space. *)
Lemma sep_at_shorter : forall s r,
  sep_at s = Some r -> exists m, s = m ++ r /\ m <> [].
Proof.
  intros s r H. unfold sep_at in H.
  destruct (operator_at (drop_while is_space s)) as [t|] eqn:E; [|discriminate].
  inversion H; subst. apply operator_at_shorter in E. destruct E as (m & Hm & Hn).
  destruct (drop_while_split is_space s) as (w & Hs & _).
  destruct (drop_while_split is_space t) as (w2 & Ht & _).
  exists (w ++ m ++ w2); split.
  - rewrite Hs at 1. rewrite Hm. rewrite Ht at 1. rewrite <- !app_assoc. reflexivity.
  - destruct w; [destruct m; [congruence | discriminate] | discriminate].
Qed.

Lemma sep_at_length : forall s r, sep_at s = Some r -> length r < length s.
Proof.
  intros s r H. apply sep_at_shorter in H. destruct H as (m & -> & Hn).
  rewrite length_app. destruct m; [congruence | simpl; lia].
Qed.

Lemma sep_at_no_leading : forall s r,
  sep_at s = Some r -> drop_while is_space r = r.
Proof.
  intros s r H. unfold sep_at in H.
  destruct (operator_at (drop_while is_space s)); [|discriminate].
  inversion H; subst. apply drop_while_idem.
Qed.

(** The separator pattern, run from any state, is [sep_at] on the input
    that is left. *)
Lemma separator_run : forall s,
  bt COMPOUND_OPERATOR (fun x => Some x) s
  = match sep_at (rest s) with
    | Some r => Some (MState (pos s + (length (rest s) - length r)) r (caps s))
    | None => None
    end.
Proof.
  intros [n l cs]. cbv [COMPOUND_OPERATOR seqs].
  change (alts [lit "&&"; lit "||"; lit ";"]) with OPERATORS.
  cbn [bt rest pos caps]. unfold space.
  rewrite star_loop_greedy by (simpl; lia). cbn [rest pos caps].
  rewrite greedy_all.
  - rewrite operators_run. unfold sep_at.
    destruct (operator_at (drop_while is_space l)) as [t|] eqn:E; [|reflexivity].
    rewrite star_loop_greedy by (simpl; lia). cbn [rest pos caps].
    rewrite greedy_accept. f_equal. apply mstate_eq; simpl; auto.
    apply operator_at_shorter in E. destruct E as (m & Hm & _).
    pose proof (drop_while_length is_space l).
    pose proof (drop_while_length is_space t).
    assert (length (drop_while is_space l) = length m + length t)
      by (rewrite Hm, length_app; reflexivity).
    lia.
  - intros m c t Hc. rewrite operators_run. rewrite operator_at_space by assumption.
    reflexivity.
Qed.

Lemma exec_at_separator : forall str q,
  exec_at COMPOUND_OPERATOR str q
  = match sep_at (skipn q str) with
    | Some r => Some (MState (q + (length (skipn q str) - length r)) r [])
    | None => None
    end.
Proof. intros str q. unfold exec_at. rewrite separator_run. reflexivity. Qed.

End SeparatorFacts.
Import SeparatorFacts.

Module SplitFacts.

Lemma scan_S : forall fuel cur c t,
  scan (S fuel) cur (c :: t)
  = match sep_at (c :: t) with
    | Some r => cur :: scan fuel [] r
    | None => scan fuel (cur ++ [c]) t
    end.
Proof. reflexivity. Qed.

Lemma scan_fuel : forall fuel1 fuel2 s cur,
  length s < fuel1 -> length s < fuel2 -> scan fuel1 cur s = scan fuel2 cur s.
Proof.
  induction fuel1 as [|f1 IH]; intros fuel2 s cur H1 H2; [lia|].
  destruct fuel2 as [|f2]; [lia|].
  destruct s as [|c t]; [reflexivity|].
  rewrite !scan_S. destruct (sep_at (c :: t)) as [r|] eqn:E.
  - apply sep_at_length in E. f_equal. apply IH; simpl in *; lia.
  - apply IH; simpl in *; lia.
Qed.

Lemma pieces_nil : forall cur, pieces cur [] = [cur].
Proof. reflexivity. Qed.

Lemma pieces_cons : forall cur c t,
  pieces cur (c :: t)
  = match sep_at (c :: t) with
    | Some r => cur :: pieces [] r
    | None => pieces (cur ++ [c]) t
    end.
Proof.
  intros cur c t. unfold pieces. rewrite scan_S.
  destruct (sep_at (c :: t)) as [r|] eqn:E.
  - apply sep_at_length in E. f_equal. apply scan_fuel; simpl in *; lia.
  - reflexivity.
Qed.

Lemma pieces_nonempty : forall s cur, pieces cur s <> [].
Proof.
  induction s as [|c t IH]; intros cur.
  - rewrite pieces_nil. discriminate.
  - rewrite pieces_cons. destruct (sep_at (c :: t)); [discriminate | apply IH].
Qed.

Lemma firstn_S_skipn : forall d (u : jstring) c t,
  skipn d u = c :: t -> firstn (S d) u = firstn d u ++ [c].
Proof.
  induction d as [|d IH]; intros u c t H.
  - simpl in H. subst u. reflexivity.
  - destruct u as [|x u]; [discriminate|]. simpl in H.
    change (firstn (S (S d)) (x :: u)) with (x :: firstn (S d) u).
    rewrite (IH u c t H). reflexivity.
Qed.

Lemma substring_step : forall p q str c t,
  p <= q -> skipn q str = c :: t ->
  substring p (S q) str = substring p q str ++ [c] /\ skipn (S q) str = t.
Proof.
  intros p q str c t Hpq H. unfold substring. split.
  - replace (S q - p) with (S (q - p)) by lia.
    apply firstn_S_skipn with (t := t).
    rewrite skipn_skipn. replace (q - p + p) with q by lia. assumption.
  - change (S q) with (1 + q). rewrite <- skipn_skipn. rewrite H. reflexivity.
Qed.

(** The loop of [split] on the separator pattern computes [pieces]. *)
Lemma split_loop_pieces : forall fuel str p q,
  p <= q -> q <= length str -> 2 * length str - p - q < fuel ->
  split_loop fuel COMPOUND_OPERATOR str p q
  = Some (pieces (substring p q str) (skipn q str)).
Proof.
  induction fuel as [|fuel IH]; intros str p q Hpq Hq Hf; [lia|].
  cbn [split_loop]. destruct (q <? length str) eqn:L.
  - apply Nat.ltb_lt in L. rewrite exec_at_separator.
    destruct (skipn q str) as [|c t] eqn:Sk.
    { apply (f_equal (@length N)) in Sk. rewrite length_skipn in Sk. simpl in Sk. lia. }
    rewrite pieces_cons.
    destruct (sep_at (c :: t)) as [r|] eqn:E.
    + destruct (sep_at_shorter _ _ E) as (m & Hm & Hn).
      assert (Lm : q + length m + length r = length str).
      { apply (f_equal (@length N)) in Sk. rewrite length_skipn in Sk.
        rewrite Hm, length_app in Sk. lia. }
      assert (Lm0 : 0 < length m) by (destruct m; [congruence | simpl; lia]).
      cbn [pos].
      replace (Nat.min (q + (length (c :: t) - length r)) (length str))
        with (q + length m)
        by (rewrite Hm, length_app; lia).
      replace (q + length m =? p) with false by (symmetry; apply Nat.eqb_neq; lia).
      rewrite IH by lia.
      assert (Sr : skipn (q + length m) str = r).
      { rewrite Nat.add_comm, <- skipn_skipn, Sk, Hm.
        rewrite skipn_app, skipn_all, Nat.sub_diag. reflexivity. }
      rewrite Sr. unfold substring at 2. rewrite Nat.sub_diag. reflexivity.
    + destruct (substring_step p q str c t Hpq Sk) as [H1 H2].
      rewrite IH by lia. rewrite H1, H2. reflexivity.
  - apply Nat.ltb_ge in L. assert (q = length str) by lia. subst q.
    rewrite skipn_all. reflexivity.
Qed.

(** [split] on the separator pattern always returns, and returns the
    pieces of the text. *)
Lemma split_pieces : forall str,
  split COMPOUND_OPERATOR str = Some (pieces [] str).
Proof.
  intros [|c t]; [reflexivity|].
  unfold split. rewrite split_loop_pieces by (simpl; lia). reflexivity.
Qed.

Lemma splitCompoundCommand_pieces : forall c,
  splitCompoundCommand c = filter nonblank (pieces [] c).
Proof.
  intros c. unfold splitCompoundCommand. rewrite split_pieces.
  destruct c; reflexivity.
Qed.

Lemma has_operator_app : forall w s,
  has_operator (w ++ s) = false -> has_operator s = false.
Proof.
  induction w as [|c w IH]; intros s H; [assumption|].
  simpl in H. apply orb_false_iff in H. destruct H as [_ H]. apply IH; assumption.
Qed.

Lemma operator_at_none : forall s, has_operator s = false -> operator_at s = None.
Proof.
  intros [|c t] H; [reflexivity|]. simpl in H.
  apply orb_false_iff in H. destruct H as [H _].
  apply orb_false_iff in H. destruct H as [H H3].
  apply orb_false_iff in H. destruct H as [H1 H2].
  unfold operator_at. rewrite H1, H2, H3. reflexivity.
Qed.

Lemma sep_at_none : forall s, has_operator s = false -> sep_at s = None.
Proof.
  intros s H. unfold sep_at.
  destruct (drop_while_split is_space s) as (w & Hs & _).
  rewrite Hs in H. apply has_operator_app in H.
  rewrite (operator_at_none _ H). reflexivity.
Qed.

Lemma pieces_no_operator : forall s cur,
  has_operator s = false -> pieces cur s = [cur ++ s].
Proof.
  induction s as [|c t IH]; intros cur H.
  - rewrite pieces_nil, app_nil_r. reflexivity.
  - rewrite pieces_cons, (sep_at_none _ H).
    rewrite IH by (apply (has_operator_app [c]); assumption).
    rewrite <- app_assoc. reflexivity.
Qed.

(** C7, as the code has it. [splitCompoundCommand] cuts the command at
    every separator, read from left to right, a separator being one of
    the operators [&&], [||] and [;] with the white space around it, and
    at nothing else: its result is the pieces between the separators that
    hold a code unit other than white space, in their order.  So it gives
    the two sub-commands of the first command of the contract and three
    for the second; and a command that holds none of the operators,
    whatever line breaks it holds, is one sub-command, the command itself,
    when it holds a code unit that is not white space, and no sub-command
    when it is white space only. *)
Theorem split_on_operators_only :
  (forall c : jstring,
     splitCompoundCommand c = filter nonblank (pieces [] c)) /\
  (forall (x t : jstring) (c : N),
     pieces x (c :: t)
     = match sep_at (c :: t) with
       | Some after => x :: pieces [] after
       | None => pieces (x ++ [c]) t
       end) /\
  (forall x : jstring, pieces x [] = [x]) /\
  splitCompoundCommand (js "echo a && echo b") = [js "echo a"; js "echo b"] /\
  splitCompoundCommand (js "echo a; echo b || echo c")
  = [js "echo a"; js "echo b"; js "echo c"] /\
  (forall c : jstring, has_operator c = false ->
     (nonblank c = true -> splitCompoundCommand c = [c]) /\
     (nonblank c = false -> splitCompoundCommand c = [])).
Proof.
  split; [exact splitCompoundCommand_pieces|].
  split; [intros x t c; apply pieces_cons|].
  split; [exact pieces_nil|].
  split; [vm_compute; reflexivity|].
  split; [vm_compute; reflexivity|].
  intros c H. rewrite splitCompoundCommand_pieces, (pieces_no_operator c [] H).
  simpl. split; intros B; rewrite B; reflexivity.
Qed.

(** The theorem on a here-document of three lines. *)
Lemma split_on_operators_only_witness :
  splitCompoundCommand two_lines = [two_lines].
Proof.
  destruct split_on_operators_only as (_ & _ & _ & _ & _ & H).
  apply (H two_lines); vm_compute; reflexivity.
Defined.

(** C7 fails on a command that is a line break only: it holds a line
    break and no operator, and splits into no sub-command. *)
Lemma blank_lines_split_to_nothing :
  In 10%N nl /\ has_operator nl = false /\ splitCompoundCommand nl = [].
Proof. split; [left; reflexivity | split; vm_compute; reflexivity]. Qed.

End SplitFacts.
Import SplitFacts.

Module NarrowingFacts.

Lemma head_is_app : forall a u T, head_is a u = true -> head_is a (u ++ T) = true.
Proof. intros a [|x u] T H; [discriminate | exact H]. Qed.

Lemma sep_at_space : forall c s, is_space c = true -> sep_at (c :: s) = sep_at s.
Proof. intros c s H. unfold sep_at. simpl. rewrite H. reflexivity. Qed.

Lemma sep_at_nonspace : forall c s,
  is_space c = false ->
  sep_at (c :: s) = match operator_at (c :: s) with
                    | Some t => Some (drop_while is_space t)
                    | None => None
                    end.
Proof. intros c s H. unfold sep_at. simpl drop_while. rewrite H. reflexivity. Qed.

Lemma space_not_operator : forall c,
  is_space c = true -> N.eqb c 59 = false /\ N.eqb c 38 = false /\ N.eqb c 124 = false.
Proof.
  intros c H. repeat split.
  - destruct (N.eqb_spec c 59) as [->|]; [discriminate | reflexivity].
  - destruct (N.eqb_spec c 38) as [->|]; [discriminate | reflexivity].
  - destruct (N.eqb_spec c 124) as [->|]; [discriminate | reflexivity].
Qed.

Lemma operator_at_none_head : forall c u T,
  operator_at (c :: u ++ T) = None ->
  N.eqb c 59 || (N.eqb c 38 && head_is 38 u) || (N.eqb c 124 && head_is 124 u) = false.
Proof.
  intros c u T H. unfold operator_at in H.
  destruct (N.eqb c 59); [discriminate|]. simpl.
  destruct (N.eqb c 38) eqn:E38; simpl in *.
  - destruct (head_is 38 u) eqn:Hh.
    + rewrite (head_is_app _ _ T Hh) in H. discriminate.
    + simpl. apply N.eqb_eq in E38. subst c. reflexivity.
  - destruct (N.eqb c 124); simpl in *; [|reflexivity].
    destruct (head_is 124 u) eqn:Hh; [|reflexivity].
    rewrite (head_is_app _ _ T Hh) in H. discriminate.
Qed.

Lemma quiet_tail : forall c x T, quiet (c :: x) T -> quiet x T.
Proof.
  intros c x T Q j Hj. apply (Q (S j)). simpl. lia.
Qed.

Lemma quiet_head : forall c x T, quiet (c :: x) T -> sep_at (c :: x ++ T) = None.
Proof. intros c x T Q. apply (Q 0). simpl. lia. Qed.

(** No operator lies inside a piece. *)
Lemma quiet_op_free : forall x T, quiet x T -> has_operator x = false.
Proof.
  induction x as [|c x IH]; intros T Q; [reflexivity|].
  cbn [has_operator]. rewrite (IH T (quiet_tail _ _ _ Q)). rewrite orb_false_r.
  pose proof (quiet_head _ _ _ Q) as H.
  destruct (is_space c) eqn:Sp.
  - destruct (space_not_operator c Sp) as (-> & -> & ->). reflexivity.
  - rewrite sep_at_nonspace in H by assumption.
    destruct (operator_at (c :: x ++ T)) eqn:E; [discriminate|].
    apply operator_at_none_head in E. exact E.
Qed.

(** A piece that a separator follows does not end with white space. *)
Lemma quiet_no_trailing : forall x s r,
  quiet x s -> sep_at s = Some r -> no_trailing_space x.
Proof.
  intros x s r Q E l w ->. destruct (is_space w) eqn:Sp; [|reflexivity].
  exfalso. specialize (Q (length l)).
  rewrite length_app in Q. simpl in Q.
  rewrite skipn_app, skipn_all, Nat.sub_diag in Q. simpl in Q.
  rewrite sep_at_space in Q by assumption. rewrite E in Q.
  assert (length l < length l + 1) by lia. specialize (Q H). discriminate.
Qed.

Lemma quiet_step : forall cur c t,
  quiet cur (c :: t) -> sep_at (c :: t) = None -> quiet (cur ++ [c]) t.
Proof.
  intros cur c t Q E j Hj. rewrite length_app in Hj. simpl in Hj.
  rewrite skipn_app.
  destruct (Nat.eq_dec j (length cur)) as [->|Hn].
  - rewrite skipn_all, Nat.sub_diag. simpl. exact E.
  - replace (j - length cur) with 0 by lia. simpl skipn at 2.
    rewrite <- app_assoc. apply Q. lia.
Qed.

Lemma quiet_nil : forall T, quiet [] T.
Proof. intros T j Hj. simpl in Hj. lia. Qed.

Lemma no_leading_fixed : forall r, drop_while is_space r = r -> no_leading_space r.
Proof.
  intros [|c r] H; simpl; [exact I|]. simpl in H.
  destruct (is_space c) eqn:Sp; [|reflexivity].
  exfalso. pose proof (drop_while_length is_space r) as L. rewrite H in L. simpl in L. lia.
Qed.

Lemma fixed_no_leading : forall r, no_leading_space r -> drop_while is_space r = r.
Proof. intros [|c r] H; simpl in *; [reflexivity | rewrite H; reflexivity]. Qed.

(** What [pieces] returns: no piece holds an operator, no piece but the
    last ends with white space, no piece but the first starts with it. *)
Lemma pieces_wf : forall n s cur,
  length s <= n -> quiet cur s ->
  (forall x, In x (pieces cur s) -> has_operator x = false) /\
  (forall x, In x (removelast (pieces cur s)) -> no_trailing_space x) /\
  (forall x, In x (tl (pieces cur s)) -> no_leading_space x) /\
  (no_leading_space (cur ++ s) -> no_leading_space (hd [] (pieces cur s))).
Proof.
  induction n as [|n IH]; intros s cur Hn Q.
  - destruct s; [|simpl in Hn; lia]. rewrite pieces_nil. repeat split.
    + intros x [<-|[]]. eapply quiet_op_free; eauto.
    + intros x [].
    + intros x [].
    + rewrite app_nil_r. auto.
  - destruct s as [|c t].
    { rewrite pieces_nil. repeat split.
      + intros x [<-|[]]. eapply quiet_op_free; eauto.
      + intros x [].
      + intros x [].
      + rewrite app_nil_r. auto. }
    rewrite pieces_cons. destruct (sep_at (c :: t)) as [r|] eqn:E.
    + pose proof (sep_at_length _ _ E) as Lr.
      destruct (IH r [] ltac:(simpl in *; lia) (quiet_nil r)) as (I1 & I2 & I3 & I4).
      pose proof (pieces_nonempty r []) as Ne.
      destruct (pieces [] r) as [|h P'] eqn:EP; [congruence|].
      repeat split.
      * intros x [<-|Hx]; [eapply quiet_op_free; eauto | apply I1; exact Hx].
      * change (removelast (cur :: h :: P')) with (cur :: removelast (h :: P')).
        intros x [<-|Hx]; [eapply quiet_no_trailing; eauto | apply I2; exact Hx].
      * cbn [tl]. intros x [<-|Hx].
        -- apply I4. simpl. apply no_leading_fixed. eapply sep_at_no_leading; eauto.
        -- apply I3. exact Hx.
      * cbn [hd]. intros H. destruct cur; [exact I | exact H].
    + destruct (IH t (cur ++ [c]) ltac:(simpl in *; lia) (quiet_step _ _ _ Q E))
        as (I1 & I2 & I3 & I4).
      repeat split; auto.
      intros H. apply I4. rewrite <- app_assoc. exact H.
Qed.

Lemma removelast_filter : forall (A : Type) (g : A -> bool) l x,
  In x (removelast (filter g l)) -> In x (removelast l).
Proof.
  induction l as [|a l IH]; intros x H; [exact H|].
  assert (R : forall y, In y (removelast l) -> In y (removelast (a :: l))).
  { intros y Hy. destruct l; [destruct Hy | right; exact Hy]. }
  cbn [filter] in H. destruct (g a).
  - destruct (filter g l) as [|b F] eqn:EF; [destruct H|].
    change (removelast (a :: b :: F)) with (a :: removelast (b :: F)) in H.
    destruct H as [<-|H].
    + destruct l; [discriminate EF | left; reflexivity].
    + apply R. apply IH. exact H.
  - apply R. apply IH. exact H.
Qed.

Lemma tl_filter : forall (A : Type) (g : A -> bool) l x,
  In x (tl (filter g l)) -> In x (tl l).
Proof.
  induction l as [|a l IH]; intros x H; [exact H|].
  cbn [filter] in H. cbn [tl]. destruct (g a).
  - cbn [tl] in H. apply filter_In in H. tauto.
  - apply IH in H. destruct l; [destruct H | right; exact H].
Qed.

(** A text without operators and without white space at its end lets no
    separator start inside it when a separator follows. *)
Lemma sep_at_inside : forall u T,
  u <> [] -> has_operator u = false -> no_trailing_space u ->
  sep_at (u ++ 32%N :: 59%N :: T) = None.
Proof.
  induction u as [|c u IH]; intros T Hn Ho Ht; [congruence|].
  cbn [has_operator] in Ho.
  apply orb_false_iff in Ho. destruct Ho as [Ho Hu].
  apply orb_false_iff in Ho. destruct Ho as [Ho H124].
  apply orb_false_iff in Ho. destruct Ho as [H59 H38].
  assert (Ht' : u <> [] -> no_trailing_space u).
  { intros _ l w E. apply (Ht (c :: l) w). rewrite E. reflexivity. }
  destruct (is_space c) eqn:Sp.
  - destruct u as [|d u].
    + exfalso. rewrite (Ht [] c eq_refl) in Sp. discriminate.
    + change ((c :: d :: u) ++ 32%N :: 59%N :: T)
        with (c :: ((d :: u) ++ 32%N :: 59%N :: T)).
      rewrite sep_at_space by assumption.
      apply IH; [discriminate | assumption | apply Ht'; discriminate].
  - change ((c :: u) ++ 32%N :: 59%N :: T) with (c :: (u ++ 32%N :: 59%N :: T)).
    rewrite sep_at_nonspace by assumption. unfold operator_at. rewrite H59.
    destruct u as [|d u].
    + simpl. rewrite !andb_false_r. reflexivity.
    + simpl in *. rewrite H38, H124. reflexivity.
Qed.

Lemma quiet_inside : forall x T,
  has_operator x = false -> no_trailing_space x -> quiet x (32%N :: 59%N :: T).
Proof.
  intros x T Ho Ht j Hj. apply sep_at_inside.
  - intro E. apply (f_equal (@length N)) in E. rewrite length_skipn in E. simpl in E. lia.
  - apply (has_operator_app (firstn j x)). rewrite firstn_skipn. exact Ho.
  - intros l w E. apply (Ht (firstn j x ++ l) w).
    rewrite <- app_assoc, <- E, firstn_skipn. reflexivity.
Qed.

(** A piece, the separator the orchestrator writes, and the rest. *)
Lemma pieces_through : forall x cur R,
  quiet x (js " ; " ++ R) -> drop_while is_space R = R ->
  pieces cur (x ++ js " ; " ++ R) = (cur ++ x) :: pieces [] R.
Proof.
  induction x as [|c x IH]; intros cur R Q HR.
  - rewrite app_nil_r. change ([] ++ js " ; " ++ R) with (32%N :: 59%N :: 32%N :: R).
    rewrite pieces_cons.
    assert (E : sep_at (32%N :: 59%N :: 32%N :: R) = Some R).
    { unfold sep_at. simpl. rewrite HR. reflexivity. }
    rewrite E. reflexivity.
  - change ((c :: x) ++ js " ; " ++ R) with (c :: (x ++ js " ; " ++ R)).
    rewrite pieces_cons. rewrite (quiet_head _ _ _ Q).
    rewrite (IH (cur ++ [c]) R (quiet_tail _ _ _ Q) HR).
    rewrite <- app_assoc. reflexivity.
Qed.

Lemma join_cons2 : forall sep x y L,
  join sep (x :: y :: L) = x ++ sep ++ join sep (y :: L).
Proof. reflexivity. Qed.

Lemma join_head : forall sep y L,
  y <> [] -> no_leading_space y -> no_leading_space (join sep (y :: L)).
Proof.
  intros sep [|c y] L Hn H; [congruence|].
  destruct L; simpl in *; exact H.
Qed.

(** Joining pieces with the separator and splitting again gives the same
    pieces. *)
Lemma pieces_join : forall L,
  L <> [] ->
  (forall x, In x L -> has_operator x = false /\ x <> []) ->
  (forall x, In x (removelast L) -> no_trailing_space x) ->
  (forall x, In x (tl L) -> no_leading_space x) ->
  pieces [] (join (js " ; ") L) = L.
Proof.
  induction L as [|x L IH]; intros Hn H1 H2 H3; [congruence|].
  destruct L as [|y L].
  - simpl. apply pieces_no_operator. apply H1. left; reflexivity.
  - rewrite join_cons2.
    assert (Hy : no_leading_space (join (js " ; ") (y :: L))).
    { apply join_head; [apply H1; right; left; reflexivity|].
      apply H3. left; reflexivity. }
    rewrite pieces_through.
    + simpl app. f_equal. apply IH.
      * discriminate.
      * intros z Hz. apply H1. right; exact Hz.
      * intros z Hz. apply H2.
        change (removelast (x :: y :: L)) with (x :: removelast (y :: L)).
        right; exact Hz.
      * intros z Hz. apply H3. cbn [tl] in *. right; exact Hz.
    + apply quiet_inside.
      * apply H1. left; reflexivity.
      * apply H2. change (removelast (x :: y :: L)) with (x :: removelast (y :: L)).
        left; reflexivity.
    + apply fixed_no_leading. exact Hy.
Qed.

Lemma nonblank_nonempty : forall x, nonblank x = true -> x <> [].
Proof. intros [|c x] H; [discriminate | discriminate]. Qed.

Lemma filter_fixed : forall (A : Type) (g : A -> bool) l,
  (forall x, In x l -> g x = true) -> filter g l = l.
Proof.
  induction l as [|a l IH]; intros H; [reflexivity|].
  simpl. rewrite (H a (or_introl eq_refl)). f_equal. apply IH.
  intros x Hx. apply H. right; exact Hx.
Qed.

(** Splitting the narrowed text gives back the sub-commands it was made
    of. *)
Lemma split_narrowed : forall c,
  splitCompoundCommand (narrowed_text c) = nonAllowed c.
Proof.
  intros c. unfold narrowed_text.
  destruct (nonAllowed c) as [|x0 L0] eqn:EN; [reflexivity|].
  rewrite <- EN.
  assert (Hin : forall x, In x (nonAllowed c) ->
                          In x (pieces [] c) /\ nonblank x = true).
  { intros x Hx. unfold nonAllowed in Hx. apply filter_In in Hx.
    destruct Hx as [Hx _]. rewrite splitCompoundCommand_pieces in Hx.
    apply filter_In in Hx. exact Hx. }
  destruct (pieces_wf (length c) c [] (le_n _) (quiet_nil c)) as (W1 & W2 & W3 & _).
  rewrite splitCompoundCommand_pieces. rewrite pieces_join.
  - apply filter_fixed. intros x Hx. apply Hin. exact Hx.
  - rewrite EN. discriminate.
  - intros x Hx. destruct (Hin x Hx) as [Hp Hb]. split.
    + apply W1. exact Hp.
    + apply nonblank_nonempty. exact Hb.
  - intros x Hx. apply W2. unfold nonAllowed in Hx.
    apply removelast_filter in Hx. rewrite splitCompoundCommand_pieces in Hx.
    apply removelast_filter in Hx. exact Hx.
  - intros x Hx. apply W3. unfold nonAllowed in Hx.
    apply tl_filter in Hx. rewrite splitCompoundCommand_pieces in Hx.
    apply tl_filter in Hx. exact Hx.
Qed.

Lemma filter_filter : forall (A : Type) (g : A -> bool) l,
  filter g (filter g l) = filter g l.
Proof.
  intros A g l. apply filter_fixed. intros x Hx. apply filter_In in Hx. tauto.
Qed.

(** C8. Narrowing does not re-expand. For every command, the text made of
    its sub-commands that are not allowed, joined by the separator, splits
    again into exactly those sub-commands, in the same order, and each of
    them still classifies as not allowed: none is gained, none is lost and
    none changes its classification. *)
Theorem narrowing_is_stable : forall c : jstring,
  splitCompoundCommand (narrowed_text c) = nonAllowed c /\
  nonAllowed (narrowed_text c) = nonAllowed c /\
  Forall (fun sub => isAllowedCommand (trim sub) = false)
         (splitCompoundCommand (narrowed_text c)).
Proof.
  intros c. split; [apply split_narrowed|]. split.
  - unfold nonAllowed at 1. rewrite split_narrowed. unfold nonAllowed.
    apply filter_filter.
  - rewrite split_narrowed. apply Forall_forall. intros x Hx.
    unfold nonAllowed in Hx. apply filter_In in Hx. destruct Hx as [_ Hx].
    apply negb_true_iff in Hx. exact Hx.
Qed.

End NarrowingFacts.
Import NarrowingFacts.

Module ShapeFacts.

Lemma runs_seq : forall a b s t1 t2,
  runs a s t1 -> (forall s1, rest s1 = t1 -> runs b s1 t2) ->
  runs (RSeq a b) s t2.
Proof.
  intros a b s t1 t2 (s1 & Hm & Hr) Hb.
  destruct (Hb s1 Hr) as (s2 & Hm2 & Hr2).
  exists s2; split; [econstructor; eauto | assumption].
Qed.

Lemma runs_group : forall n a s t, runs a s t -> runs (RGroup n a) s t.
Proof.
  intros n a s t (s1 & Hm & Hr).
  exists (capture n s s1); split; [constructor; assumption | exact Hr].
Qed.

Lemma runs_alt_l : forall a b s t, runs a s t -> runs (RAlt a b) s t.
Proof. intros a b s t (s1 & Hm & Hr). exists s1; split; [apply M_alt_l|]; assumption. Qed.

Lemma runs_alt_r : forall a b s t, runs b s t -> runs (RAlt a b) s t.
Proof. intros a b s t (s1 & Hm & Hr). exists s1; split; [apply M_alt_r|]; assumption. Qed.

Lemma runs_eps : forall s t, rest s = t -> runs REps s t.
Proof. intros s t H. exists s; split; [constructor | assumption]. Qed.

Lemma runs_opt_skip : forall a s t, rest s = t -> runs (opt a) s t.
Proof. intros a s t H. apply runs_alt_r. apply runs_eps. assumption. Qed.

Lemma runs_bol : forall s t, pos s = 0 -> rest s = t -> runs RBol s t.
Proof. intros s t H0 H. exists s; split; [constructor; assumption | assumption]. Qed.

Lemma runs_eol : forall s, rest s = [] -> runs REol s [].
Proof. intros s H. exists s; split; [constructor; assumption | assumption]. Qed.

Lemma runs_lit : forall w s t, rest s = js w ++ t -> runs (lit w) s t.
Proof. intros w s t H. eexists; split; [apply lit_intro; exact H | reflexivity]. Qed.

Lemma runs_words : forall l w s t,
  In w l -> rest s = js w ++ t -> runs (words l) s t.
Proof.
  intros l w s t Hin H. eexists; split; [apply (words_intro l w s t Hin H) | reflexivity].
Qed.

Lemma runs_class : forall p s c t,
  p c = true -> rest s = c :: t -> runs (RClass p) s t.
Proof.
  intros p s c t Hp H. eexists; split; [eapply class_intro; eauto | reflexivity].
Qed.

Lemma runs_plus_class : forall p w s t,
  w <> [] -> forallb p w = true -> rest s = w ++ t -> runs (plus (RClass p)) s t.
Proof.
  intros p w s t Hn Hw H. eexists; split; [apply plus_class_intro; eauto | reflexivity].
Qed.

Lemma runs_alts : forall l r s t, In r l -> runs r s t -> runs (alts l) s t.
Proof.
  intros l r s t Hin (s1 & Hm & Hr). exists s1; split; [eapply alts_intro; eauto | assumption].
Qed.

Lemma runs_star_stop : forall a s t, rest s = t -> runs (RStar a) s t.
Proof. intros a s t H. exists s; split; [constructor | assumption]. Qed.

Lemma runs_star_step : forall a s t1 t2,
  runs a s t1 -> length t1 < length (rest s) ->
  (forall s1, rest s1 = t1 -> runs (RStar a) s1 t2) ->
  runs (RStar a) s t2.
Proof.
  intros a s t1 t2 (s1 & Hm & Hr) Hl Hs.
  destruct (Hs s1 Hr) as (s2 & Hm2 & Hr2).
  exists s2; split; [|assumption].
  eapply M_star_step; eauto. rewrite Hr. assumption.
Qed.

(** What a match leaves, for the blocks the patterns are made of. *)
Lemma lit_rest : forall w s s', matches (lit w) s s' -> rest s = js w ++ rest s'.
Proof. intros w s s' H. apply lit_elim in H. destruct H as (t & Hr & ->). exact Hr. Qed.

Lemma words_rest : forall l s s',
  matches (words l) s s' -> exists w, In w l /\ rest s = js w ++ rest s'.
Proof.
  intros l s s' H. apply words_elim in H. destruct H as (w & t & Hin & Hr & ->). eauto.
Qed.

Lemma class_rest : forall p s s',
  matches (RClass p) s s' -> exists c, p c = true /\ rest s = c :: rest s'.
Proof.
  intros p s s' H. apply class_elim in H. destruct H as (c & t & Hp & Hr & ->). eauto.
Qed.

Lemma plus_class_rest : forall p s s',
  matches (plus (RClass p)) s s' ->
  exists w, w <> [] /\ forallb p w = true /\ rest s = w ++ rest s'.
Proof.
  intros p s s' H. apply plus_class_elim in H.
  destruct H as (w & t & Hn & Hw & Hr & ->). eauto.
Qed.

Lemma group_rest : forall n a s s',
  matches (RGroup n a) s s' -> exists s1, matches a s s1 /\ rest s' = rest s1.
Proof.
  intros n a s s' H. apply group_elim in H. destruct H as (s1 & Hm & ->). eauto.
Qed.

Lemma plus_space_rest : forall s s',
  matches (plus space) s s' -> exists ws, spaces1 ws /\ rest s = ws ++ rest s'.
Proof.
  intros s s' H. apply plus_class_rest in H. destruct H as (w & Hn & Hw & Hr).
  exists w; split; [split; assumption | assumption].
Qed.

Lemma runs_plus_space : forall ws s t,
  spaces1 ws -> rest s = ws ++ t -> runs (plus space) s t.
Proof. intros ws s t [Hn Hw] H. eapply runs_plus_class; eauto. Qed.

(** *** Runs of tokens *)

Lemma token_run_app : forall a b, token_run a -> token_run b -> token_run (a ++ b).
Proof.
  intros a b Ha Hb. induction Ha; [exact Hb|].
  rewrite <- !app_assoc. constructor; auto.
Qed.

Lemma tokens_rest : forall s s',
  matches TOKENS s s' -> exists toks, token_run toks /\ rest s = toks ++ rest s'.
Proof.
  intros s s' H. unfold TOKENS in H.
  remember (RStar (RGroup 2 (RSeq (plus nonspace) (plus space)))) as r eqn:E.
  induction H; inversion E; subst.
  - exists []; split; [constructor | reflexivity].
  - clear IHmatches1. destruct (IHmatches2 eq_refl) as (toks & Ht & Hr).
    apply group_rest in H. destruct H as (s3 & Hm & Hr3).
    apply seq_elim in Hm. destruct Hm as (s4 & H4 & H5).
    apply plus_class_rest in H4. destruct H4 as (tok & Hn & Hw & Hr4).
    apply plus_space_rest in H5. destruct H5 as (ws & Hws & Hr5).
    exists (tok ++ ws ++ toks); split; [constructor; assumption|].
    rewrite Hr4, Hr5, <- Hr3, Hr, <- !app_assoc. reflexivity.
Qed.

Lemma runs_tokens : forall toks,
  token_run toks -> forall s t, rest s = toks ++ t -> runs TOKENS s t.
Proof.
  induction 1 as [|tok ws more Hn Hw Hws Hm IH]; intros s t Hr.
  - apply runs_star_stop. exact Hr.
  - unfold TOKENS. apply runs_star_step with (t1 := more ++ t).
    + apply runs_group. eapply runs_seq.
      * apply runs_plus_class with (w := tok); [exact Hn | exact Hw|].
        rewrite Hr, <- !app_assoc. reflexivity.
      * intros s1 H1. apply runs_plus_space with (ws := ws); [exact Hws | exact H1].
    + rewrite Hr, !length_app. destruct tok; [congruence | simpl; lia].
    + intros s1 H1. apply IH. exact H1.
Qed.

End ShapeFacts.
Import ShapeFacts.

Module PatternShapes.

Lemma start_rest : forall s i, rest (start_at s i) = skipn i s.
Proof. reflexivity. Qed.

(** *** The build pattern *)

Lemma build_elim : forall s s',
  matches BUILD_COMMAND_PATTERN (start_at s 0) s' -> build_shape s.
Proof.
  intros s s' H. cbv [BUILD_COMMAND_PATTERN seqs] in H.
  change (RStar (RGroup 2 (RSeq (plus nonspace) (plus space)))) with TOKENS in H.
  apply seq_elim in H. destruct H as (s0 & H0 & H). apply bol_elim in H0. destruct H0 as [_ ->].
  apply seq_elim in H. destruct H as (s1 & H1 & H).
  apply group_rest in H1. destruct H1 as (s1' & H1 & R1).
  apply words_rest in H1. destruct H1 as (pm & Hpm & Rpm).
  apply seq_elim in H. destruct H as (s2 & H2 & H).
  apply plus_space_rest in H2. destruct H2 as (ws & Hws & R2).
  apply seq_elim in H. destruct H as (s3 & H3 & H).
  apply tokens_rest in H3. destruct H3 as (toks & Htoks & R3).
  apply seq_elim in H. destruct H as (s4 & H4 & H).
  apply group_rest in H. destruct H as (s5 & H5 & R5).
  apply words_rest in H5. destruct H5 as (verb & Hverb & Rverb).
  rewrite start_rest in Rpm. simpl in Rpm.
  apply opt_elim in H4. destruct H4 as [H4| ->].
  - apply group_rest in H4. destruct H4 as (s6 & H6 & R6).
    apply seq_elim in H6. destruct H6 as (s7 & H7 & H8).
    apply lit_rest in H7. apply plus_space_rest in H8. destruct H8 as (ws' & Hws' & R8).
    exists pm, ws, (toks ++ (js "run" ++ ws' ++ [])), verb, (rest s5).
    split; [exact Hpm|]. split; [exact Hws|]. split; [|split; [exact Hverb|]].
    + apply token_run_app; [exact Htoks|].
      constructor; [discriminate | reflexivity | exact Hws' | constructor].
    + rewrite Rpm, <- R1, R2, R3, H7, R8, <- R6, Rverb.
      rewrite app_nil_r, <- !app_assoc. reflexivity.
  - exists pm, ws, toks, verb, (rest s5).
    split; [exact Hpm|]. split; [exact Hws|]. split; [exact Htoks|]. split; [exact Hverb|].
    rewrite Rpm, <- R1, R2, R3, Rverb. reflexivity.
Qed.

Lemma build_intro : forall s,
  build_shape s -> exists s', matches BUILD_COMMAND_PATTERN (start_at s 0) s'.
Proof.
  intros s (pm & ws & toks & verb & tail & Hpm & Hws & Htoks & Hverb & ->).
  assert (R : runs BUILD_COMMAND_PATTERN
                (start_at (js pm ++ ws ++ toks ++ js verb ++ tail) 0) tail).
  { cbv [BUILD_COMMAND_PATTERN seqs].
    change (RStar (RGroup 2 (RSeq (plus nonspace) (plus space)))) with TOKENS.
    eapply runs_seq; [apply runs_bol; reflexivity|]. intros s0 R0.
    eapply runs_seq; [apply runs_group; apply (runs_words _ pm _ _ Hpm R0)|]. intros s1 R1.
    eapply runs_seq; [apply (runs_plus_space ws _ _ Hws R1)|]. intros s2 R2.
    eapply runs_seq; [apply (runs_tokens toks Htoks _ _ R2)|]. intros s3 R3.
    eapply runs_seq; [apply runs_opt_skip; exact R3|]. intros s4 R4.
    apply runs_group. apply (runs_words _ verb _ _ Hverb R4). }
  destruct R as (s' & Hm & _). eauto.
Qed.

Lemma build_iff : forall s,
  test BUILD_COMMAND_PATTERN s = true <-> build_shape s.
Proof.
  intros s. rewrite (test_anchored_iff BUILD_COMMAND_PATTERN s eq_refl). split.
  - intros [s' H]. eapply build_elim; eauto.
  - apply build_intro.
Qed.

(** *** The tool pattern *)

Lemma tools_rest : forall s s',
  matches (alts TOOLS) s s' ->
  exists name tail, In name TOOL_NAMES /\ rest s = js name ++ tail.
Proof.
  intros s s' H. apply alts_elim in H. destruct H as (r & Hin & Hm).
  unfold TOOLS in Hin. apply in_app_or in Hin. destruct Hin as [Hin|Hin].
  - apply in_map_iff in Hin. destruct Hin as (w & <- & Hw).
    apply lit_rest in Hm. exists w, (rest s'); split; [|exact Hm].
    unfold TOOL_NAMES. apply in_or_app. left; exact Hw.
  - apply in_app_or in Hin. destruct Hin as [Hin|Hin].
    + destruct Hin as [<-|[]]. unfold python3_opt in Hm.
      apply seq_elim in Hm. destruct Hm as (s1 & H1 & _). apply lit_rest in H1.
      exists "python", (rest s1); split; [|exact H1].
      unfold TOOL_NAMES. apply in_or_app. right. left; reflexivity.
    + apply in_map_iff in Hin. destruct Hin as (w & <- & Hw).
      apply lit_rest in Hm. exists w, (rest s'); split; [|exact Hm].
      unfold TOOL_NAMES. apply in_or_app. right. apply in_or_app. right; exact Hw.
Qed.

Lemma runs_tools : forall name tail,
  In name TOOL_NAMES ->
  exists t, forall s, rest s = js name ++ tail -> runs (alts TOOLS) s t.
Proof.
  intros name tail Hin. unfold TOOL_NAMES in Hin.
  apply in_app_or in Hin. destruct Hin as [Hin|Hin].
  - exists tail. intros s R.
    apply runs_alts with (r := lit name); [|apply runs_lit; exact R].
    unfold TOOLS. apply in_or_app. left. apply in_map. exact Hin.
  - apply in_app_or in Hin. destruct Hin as [Hin|Hin].
    + assert (P : exists tail', js name ++ tail = js "python" ++ tail').
      { destruct Hin as [<-|[<-|[]]]; [exists tail; reflexivity|].
        exists (js "3" ++ tail). reflexivity. }
      destruct P as (tail' & E).
      exists tail'. intros s R. rewrite E in R.
      apply runs_alts with (r := python3_opt).
      * unfold TOOLS. apply in_or_app. right. left; reflexivity.
      * unfold python3_opt. eapply runs_seq; [apply runs_lit; exact R|].
        intros s1 R1. apply runs_opt_skip. exact R1.
    + exists tail. intros s R.
      apply runs_alts with (r := lit name); [|apply runs_lit; exact R].
      unfold TOOLS. apply in_or_app. right. apply in_or_app. right.
      apply in_map. exact Hin.
Qed.

Lemma tool_elim : forall s s',
  matches TOOL_COMMAND_PATTERN (start_at s 0) s' -> tool_shape s.
Proof.
  intros s s' H. cbv [TOOL_COMMAND_PATTERN seqs] in H.
  apply seq_elim in H. destruct H as (s0 & H0 & H). apply bol_elim in H0. destruct H0 as [_ ->].
  apply seq_elim in H. destruct H as (s1 & H1 & H).
  apply group_rest in H. destruct H as (s2 & H2 & _).
  apply tools_rest in H2. destruct H2 as (name & tail & Hin & R).
  exists name, tail. split; [exact Hin|].
  apply opt_elim in H1. destruct H1 as [H1| ->].
  - apply group_rest in H1. destruct H1 as (s3 & H3 & R3).
    apply lit_rest in H3. rewrite start_rest in H3. simpl in H3.
    right. rewrite H3, <- R3, R. reflexivity.
  - left. exact R.
Qed.

Lemma tool_intro : forall s,
  tool_shape s -> exists s', matches TOOL_COMMAND_PATTERN (start_at s 0) s'.
Proof.
  intros s (name & tail & Hin & Hs).
  destruct (runs_tools name tail Hin) as (t & Ht).
  assert (R : runs TOOL_COMMAND_PATTERN (start_at s 0) t).
  { cbv [TOOL_COMMAND_PATTERN seqs]. destruct Hs as [->| ->].
    - eapply runs_seq; [apply runs_bol; reflexivity|]. intros s0 R0.
      eapply runs_seq; [apply runs_opt_skip; exact R0|]. intros s1 R1.
      apply runs_group. apply Ht. exact R1.
    - eapply runs_seq; [apply runs_bol; reflexivity|]. intros s0 R0.
      eapply runs_seq; [apply runs_alt_l; apply runs_group; apply runs_lit; exact R0|].
      intros s1 R1. apply runs_group. apply Ht. exact R1. }
  destruct R as (s' & Hm & _). eauto.
Qed.

Lemma tool_iff : forall s,
  test TOOL_COMMAND_PATTERN s = true <-> tool_shape s.
Proof.
  intros s. rewrite (test_anchored_iff TOOL_COMMAND_PATTERN s eq_refl). split.
  - intros [s' H]. eapply tool_elim; eauto.
  - apply tool_intro.
Qed.

(** *** The pattern of the executable directory *)

Lemma slash_rest : forall s s',
  matches slash s s' -> exists c, is_sep c = true /\ rest s = c :: rest s'.
Proof. intros s s' H. unfold slash in H. apply class_rest in H. exact H. Qed.

Lemma runs_slash : forall s c t,
  is_sep c = true -> rest s = c :: t -> runs slash s t.
Proof. intros s c t Hc R. unfold slash. eapply runs_class; eauto. Qed.

Lemma venv_exec_elim : forall s i s',
  matches VENV_EXECUTABLE_PATTERN (start_at s i) s' -> venv_exec_shape s.
Proof.
  intros s i s' H. cbv [VENV_EXECUTABLE_PATTERN seqs] in H.
  apply seq_elim in H. destruct H as (s1 & H1 & H).
  apply group_rest in H1. destruct H1 as (sA & HA & RA).
  apply seq_elim in H. destruct H as (s2 & H2 & H).
  apply seq_elim in H. destruct H as (s3 & H3 & H). apply lit_rest in H3.
  apply seq_elim in H. destruct H as (s4 & H4 & H).
  apply slash_rest in H4. destruct H4 as (c1 & Hc1 & R4).
  apply seq_elim in H. destruct H as (s5 & H5 & H).
  apply group_rest in H5. destruct H5 as (s6 & H6 & R6).
  apply words_rest in H6. destruct H6 as (dir & Hdir & Rdir).
  apply slash_rest in H. destruct H as (c2 & Hc2 & R7).
  assert (B : exists before,
            (before = [] \/ exists b c, before = b ++ [c] /\ is_sep c = true) /\
            s = before ++ rest s1).
  { apply alt_elim in HA. destruct HA as [HA|HA].
    - apply bol_elim in HA. destruct HA as [P ->]. simpl in P. subst i.
      exists []; split; [left; reflexivity|]. rewrite RA. reflexivity.
    - apply slash_rest in HA. destruct HA as (c & Hc & Rc).
      rewrite start_rest in Rc.
      exists (firstn i s ++ [c]); split; [right; eauto|].
      rewrite <- app_assoc. simpl. rewrite RA, <- Rc, firstn_skipn. reflexivity. }
  destruct B as (before & Hb & Hs).
  assert (D : exists dot, (dot = [] \/ dot = js ".") /\ rest s1 = dot ++ rest s2).
  { apply opt_elim in H2. destruct H2 as [H2| ->].
    - apply lit_rest in H2. exists (js "."); split; [right; reflexivity | exact H2].
    - exists []; split; [left; reflexivity | reflexivity]. }
  destruct D as (dot & Hd & Rd).
  exists before, dot, dir, c1, c2, (rest s').
  split; [exact Hb|]. split; [exact Hd|]. split; [exact Hdir|].
  split; [exact Hc1|]. split; [exact Hc2|].
  rewrite Hs, Rd, H3, R4, Rdir, <- R6, R7. reflexivity.
Qed.

Lemma venv_exec_intro : forall s,
  venv_exec_shape s ->
  exists i s', i <= length s /\ matches VENV_EXECUTABLE_PATTERN (start_at s i) s'.
Proof.
  intros s (before & dot & dir & c1 & c2 & tail & Hb & Hd & Hdir & Hc1 & Hc2 & Hs).
  set (body := js "venv" ++ [c1] ++ js dir ++ [c2] ++ tail) in *.
  assert (T : forall s1, rest s1 = dot ++ body ->
                runs (RSeq (opt (lit "."))
                        (RSeq (lit "venv")
                           (RSeq slash (RSeq (RGroup 2 (words ["bin"; "Scripts"])) slash))))
                     s1 tail).
  { intros s1 R1.
    eapply runs_seq with (t1 := body).
    - destruct Hd as [->| ->].
      + apply runs_opt_skip. exact R1.
      + apply runs_alt_l. apply runs_lit. exact R1.
    - intros s2 R2. eapply runs_seq; [apply runs_lit; exact R2|]. intros s3 R3.
      eapply runs_seq; [apply (runs_slash _ c1 _ Hc1 R3)|]. intros s4 R4.
      eapply runs_seq; [apply runs_group; apply (runs_words _ dir _ _ Hdir R4)|].
      intros s5 R5. apply (runs_slash _ c2 _ Hc2 R5). }
  destruct Hb as [->|(b & c & -> & Hc)].
  - exists 0.
    assert (R : runs VENV_EXECUTABLE_PATTERN (start_at s 0) tail).
    { cbv [VENV_EXECUTABLE_PATTERN seqs].
      eapply runs_seq with (t1 := dot ++ body).
      - apply runs_group. apply runs_alt_l. apply runs_bol; [reflexivity|].
        rewrite Hs. reflexivity.
      - exact T. }
    destruct R as (s' & Hm & _). exists s'. split; [lia | exact Hm].
  - exists (length b).
    assert (Sk : skipn (length b) s = c :: dot ++ body).
    { rewrite Hs, <- app_assoc, skipn_app, skipn_all, Nat.sub_diag. reflexivity. }
    assert (R : runs VENV_EXECUTABLE_PATTERN (start_at s (length b)) tail).
    { cbv [VENV_EXECUTABLE_PATTERN seqs].
      eapply runs_seq with (t1 := dot ++ body).
      - apply runs_group. apply runs_alt_r. apply (runs_slash _ c _ Hc). exact Sk.
      - exact T. }
    destruct R as (s' & Hm & _). exists s'. split; [|exact Hm].
    rewrite Hs, !length_app. lia.
Qed.

Lemma venv_exec_iff : forall s,
  test VENV_EXECUTABLE_PATTERN s = true <-> venv_exec_shape s.
Proof.
  intros s. rewrite test_true_iff. split.
  - intros (i & s' & _ & H). eapply venv_exec_elim; eauto.
  - apply venv_exec_intro.
Qed.

(** *** The creation pattern *)

Lemma flags_rest : forall s s',
  matches FLAGS s s' -> exists flags, flag_run flags /\ rest s = flags ++ rest s'.
Proof.
  intros s s' H. unfold FLAGS in H.
  remember (RStar (RGroup 2 (RSeq (lit "-")
              (RSeq (plus (RClass (fun c => is_word c || N.eqb c 46))) (plus space)))))
    as r eqn:E.
  induction H; inversion E; subst.
  - exists []; split; [constructor | reflexivity].
  - clear IHmatches1. destruct (IHmatches2 eq_refl) as (flags & Hf & Hr).
    apply group_rest in H. destruct H as (s3 & Hm & Hr3).
    apply seq_elim in Hm. destruct Hm as (s4 & H4 & Hm). apply lit_rest in H4.
    apply seq_elim in Hm. destruct Hm as (s5 & H5 & H6).
    apply plus_class_rest in H5. destruct H5 as (w & Hn & Hw & Hr5).
    apply plus_space_rest in H6. destruct H6 as (ws & Hws & Hr6).
    exists (js "-" ++ w ++ ws ++ flags); split; [constructor; assumption|].
    rewrite H4, Hr5, Hr6, <- Hr3, Hr, <- !app_assoc. reflexivity.
Qed.

Lemma runs_flags : forall flags,
  flag_run flags -> forall s t, rest s = flags ++ t -> runs FLAGS s t.
Proof.
  induction 1 as [|w ws more Hn Hw Hws Hm IH]; intros s t Hr.
  - apply runs_star_stop. exact Hr.
  - unfold FLAGS. apply runs_star_step with (t1 := more ++ t).
    + apply runs_group. eapply runs_seq.
      * apply runs_lit. rewrite Hr, <- !app_assoc. reflexivity.
      * intros s1 H1. eapply runs_seq.
        -- apply runs_plus_class with (w := w); [exact Hn | exact Hw | exact H1].
        -- intros s2 H2. apply runs_plus_space with (ws := ws); [exact Hws | exact H2].
    + rewrite Hr, !length_app. simpl. lia.
    + intros s1 H1. apply IH. exact H1.
Qed.

Lemma venv_create_elim : forall s s',
  matches VENV_CREATION_PATTERN (start_at s 0) s' -> venv_create_shape s.
Proof.
  intros s s' H. cbv [VENV_CREATION_PATTERN alts seqs] in H.
  change (RStar (RGroup 2 (RSeq (lit "-")
            (RSeq (plus (RClass (fun c => is_word c || N.eqb c 46))) (plus space)))))
    with FLAGS in H.
  apply alt_elim in H. destruct H as [H|H]; [|apply alt_elim in H; destruct H as [H|H]].
  - left.
    apply seq_elim in H. destruct H as (s0 & H0 & H). apply bol_elim in H0. destruct H0 as [_ ->].
    apply seq_elim in H. destruct H as (s1 & H1 & H).
    apply group_rest in H1. destruct H1 as (sA & HA & RA).
    assert (P : exists py, In py ["python"; "python3"; "py"] /\ s = js py ++ rest s1).
    { rewrite RA. apply alt_elim in HA. destruct HA as [HA|HA].
      - unfold python3_opt in HA. apply seq_elim in HA. destruct HA as (sB & HB & HC).
        apply lit_rest in HB. rewrite start_rest in HB. simpl in HB.
        apply opt_elim in HC. destruct HC as [HC| ->].
        + apply lit_rest in HC. exists "python3"; split; [right; left; reflexivity|].
          rewrite HB, HC. reflexivity.
        + exists "python"; split; [left; reflexivity | exact HB].
      - apply lit_rest in HA. exists "py"; split; [right; right; left; reflexivity | exact HA]. }
    destruct P as (py & Hpy & Rpy).
    apply seq_elim in H. destruct H as (s2 & H2 & H).
    apply plus_space_rest in H2. destruct H2 as (ws & Hws & R2).
    apply seq_elim in H. destruct H as (s3 & H3 & H).
    apply flags_rest in H3. destruct H3 as (flags & Hflags & R3).
    apply seq_elim in H. destruct H as (s4 & H4 & H). apply lit_rest in H4.
    apply seq_elim in H. destruct H as (s5 & H5 & H).
    apply plus_space_rest in H5. destruct H5 as (ws2 & Hws2 & R5).
    apply seq_elim in H. destruct H as (s6 & H6 & H). apply lit_rest in H6.
    apply plus_space_rest in H. destruct H as (ws3 & Hws3 & R7).
    exists py, ws, flags, ws2, ws3, (rest s').
    split; [exact Hpy|]. split; [exact Hws|]. split; [exact Hflags|].
    split; [exact Hws2|]. split; [exact Hws3|].
    rewrite Rpy, R2, R3, H4, R5, H6, R7. reflexivity.
  - right; left.
    apply seq_elim in H. destruct H as (s0 & H0 & H). apply bol_elim in H0. destruct H0 as [_ ->].
    apply seq_elim in H. destruct H as (s1 & H1 & H). apply lit_rest in H1.
    rewrite start_rest in H1. simpl in H1.
    apply seq_elim in H. destruct H as (s2 & H2 & H).
    apply plus_space_rest in H2. destruct H2 as (ws & Hws & R2).
    apply seq_elim in H. destruct H as (s3 & H3 & H). apply lit_rest in H3.
    apply group_rest in H. destruct H as (s4 & H4 & _).
    exists ws, (rest s3). split; [exact Hws|]. split.
    + apply alt_elim in H4. destruct H4 as [H4|H4].
      * unfold space in H4. apply class_rest in H4. destruct H4 as (c & Hc & Rc).
        right. exists c, (rest s4). split; assumption.
      * apply eol_elim in H4. destruct H4 as [R4 _]. left; exact R4.
    + rewrite H1, R2, H3. reflexivity.
  - right; right.
    apply seq_elim in H. destruct H as (s0 & H0 & H). apply bol_elim in H0. destruct H0 as [_ ->].
    apply seq_elim in H. destruct H as (s1 & H1 & H). apply lit_rest in H1.
    rewrite start_rest in H1. simpl in H1.
    apply plus_space_rest in H. destruct H as (ws & Hws & R2).
    exists ws, (rest s'). split; [exact Hws|]. rewrite H1, R2. reflexivity.
Qed.

Lemma venv_create_intro : forall s,
  venv_create_shape s -> exists s', matches VENV_CREATION_PATTERN (start_at s 0) s'.
Proof.
  intros s H.
  assert (R : exists t, runs VENV_CREATION_PATTERN (start_at s 0) t).
  { cbv [VENV_CREATION_PATTERN alts seqs].
    change (RStar (RGroup 2 (RSeq (lit "-")
              (RSeq (plus (RClass (fun c => is_word c || N.eqb c 46))) (plus space)))))
      with FLAGS.
    destruct H as [H|[H|H]].
    - destruct H as (py & ws & flags & ws2 & ws3 & tail & Hpy & Hws & Hflags & Hws2 & Hws3 & ->).
      exists tail. apply runs_alt_l.
      eapply runs_seq; [apply runs_bol; reflexivity|]. intros s0 R0.
      eapply runs_seq with (t1 := ws ++ flags ++ js "-m" ++ ws2 ++ js "venv" ++ ws3 ++ tail).
      + apply runs_group.
        destruct Hpy as [<-|[<-|[<-|[]]]].
        * apply runs_alt_l. unfold python3_opt.
          eapply runs_seq; [apply runs_lit; exact R0|].
          intros s1 R1. apply runs_opt_skip. exact R1.
        * apply runs_alt_l. unfold python3_opt.
          eapply runs_seq with (t1 := js "3" ++ ws ++ flags ++ js "-m" ++ ws2 ++ js "venv" ++ ws3 ++ tail).
          -- apply runs_lit. rewrite R0. reflexivity.
          -- intros s1 R1. apply runs_alt_l. apply runs_lit. exact R1.
        * apply runs_alt_r. apply runs_lit. exact R0.
      + intros s1 R1.
        eapply runs_seq; [apply (runs_plus_space ws _ _ Hws R1)|]. intros s2 R2.
        eapply runs_seq; [apply (runs_flags flags Hflags _ _ R2)|]. intros s3 R3.
        eapply runs_seq; [apply runs_lit; exact R3|]. intros s4 R4.
        eapply runs_seq; [apply (runs_plus_space ws2 _ _ Hws2 R4)|]. intros s5 R5.
        eapply runs_seq; [apply runs_lit; exact R5|]. intros s6 R6.
        apply (runs_plus_space ws3 _ _ Hws3 R6).
    - destruct H as (ws & tail & Hws & Ht & ->).
      exists (tl tail). apply runs_alt_r. apply runs_alt_l.
      eapply runs_seq; [apply runs_bol; reflexivity|]. intros s0 R0.
      eapply runs_seq; [apply runs_lit; exact R0|]. intros s1 R1.
      eapply runs_seq; [apply (runs_plus_space ws _ _ Hws R1)|]. intros s2 R2.
      eapply runs_seq; [apply runs_lit; exact R2|]. intros s3 R3.
      apply runs_group. destruct Ht as [->|(c & t & -> & Hc)].
      + apply runs_alt_r. apply runs_eol. exact R3.
      + apply runs_alt_l. unfold space. eapply runs_class; eauto.
    - destruct H as (ws & tail & Hws & ->).
      exists tail. apply runs_alt_r. apply runs_alt_r.
      eapply runs_seq; [apply runs_bol; reflexivity|]. intros s0 R0.
      eapply runs_seq; [apply runs_lit; exact R0|]. intros s1 R1.
      apply (runs_plus_space ws _ _ Hws R1). }
  destruct R as (t & s' & Hm & _). eauto.
Qed.

Lemma venv_create_iff : forall s,
  test VENV_CREATION_PATTERN s = true <-> venv_create_shape s.
Proof.
  intros s. rewrite (test_anchored_iff VENV_CREATION_PATTERN s eq_refl). split.
  - intros [s' H]. eapply venv_create_elim; eauto.
  - apply venv_create_intro.
Qed.

End PatternShapes.
Import PatternShapes.

Module ClassifyFacts.

(** [isAllowedCommand] is the four pattern tests on the normalized text. *)
Lemma isAllowedCommand_tests : forall c,
  isAllowedCommand c
  = test BUILD_COMMAND_PATTERN (stripCommandPrefix c)
    || test TOOL_COMMAND_PATTERN (stripCommandPrefix c)
    || test VENV_EXECUTABLE_PATTERN (stripCommandPrefix c)
    || test VENV_CREATION_PATTERN (stripCommandPrefix c).
Proof.
  intros c. unfold isAllowedCommand, isBuildCommand, isVenvExecutable,
    isVenvCreationCommand.
  rewrite (stripCommandPrefix_trimmed c).
  destruct (stripCommandPrefix c) as [|x s]; reflexivity.
Qed.

(** The four tests, as shapes. *)
Lemma isAllowedCommand_shape : forall c : jstring,
  isAllowedCommand c = true <-> allow_shape (stripCommandPrefix c).
Proof.
  intros c. rewrite isAllowedCommand_tests. unfold allow_shape.
  rewrite !orb_true_iff.
  rewrite build_iff, tool_iff, venv_exec_iff, venv_create_iff. tauto.
Qed.

End ClassifyFacts.
Import ClassifyFacts.

Module TokenFacts.

Lemma chunks_space : forall c t,
  is_space c = true -> chunks (c :: t) = [] :: chunks t.
Proof. intros c t H. unfold chunks. simpl. rewrite H. reflexivity. Qed.

Lemma chunks_nonspace : forall c t,
  is_space c = false ->
  chunks (c :: t) = (c :: hd [] (chunks t)) :: tl (chunks t).
Proof.
  intros c t H. unfold chunks. simpl. rewrite H.
  destruct (fold_right _ _ t); reflexivity.
Qed.

Lemma words_of_space : forall c t,
  is_space c = true -> words_of (c :: t) = words_of t.
Proof.
  intros c t H. unfold words_of. fold (chunks (c :: t)). fold (chunks t).
  rewrite chunks_space by assumption. reflexivity.
Qed.

Lemma words_of_drop : forall s, words_of (drop_while is_space s) = words_of s.
Proof.
  induction s as [|c t IH]; [reflexivity|]. simpl.
  destruct (is_space c) eqn:E; [|reflexivity].
  rewrite words_of_space by assumption. exact IH.
Qed.

(** The first chunk is the longest prefix free of white space. *)
Lemma chunks_head : forall s,
  exists w r more,
    chunks s = w :: more /\ s = w ++ r /\
    forallb (fun c => negb (is_space c)) w = true /\
    ((r = [] /\ more = []) \/
     (exists c r', r = c :: r' /\ is_space c = true /\ more = chunks r')).
Proof.
  induction s as [|c t IH].
  - exists [], [], []. repeat split. left; split; reflexivity.
  - destruct (is_space c) eqn:E.
    + exists [], (c :: t), (chunks t). rewrite chunks_space by assumption.
      repeat split. right. exists c, t. repeat split; assumption.
    + destruct IH as (w & r & more & Hc & Hs & Hw & Hr).
      exists (c :: w), r, more. rewrite chunks_nonspace by assumption.
      rewrite Hc. simpl. rewrite E, Hw, Hs. repeat split. exact Hr.
Qed.

(** The first token of a text that does not start with white space. *)
Lemma words_of_first : forall s first args,
  words_of s = first :: args -> no_leading_space s ->
  exists r, s = first ++ r /\ first <> [] /\
            forallb (fun c => negb (is_space c)) first = true /\
            (r = [] \/ exists c r', r = c :: r' /\ is_space c = true) /\
            words_of r = args.
Proof.
  intros s first args H L.
  destruct (chunks_head s) as (w & r & more & Hc & Hs & Hw & Hr).
  unfold words_of in H. fold (chunks s) in H. rewrite Hc in H.
  destruct w as [|x w].
  - exfalso. simpl in Hs. subst r.
    destruct Hr as [[-> ->]|(c & r' & -> & Sp & ->)].
    + simpl in H. discriminate.
    + simpl in L. rewrite Sp in L. discriminate.
  - simpl in H. inversion H; subst first. exists r.
    split; [exact Hs|]. split; [discriminate|]. split; [exact Hw|].
    destruct Hr as [[-> ->]|(c & r' & -> & Sp & ->)].
    + split; [left; reflexivity | reflexivity].
    + split; [right; eauto|]. rewrite words_of_space by assumption. reflexivity.
Qed.

Lemma drop_while_spaces1 : forall c r,
  is_space c = true ->
  exists ws, spaces1 ws /\ c :: r = ws ++ drop_while is_space (c :: r).
Proof.
  intros c r Sp. destruct (drop_while_split is_space (c :: r)) as (ws & Hs & Hw).
  exists ws. split; [|exact Hs]. split; [|exact Hw].
  intro E. subst ws. simpl in Hs. rewrite Sp in Hs.
  pose proof (drop_while_length is_space r) as L. rewrite <- Hs in L. simpl in L. lia.
Qed.

Lemma drop_while_no_leading : forall s, no_leading_space (drop_while is_space s).
Proof.
  induction s as [|c t IH]; simpl; [exact I|].
  destruct (is_space c) eqn:E; [exact IH | simpl; exact E].
Qed.

(** A token among the arguments is reached through white space and a run
    of tokens. *)
Lemma argument_reached : forall n r v,
  length r <= n ->
  (r = [] \/ exists c r', r = c :: r' /\ is_space c = true) ->
  In v (words_of r) ->
  exists ws toks tail, spaces1 ws /\ token_run toks /\ r = ws ++ toks ++ v ++ tail.
Proof.
  induction n as [|n IH]; intros r v Hn Hr Hin.
  - destruct r; [destruct Hin | simpl in Hn; lia].
  - destruct Hr as [->|(c & r' & -> & Sp)]; [destruct Hin|].
    destruct (drop_while_spaces1 c r' Sp) as (ws & Hws & Hs).
    rewrite <- words_of_drop in Hin.
    destruct (words_of (drop_while is_space (c :: r'))) as [|first args] eqn:W;
      [destruct Hin|].
    destruct (words_of_first _ _ _ W (drop_while_no_leading _))
      as (r2 & Hs2 & Hn1 & Hw1 & Hr2 & W2).
    destruct Hin as [<-|Hin].
    + exists ws, [], r2. split; [exact Hws|]. split; [constructor|].
      rewrite Hs at 1. rewrite Hs2. reflexivity.
    + assert (L2 : length r2 <= n).
      { apply (f_equal (@length N)) in Hs. rewrite Hs2, !length_app in Hs.
        destruct Hws as [Hne _]. destruct ws; [congruence|].
        destruct first; [congruence|]. simpl in *. lia. }
      rewrite <- W2 in Hin.
      destruct (IH r2 v L2 Hr2 Hin) as (ws2 & toks & tail & Hws2 & Htoks & E2).
      exists ws, (first ++ ws2 ++ toks), tail.
      split; [exact Hws|]. split; [constructor; assumption|].
      rewrite Hs at 1. rewrite Hs2, E2. rewrite <- !app_assoc. reflexivity.
Qed.

Lemma is_token_in : forall names t,
  is_token names t = true -> exists n, In n names /\ t = js n.
Proof.
  intros names t H. unfold is_token in H. apply existsb_exists in H.
  destruct H as (n & Hin & E). apply jstring_eqb_eq in E. eauto.
Qed.

Lemma trimmed_no_leading : forall s, trim s = s -> no_leading_space s.
Proof.
  intros [|c t] H; simpl; [exact I|].
  destruct (is_space c) eqn:E; [|reflexivity]. exfalso.
  unfold trim, trim_start in H. simpl in H. rewrite E in H.
  pose proof (trim_end_length (drop_while is_space t)) as L1.
  pose proof (drop_while_length is_space t) as L2.
  rewrite H in L1. simpl in L1. lia.
Qed.

(** A trimmed text whose leading tokens are in the grammar has one of the
    shapes the patterns accept. *)
Lemma leading_tokens_shape : forall s,
  trim s = s -> leading_tokens_allowed s = true -> allow_shape s.
Proof.
  intros s T H. unfold leading_tokens_allowed in H.
  destruct (words_of s) as [|first args] eqn:W; [discriminate|].
  destruct (words_of_first _ _ _ W (trimmed_no_leading s T))
    as (r & Hs & Hn & Hw & Hr & Wr).
  apply orb_true_iff in H. destruct H as [H|H];
    [apply orb_true_iff in H; destruct H as [H|H];
     [apply orb_true_iff in H; destruct H as [H|H]|]|].
  - left. apply andb_true_iff in H. destruct H as [Hpm Hv].
    apply is_token_in in Hpm. destruct Hpm as (pm & Hpm & ->).
    apply existsb_exists in Hv. destruct Hv as (v & Hin & Hv).
    apply is_token_in in Hv. destruct Hv as (verb & Hverb & ->).
    rewrite <- Wr in Hin.
    destruct (argument_reached (length r) r (js verb) (le_n _) Hr Hin)
      as (ws & toks & tail & Hws & Htoks & ->).
    exists pm, ws, toks, verb, tail. repeat split; try assumption; apply Hws.
  - right; left. apply is_token_in in H. destruct H as (name & Hname & E).
    exists name, r. split; [exact Hname|].
    unfold without_dot_slash in E. rewrite Hs.
    destruct first as [|a [|b first]]; try (left; rewrite E; reflexivity).
    destruct (N.eqb_spec a 46) as [->|Na]; simpl in E.
    + destruct (N.eqb_spec b 47) as [->|Nb]; simpl in E.
      * right. rewrite E. reflexivity.
      * left. rewrite E. reflexivity.
    + left. rewrite E. reflexivity.
  - right; right; left. apply venv_exec_iff in H.
    destruct H as (before & dot & dir & c1 & c2 & tail & Hb & Hd & Hdir & Hc1 & Hc2 & E).
    exists before, dot, dir, c1, c2, (tail ++ r).
    repeat split; try assumption. rewrite Hs, E, <- !app_assoc. reflexivity.
  - right; right; right. apply venv_create_iff. exact H.
Qed.

(** What [isAllowedCommand] computes. It returns true exactly when the
    normalized sub-command has one of four shapes, read on its text:
    it begins with a package manager, white space, any tokens and text
    that begins with a verb of the safe set; or it begins, after an
    optional dot and slash, with the name of a listed binary; or it holds,
    at its start or after a path separator, the executable directory of an
    isolated environment; or it begins with a command that creates one.
    No token boundary is required after the verb or the binary name, so
    every sub-command whose leading tokens are in the grammar, read token
    by token, is allowed, and so are others that begin like one. *)
Theorem classify_iff_shape : forall c : jstring,
  (isAllowedCommand c = true <-> allow_shape (stripCommandPrefix c)) /\
  (leading_tokens_allowed (stripCommandPrefix c) = true ->
   isAllowedCommand c = true).
Proof.
  intros c. split; [apply isAllowedCommand_shape|].
  intros H. apply isAllowedCommand_shape.
  apply leading_tokens_shape; [apply stripCommandPrefix_trimmed | exact H].
Qed.

(** The theorem on a filtered build and on a plain read. *)
Lemma classify_iff_shape_witness :
  isAllowedCommand (js "NODE_ENV=production pnpm --filter web run build") = true.
Proof.
  apply (proj2 (proj1 (classify_iff_shape
                         (js "NODE_ENV=production pnpm --filter web run build")))).
  left. exists "pnpm", (js " "), (js "--filter web run "), "build", [].
  split; [right; left; reflexivity|].
  split; [split; [discriminate | reflexivity]|].
  split.
  - apply (@TR_cons (js "--filter") (js " ") (js "web run "));
      [discriminate | reflexivity | split; [discriminate | reflexivity]|].
    apply (@TR_cons (js "web") (js " ") (js "run "));
      [discriminate | reflexivity | split; [discriminate | reflexivity]|].
    apply (@TR_cons (js "run") (js " ") []);
      [discriminate | reflexivity | split; [discriminate | reflexivity]|].
    constructor.
  - split; [left; reflexivity|]. vm_compute. reflexivity.
Defined.

(** C4 on the code. Sub-commands whose leading tokens are outside the
    allow-grammar classify as allowed: a read of a blocked path with a
    path below an executable directory among its arguments, binaries whose
    names begin with a listed name, and a verb that begins with a safe
    verb.  The guard then returns the recognized-tooling decision for the
    first without loading a rule or extracting a path, where the same read
    alone is blocked.  The pattern of the commands that create an isolated
    environment does ask for the end of the token. *)
Theorem allow_grammar_is_overrun :
  (leading_tokens_allowed
     (stripCommandPrefix (js "cat ../../etc/secrets ./venv/bin/x")) = false /\
   isVenvExecutable (js "cat ../../etc/secrets ./venv/bin/x") = true /\
   isAllowedCommand (js "cat ../../etc/secrets ./venv/bin/x") = true) /\
  checkScoutBlock SpecModel.modules (JStr (js "Bash"))
    (JObj [(js "command", JStr (js "cat ../../etc/secrets ./venv/bin/x"))])
    no_options
  = Some ({| blocked := false; path := None; pattern := None; reason := None;
             isBroadPattern := None; suggestions := None;
             isAllowedCommand_flag := Some true |}, []) /\
  (exists d calls,
     checkScoutBlock SpecModel.modules (JStr (js "Bash"))
       (JObj [(js "command", JStr (js "cat ../../etc/secrets"))]) no_options
     = Some (d, calls) /\
     blocked d = true /\ path d = Some (js "../../etc/secrets")) /\
  (leading_tokens_allowed (stripCommandPrefix (js "gocat ../../etc/secrets")) = false /\
   isBuildCommand (js "gocat ../../etc/secrets") = true /\
   isAllowedCommand (js "gocat ../../etc/secrets") = true) /\
  (leading_tokens_allowed (stripCommandPrefix (js "gopher --version")) = false /\
   isAllowedCommand (js "gopher --version") = true) /\
  (leading_tokens_allowed (stripCommandPrefix (js "npm cinema")) = false /\
   isAllowedCommand (js "npm cinema") = true) /\
  (leading_tokens_allowed (stripCommandPrefix (js "ls a/venv/bin/x")) = false /\
   isAllowedCommand (js "ls a/venv/bin/x") = true) /\
  (isVenvCreationCommand (js "uv venv") = true /\
   isVenvCreationCommand (js "uv venvx") = false).
Proof.
  split; [repeat split; vm_compute; reflexivity|].
  split; [vm_compute; reflexivity|].
  split.
  { eexists _, _. split; [vm_compute; reflexivity|]. split; reflexivity. }
  repeat split; vm_compute; reflexivity.
Qed.

End TokenFacts.
Import TokenFacts.

Module MoreFacts.

(** X1. Every sub-command that [splitCompoundCommand] returns holds a code unit
    that is not white space and none of the operators. *)
Theorem sub_commands_are_operator_free : forall (c x : jstring),
  In x (splitCompoundCommand c) ->
  nonblank x = true /\ has_operator x = false.
Proof.
  intros c x H. rewrite splitCompoundCommand_pieces in H.
  apply filter_In in H. destruct H as [Hin Hb]. split; [exact Hb|].
  destruct (pieces_wf (length c) c [] (le_n _) (quiet_nil c)) as (W1 & _).
  apply W1. exact Hin.
Qed.

Lemma sub_commands_are_operator_free_witness :
  nonblank (js "cat a") = true /\ has_operator (js "cat a") = false.
Proof.
  apply (sub_commands_are_operator_free (js "npm run build && cat a") (js "cat a")).
  vm_compute. right. left. reflexivity.
Defined.

(** X4. [unwrapShellExecutor] never returns the empty string for a command
    that is not empty: what the orchestrator unwraps is still a command. *)
Theorem unwrap_keeps_a_command : forall c : jstring,
  0 < length c -> 0 < length (unwrapShellExecutor c).
Proof.
  intros c H.
  assert (N : unwrapShellExecutor c <> []).
  { apply unwrap_nonempty. intros ->. simpl in H. lia. }
  destruct (unwrapShellExecutor c); [congruence | simpl; lia].
Qed.

Lemma unwrap_keeps_a_command_witness :
  0 < length (unwrapShellExecutor (js "eval 'ls'")).
Proof. apply (unwrap_keeps_a_command (js "eval 'ls'")). vm_compute. lia. Defined.

(** *** The orchestrator *)

Lemma get_none : forall v k,
  get v k = None <-> v = JUndefined \/ v = JNull.
Proof.
  intros v k. destruct v; simpl; split; intros H;
    try discriminate; try reflexivity; auto;
    destruct H as [H|H]; discriminate H.
Qed.

Lemma get_some : forall v k,
  v <> JUndefined -> v <> JNull -> exists x, get v k = Some x.
Proof.
  intros v k H1 H2. destruct (get v k) eqn:G; [eauto|].
  apply get_none in G. tauto.
Qed.

Lemma spread_not_nullish : forall v k x,
  spread_with v k x <> JUndefined /\ spread_with v k x <> JNull.
Proof. intros v k x. destruct v; simpl; split; discriminate. Qed.

Lemma unwrap_step_not_nullish : forall v c,
  v <> JUndefined -> v <> JNull ->
  unwrap_step v c <> JUndefined /\ unwrap_step v c <> JNull.
Proof.
  intros v c H1 H2. unfold unwrap_step.
  destruct (truthy c); [|tauto].
  destruct (differs (unwrap_value c) c); [apply spread_not_nullish | tauto].
Qed.

Lemma inspect_returns : forall M toolName action options,
  action <> JUndefined -> action <> JNull ->
  exists r, inspect M toolName action options = Some r.
Proof.
  intros M toolName action options H1 H2. unfold inspect.
  destruct (get_some action "pattern" H1 H2) as (pat & ->).
  cbv beta iota zeta.
  match goal with
  | |- exists r, (if ?b then _ else _) = _ => destruct b
  end; [eauto|].
  match goal with
  | |- exists r, (let (_, _) := ?cp in _) = _ => destruct cp
  end. eauto.
Qed.

(** X13. [checkScoutBlock] throws exactly on an action that is [null] or
    [undefined], where reading the command is a TypeError; on every
    other action it returns a decision. *)
Theorem throws_only_on_null_action :
  forall (M : ScoutBlock) (toolName toolInput : value) (options : Options),
  checkScoutBlock M toolName toolInput options = None
  <-> toolInput = JUndefined \/ toolInput = JNull.
Proof.
  intros M toolName toolInput options. split.
  - intros H.
    destruct (get toolInput "command") as [c1|] eqn:G1;
      [|apply (get_none toolInput "command"); exact G1].
    exfalso.
    assert (N : toolInput <> JUndefined /\ toolInput <> JNull).
    { split; intros ->; discriminate G1. }
    destruct N as [N1 N2].
    destruct (unwrap_step_not_nullish toolInput c1 N1 N2) as [U1 U2].
    unfold checkScoutBlock in H. rewrite G1 in H.
    destruct (get_some (unwrap_step toolInput c1) "command" U1 U2) as (c2 & G2).
    rewrite G2 in H.
    destruct (truthy c2).
    + match type of H with
      | (if ?b then _ else _) = _ => destruct b
      end; [discriminate|].
      match type of H with
      | inspect _ _ ?a _ = _ =>
          assert (A : a <> JUndefined /\ a <> JNull)
      end.
      { match goal with
        | |- (if ?b then _ else _) <> _ /\ _ => destruct b
        end; [apply spread_not_nullish | tauto]. }
      destruct A as [A1 A2].
      match type of H with
      | inspect ?m ?t ?a ?o = _ =>
          destruct (inspect_returns m t a o A1 A2) as (r & E)
      end.
      rewrite E in H. discriminate.
    + destruct (inspect_returns M toolName _ options U1 U2) as (r & E).
      rewrite E in H. discriminate.
  - intros [-> | ->]; reflexivity.
Qed.

(** The action the orchestrator inspects, for an action whose command is
    [c1]: the steps of lines 162-186 either return at once or go on with
    an action [a]. *)
Lemma orchestrator_cases : forall M toolName toolInput options d calls,
  checkScoutBlock M toolName toolInput options = Some (d, calls) ->
  exists c1 c2,
    get toolInput "command" = Some c1 /\
    get (unwrap_step toolInput c1) "command" = Some c2 /\
    ((truthy c2 = true /\
      filter (fun cmd => negb (isAllowedCommand (trim cmd))) (split_value c2) = [] /\
      d = allowed_command /\ calls = []) \/
     (exists a,
        inspect M toolName a options = Some (d, calls) /\
        (a = unwrap_step toolInput c1 \/
         exists x, a = spread_with (unwrap_step toolInput c1) "command" x))).
Proof.
  intros M toolName toolInput options d calls H. unfold checkScoutBlock in H.
  destruct (get toolInput "command") as [c1|] eqn:G1; [|discriminate].
  destruct (get (unwrap_step toolInput c1) "command") as [c2|] eqn:G2; [|discriminate].
  exists c1, c2. split; [first [reflexivity | exact G1]|].
  split; [first [reflexivity | exact G2]|].
  destruct (truthy c2) eqn:T.
  - destruct (filter (fun cmd => negb (isAllowedCommand (trim cmd))) (split_value c2))
      as [|x l] eqn:F.
    + simpl in H. inversion H; subst. left. auto.
    + right. cbn [length Nat.eqb] in H.
      match type of H with
      | inspect _ _ (if ?b then _ else _) _ = _ => destruct b
      end; eexists; split; eauto.
  - right. eexists; split; eauto.
Qed.

(** X14. The recognized-tooling flag is set on the short circuit only: a
    decision either is the flagged one, reached without any call to the
    required modules, or carries no flag and was reached through them. *)
Theorem flag_marks_the_short_circuit :
  forall (M : ScoutBlock) (toolName toolInput : value) (options : Options)
         (d : GuardDecision) (calls : list Call),
  checkScoutBlock M toolName toolInput options = Some (d, calls) ->
  (d = allowed_command /\ calls = []) \/
  (isAllowedCommand_flag d = None /\ calls <> []).
Proof.
  intros M toolName toolInput options d calls H.
  destruct (orchestrator_cases _ _ _ _ _ _ H) as (c1 & c2 & _ & _ & [C|C]).
  - destruct C as (_ & _ & -> & ->). left. split; reflexivity.
  - destruct C as (a & I & _). right. eapply inspect_not_flagged; eauto.
Qed.

Lemma flag_marks_the_short_circuit_witness :
  (blocked_path (js "../../etc/secrets")
     (Build_MatchResult true (Some (js "**/etc/**"))) = allowed_command /\
   [LoadPatterns (js "/repo/.claude/.ckignore");
    CreateMatcher [js "node_modules"; js "**/etc/**"; js "!node_modules/.bin"];
    ExtractFromToolInput (command_only (JStr (js "cat ../../etc/secrets")));
    MatchPath (js "../../etc/secrets")] = []) \/
  (isAllowedCommand_flag
     (blocked_path (js "../../etc/secrets")
        (Build_MatchResult true (Some (js "**/etc/**")))) = None /\
   [LoadPatterns (js "/repo/.claude/.ckignore");
    CreateMatcher [js "node_modules"; js "**/etc/**"; js "!node_modules/.bin"];
    ExtractFromToolInput (command_only (JStr (js "cat ../../etc/secrets")));
    MatchPath (js "../../etc/secrets")] <> []).
Proof.
  apply (flag_marks_the_short_circuit SpecModel.modules bash
           (command_only (JStr build_then_read)) no_options).
  vm_compute. reflexivity.
Defined.

(** X15. The short circuit is taken only for a command all of whose
    sub-commands are allowed: a decision that carries the
    recognized-tooling flag comes from a truthy command that, after
    unwrapping, splits into allowed sub-commands only. *)
Theorem short_circuit_needs_all_allowed :
  forall (M : ScoutBlock) (toolName toolInput : value) (options : Options)
         (d : GuardDecision) (calls : list Call),
  checkScoutBlock M toolName toolInput options = Some (d, calls) ->
  isAllowedCommand_flag d = Some true ->
  exists command,
    get toolInput "command" = Some command /\
    truthy command = true /\
    forall sub, In sub (split_value (unwrap_value command)) ->
                isAllowedCommand (trim sub) = true.
Proof.
  intros M toolName toolInput options d calls H F.
  destruct (orchestrator_cases _ _ _ _ _ _ H) as (c1 & c2 & G1 & G2 & [C|C]).
  - destruct C as (T & Fi & _ & _). exists c1. split; [exact G1|].
    assert (T1 : truthy c1 = true).
    { destruct (truthy c1) eqn:T1; [reflexivity|].
      unfold unwrap_step in G2. rewrite T1 in G2. congruence. }
    split; [exact T1|].
    rewrite (unwrap_step_command _ _ G1 T1) in G2. inversion G2; subst c2.
    intros sub Hin.
    destruct (isAllowedCommand (trim sub)) eqn:A; [reflexivity|].
    assert (I : In sub (filter (fun cmd => negb (isAllowedCommand (trim cmd)))
                          (split_value (unwrap_value c1)))).
    { apply filter_In. split; [exact Hin | rewrite A; reflexivity]. }
    rewrite Fi in I. destruct I.
  - destruct C as (a & I & _).
    destruct (inspect_not_flagged _ _ _ _ _ _ I) as [N _]. congruence.
Qed.

Lemma short_circuit_needs_all_allowed_witness :
  exists command,
    get (command_only (JStr (js "npm run build && npm test"))) "command"
      = Some command /\
    truthy command = true /\
    forall sub, In sub (split_value (unwrap_value command)) ->
                isAllowedCommand (trim sub) = true.
Proof.
  apply (short_circuit_needs_all_allowed SpecModel.modules bash
           (command_only (JStr (js "npm run build && npm test"))) no_options
           allowed_command []).
  - vm_compute. reflexivity.
  - reflexivity.
Defined.

Lemma check_paths_blocked : forall M matcher paths d calls,
  check_paths M matcher paths = (d, calls) -> blocked d = true ->
  exists p, In p paths /\ In (MatchPath p) calls /\
            mr_blocked (matchPath M matcher p) = true /\
            d = blocked_path p (matchPath M matcher p).
Proof.
  induction paths as [|x paths IH]; intros d calls H B; simpl in H.
  - inversion H; subst. discriminate.
  - destruct (mr_blocked (matchPath M matcher x)) eqn:E.
    + inversion H; subst. exists x. repeat split; auto; left; reflexivity.
    + destruct (check_paths M matcher paths) as [d' calls'] eqn:C.
      inversion H; subst. destruct (IH d calls' eq_refl B) as (p & Hp & Hc & Hb & Hd).
      exists p. repeat split; auto; right; assumption.
Qed.

Lemma check_paths_cleared : forall M matcher paths d calls,
  check_paths M matcher paths = (d, calls) -> blocked d = false ->
  d = not_blocked /\
  forall p, In p paths -> mr_blocked (matchPath M matcher p) = false.
Proof.
  induction paths as [|x paths IH]; intros d calls H B; simpl in H.
  - inversion H; subst. split; [reflexivity | intros p []].
  - destruct (mr_blocked (matchPath M matcher x)) eqn:E.
    + inversion H; subst. discriminate.
    + destruct (check_paths M matcher paths) as [d' calls'] eqn:C.
      inversion H; subst. destruct (IH d calls' eq_refl B) as (Hd & Hp).
      split; [exact Hd|]. intros p [<-|Hin]; [exact E | apply Hp; exact Hin].
Qed.

Lemma check_paths_calls : forall M matcher paths d calls c,
  check_paths M matcher paths = (d, calls) -> In c calls ->
  exists p, c = MatchPath p.
Proof.
  induction paths as [|x paths IH]; intros d calls c H I; simpl in H.
  - inversion H; subst. destruct I.
  - destruct (mr_blocked (matchPath M matcher x)).
    + inversion H; subst. destruct I as [<-|[]]. eauto.
    + destruct (check_paths M matcher paths) as [d' calls'] eqn:C.
      inversion H; subst. destruct I as [<-|I]; [eauto|].
      eapply IH; eauto.
Qed.

(** What [inspect] returns, branch by branch. *)
Lemma inspect_cases : forall M toolName action options d calls,
  inspect M toolName action options = Some (d, calls) ->
  exists pat,
    get action "pattern" = Some pat /\
    let broad :=
      match checkBroadPatterns options with Some b => b | None => true end
      && (strict_eq_str toolName (js "Glob") || truthy pat) in
    let matcher := createMatcher M (loadPatterns M (rule_resource M options)) in
    (broad = true /\ br_blocked (detectBroadPatternIssue M action) = true /\
     d = blocked_broad pat (detectBroadPatternIssue M action) /\
     calls = [DetectBroadPatternIssue action]) \/
    (broad && br_blocked (detectBroadPatternIssue M action) = false /\
     exists calls',
       check_paths M matcher (extractFromToolInput M action) = (d, calls') /\
       calls = (if broad then [DetectBroadPatternIssue action] else [])
               ++ [LoadPatterns (rule_resource M options);
                   CreateMatcher (loadPatterns M (rule_resource M options));
                   ExtractFromToolInput action]
               ++ calls').
Proof.
  intros M toolName action options d calls H. unfold inspect in H.
  destruct (get action "pattern") as [pat|]; [|discriminate].
  exists pat. split; [reflexivity|]. cbv zeta.
  match type of H with
  | (if ?b then _ else _) = _ => destruct b eqn:Eb
  end.
  - left. inversion H; subst. apply andb_true_iff in Eb. tauto.
  - right. split; [first [exact Eb | reflexivity]|].
    match type of H with
    | (let (_, _) := check_paths ?m ?mt ?ps in _) = _ =>
        destruct (check_paths m mt ps) as [d' calls'] eqn:C
    end.
    inversion H; subst d calls. exists calls'. split; [exact C | reflexivity].
Qed.

(** X17. Only an affirmative match blocks: a blocked decision comes from the
    breadth check having flagged the action, or from the matcher having
    blocked a path that was extracted, and it names that path. *)
Theorem blocked_needs_a_match :
  forall (M : ScoutBlock) (toolName toolInput : value) (options : Options)
         (d : GuardDecision) (calls : list Call),
  checkScoutBlock M toolName toolInput options = Some (d, calls) ->
  blocked d = true ->
  (isBroadPattern d = Some true /\
   exists action, In (DetectBroadPatternIssue action) calls /\
                  br_blocked (detectBroadPatternIssue M action) = true) \/
  (exists action p,
     In (ExtractFromToolInput action) calls /\
     In p (extractFromToolInput M action) /\
     path d = Some p /\ In (MatchPath p) calls /\
     mr_blocked (matchPath M
                   (createMatcher M (loadPatterns M (rule_resource M options)))
                   p) = true).
Proof.
  intros M toolName toolInput options d calls H B.
  destruct (orchestrator_cases _ _ _ _ _ _ H) as (c1 & c2 & _ & _ & [C|C]).
  - destruct C as (_ & _ & -> & _). discriminate B.
  - destruct C as (a & I & _).
    destruct (inspect_cases _ _ _ _ _ _ I) as (pat & _ & [C|C]); cbv zeta in C.
    + destruct C as (_ & Bl & -> & ->). left. split; [reflexivity|].
      exists a. split; [left; reflexivity | exact Bl].
    + destruct C as (_ & calls' & C & ->). right.
      destruct (check_paths_blocked _ _ _ _ _ C B) as (p & Hp & Hc & Hb & Hd).
      exists a, p. split; [|split; [exact Hp|split; [rewrite Hd; reflexivity|split]]].
      * apply in_or_app. right. right. right. left. reflexivity.
      * apply in_or_app. right. do 3 right. exact Hc.
      * exact Hb.
Qed.

Lemma blocked_needs_a_match_witness :
  (isBroadPattern
     (blocked_path (js "../../etc/secrets")
        (Build_MatchResult true (Some (js "**/etc/**")))) = Some true /\
   exists action,
     In (DetectBroadPatternIssue action)
        [LoadPatterns (js "/repo/.claude/.ckignore");
         CreateMatcher [js "node_modules"; js "**/etc/**"; js "!node_modules/.bin"];
         ExtractFromToolInput (command_only (JStr (js "cat ../../etc/secrets")));
         MatchPath (js "../../etc/secrets")] /\
     br_blocked (detectBroadPatternIssue SpecModel.modules action) = true) \/
  (exists action p,
     In (ExtractFromToolInput action)
        [LoadPatterns (js "/repo/.claude/.ckignore");
         CreateMatcher [js "node_modules"; js "**/etc/**"; js "!node_modules/.bin"];
         ExtractFromToolInput (command_only (JStr (js "cat ../../etc/secrets")));
         MatchPath (js "../../etc/secrets")] /\
     In p (extractFromToolInput SpecModel.modules action) /\
     path (blocked_path (js "../../etc/secrets")
             (Build_MatchResult true (Some (js "**/etc/**")))) = Some p /\
     In (MatchPath p)
        [LoadPatterns (js "/repo/.claude/.ckignore");
         CreateMatcher [js "node_modules"; js "**/etc/**"; js "!node_modules/.bin"];
         ExtractFromToolInput (command_only (JStr (js "cat ../../etc/secrets")));
         MatchPath (js "../../etc/secrets")] /\
     mr_blocked
       (matchPath SpecModel.modules
          (createMatcher SpecModel.modules
             (loadPatterns SpecModel.modules
                (rule_resource SpecModel.modules no_options))) p) = true).
Proof.
  apply (blocked_needs_a_match SpecModel.modules bash
           (command_only (JStr build_then_read)) no_options).
  - vm_compute. reflexivity.
  - reflexivity.
Defined.

(** X18. A blocked decision is explained: it always carries a reason, a text
    that is not empty, which is the one of the breadth check when that
    gave one, a default text otherwise, or the sentence naming the rule
    that matched. *)
Theorem blocked_decision_is_explained :
  forall (M : ScoutBlock) (toolName toolInput : value) (options : Options)
         (d : GuardDecision) (calls : list Call),
  checkScoutBlock M toolName toolInput options = Some (d, calls) ->
  blocked d = true ->
  exists text, reason d = Some text /\ 0 < length text.
Proof.
  intros M toolName toolInput options d calls H B.
  destruct (orchestrator_cases _ _ _ _ _ _ H) as (c1 & c2 & _ & _ & [C|C]).
  - destruct C as (_ & _ & -> & _). discriminate B.
  - destruct C as (a & I & _).
    destruct (inspect_cases _ _ _ _ _ _ I) as (pat & _ & [C|C]); cbv zeta in C.
    + destruct C as (_ & _ & -> & _). eexists. split; [reflexivity|].
      unfold or_else. destruct (br_reason (detectBroadPatternIssue M a)) as [[|x t]|];
        simpl; lia.
    + destruct C as (_ & calls' & C & _).
      destruct (check_paths_blocked _ _ _ _ _ C B) as (p & _ & _ & _ & ->).
      eexists. split; [reflexivity|]. rewrite length_app. simpl. lia.
Qed.

Lemma blocked_decision_is_explained_witness :
  exists text,
    reason (blocked_path (js "../../etc/secrets")
              (Build_MatchResult true (Some (js "**/etc/**")))) = Some text /\
    0 < length text.
Proof.
  apply (blocked_decision_is_explained SpecModel.modules bash
           (command_only (JStr build_then_read)) no_options
           (blocked_path (js "../../etc/secrets")
              (Build_MatchResult true (Some (js "**/etc/**"))))
           [LoadPatterns (js "/repo/.claude/.ckignore");
            CreateMatcher [js "node_modules"; js "**/etc/**"; js "!node_modules/.bin"];
            ExtractFromToolInput (command_only (JStr (js "cat ../../etc/secrets")));
            MatchPath (js "../../etc/secrets")]).
  - vm_compute. reflexivity.
  - reflexivity.
Defined.

(** X19. A decision that neither blocks nor carries the recognized-tooling
    flag means that the paths were extracted and that the matcher blocked
    none of them: the guard never lets a blocked path through. *)
Theorem unblocked_means_every_path_cleared :
  forall (M : ScoutBlock) (toolName toolInput : value) (options : Options)
         (d : GuardDecision) (calls : list Call),
  checkScoutBlock M toolName toolInput options = Some (d, calls) ->
  blocked d = false ->
  isAllowedCommand_flag d = None ->
  d = not_blocked /\
  exists action,
    In (ExtractFromToolInput action) calls /\
    forall p, In p (extractFromToolInput M action) ->
      mr_blocked (matchPath M
                    (createMatcher M (loadPatterns M (rule_resource M options)))
                    p) = false.
Proof.
  intros M toolName toolInput options d calls H B F.
  destruct (orchestrator_cases _ _ _ _ _ _ H) as (c1 & c2 & _ & _ & [C|C]).
  - destruct C as (_ & _ & -> & _). discriminate F.
  - destruct C as (a & I & _).
    destruct (inspect_cases _ _ _ _ _ _ I) as (pat & _ & [C|C]); cbv zeta in C.
    + destruct C as (_ & _ & -> & _). discriminate B.
    + destruct C as (_ & calls' & C & ->).
      destruct (check_paths_cleared _ _ _ _ _ C B) as (Hd & Hp).
      split; [exact Hd|]. exists a. split; [|exact Hp].
      apply in_or_app. right. right. right. left. reflexivity.
Qed.

Lemma unblocked_means_every_path_cleared_witness :
  not_blocked = not_blocked /\
  exists action,
    In (ExtractFromToolInput action)
       [LoadPatterns (js "/repo/.claude/.ckignore");
        CreateMatcher [js "node_modules"; js "**/etc/**"; js "!node_modules/.bin"];
        ExtractFromToolInput (command_only (JStr (js "cat src/a.js")));
        MatchPath (js "src/a.js")] /\
    forall p, In p (extractFromToolInput SpecModel.modules action) ->
      mr_blocked (matchPath SpecModel.modules
                    (createMatcher SpecModel.modules
                       (loadPatterns SpecModel.modules
                          (rule_resource SpecModel.modules no_options)))
                    p) = false.
Proof.
  apply (unblocked_means_every_path_cleared SpecModel.modules bash
           (command_only (JStr (js "npm test ; cat src/a.js"))) no_options).
  - vm_compute. reflexivity.
  - reflexivity.
  - reflexivity.
Defined.

Lemma spread_other : forall v k x k',
  jstring_eqb (js k) k' = false ->
  forall fs, v = JObj fs ->
  exists fs', spread_with v k x = JObj fs' /\
              lookup_field k' fs' = lookup_field k' fs.
Proof.
  intros v k x k' E fs ->. simpl. eexists. split; [reflexivity|].
  apply lookup_set_other. exact E.
Qed.

(** X20. Unwrapping and narrowing touch the command only: the action handed
    to the breadth check and to the path extractor is an object with
    every property of the original action but [command] unchanged. *)
Theorem only_the_command_is_rewritten :
  forall (M : ScoutBlock) (toolName : value) (fields : list (jstring * value))
         (options : Options) (d : GuardDecision) (calls : list Call)
         (action : value),
  checkScoutBlock M toolName (JObj fields) options = Some (d, calls) ->
  In (ExtractFromToolInput action) calls \/
  In (DetectBroadPatternIssue action) calls ->
  exists fields',
    action = JObj fields' /\
    forall k, jstring_eqb (js "command") k = false ->
              lookup_field k fields' = lookup_field k fields.
Proof.
  intros M toolName fields options d calls action H Hin.
  destruct (orchestrator_cases _ _ _ _ _ _ H) as (c1 & c2 & _ & _ & [C|C]).
  - destruct C as (_ & _ & _ & ->). destruct Hin as [[]|[]].
  - destruct C as (a & I & A).
    assert (U : exists fs1, unwrap_step (JObj fields) c1 = JObj fs1 /\
              forall k, jstring_eqb (js "command") k = false ->
                        lookup_field k fs1 = lookup_field k fields).
    { unfold unwrap_step. destruct (truthy c1); [|eauto].
      destruct (differs (unwrap_value c1) c1); [|eauto].
      simpl. eexists. split; [reflexivity|].
      intros k E. apply lookup_set_other. exact E. }
    destruct U as (fs1 & U & K1).
    assert (A' : exists fs2, a = JObj fs2 /\
              forall k, jstring_eqb (js "command") k = false ->
                        lookup_field k fs2 = lookup_field k fields).
    { destruct A as [-> | (x & ->)]; rewrite U.
      - eauto.
      - simpl. eexists. split; [reflexivity|].
        intros k E. rewrite lookup_set_other by exact E. apply K1. exact E. }
    destruct A' as (fs2 & -> & K2).
    assert (E : action = JObj fs2).
    { destruct (inspect_cases _ _ _ _ _ _ I) as (pat & _ & [C|C]); cbv zeta in C.
      - destruct C as (_ & _ & _ & ->).
        destruct Hin as [[E|[]]|[E|[]]]; [discriminate E | inversion E; reflexivity].
      - destruct C as (_ & calls' & C & ->).
        assert (Q : forall c, In c calls' -> exists p, c = MatchPath p)
          by (intros c; eapply check_paths_calls; eauto).
        destruct Hin as [Hin|Hin]; apply in_app_or in Hin; destruct Hin as [Hin|Hin].
        + destruct (_ && _); [destruct Hin as [E|[]]; discriminate E | destruct Hin].
        + destruct Hin as [E|[E|[E|Hin]]]; try discriminate E.
          * inversion E. reflexivity.
          * destruct (Q _ Hin) as (p & E). discriminate E.
        + destruct (_ && _); [destruct Hin as [E|[]]; inversion E; reflexivity
                             | destruct Hin].
        + destruct Hin as [E|[E|[E|Hin]]]; try discriminate E.
          destruct (Q _ Hin) as (p & E). discriminate E. }
    subst action. eauto.
Qed.

Lemma only_the_command_is_rewritten_witness :
  exists fields',
    JObj [(js "command", JStr (js "cat ../../etc/secrets"));
          (js "description", JStr (js "build and read"))] = JObj fields' /\
    forall k, jstring_eqb (js "command") k = false ->
              lookup_field k fields'
              = lookup_field k [(js "command", JStr build_then_read);
                                (js "description", JStr (js "build and read"))].
Proof.
  apply (only_the_command_is_rewritten SpecModel.modules bash
           [(js "command", JStr build_then_read);
            (js "description", JStr (js "build and read"))]
           no_options
           (blocked_path (js "../../etc/secrets")
              (Build_MatchResult true (Some (js "**/etc/**"))))
           [LoadPatterns (js "/repo/.claude/.ckignore");
            CreateMatcher [js "node_modules"; js "**/etc/**"; js "!node_modules/.bin"];
            ExtractFromToolInput
              (JObj [(js "command", JStr (js "cat ../../etc/secrets"));
                     (js "description", JStr (js "build and read"))]);
            MatchPath (js "../../etc/secrets")]).
  - vm_compute. reflexivity.
  - left. right. right. left. reflexivity.
Defined.

Lemma inspect_extracts : forall M toolName a' options d calls a,
  inspect M toolName a' options = Some (d, calls) ->
  In (ExtractFromToolInput a) calls -> a = a'.
Proof.
  intros M toolName a' options d calls a I Hin.
  destruct (inspect_cases _ _ _ _ _ _ I) as (pat & _ & [C|C]); cbv zeta in C.
  - destruct C as (_ & _ & _ & ->). destruct Hin as [E|[]]. discriminate E.
  - destruct C as (_ & calls' & C & ->).
    apply in_app_or in Hin. destruct Hin as [Hin|Hin].
    + destruct (_ && _); [destruct Hin as [E|[]]; discriminate E | destruct Hin].
    + destruct Hin as [E|[E|[E|Hin]]]; try discriminate E.
      * inversion E. reflexivity.
      * destruct (check_paths_calls _ _ _ _ _ _ C Hin) as (p & E). discriminate E.
Qed.

Lemma get_spread_same : forall v x,
  get (spread_with v "command" x) "command" = Some x.
Proof.
  intros v x. destruct v; cbn [get spread_with];
    try (cbn [lookup_field]; rewrite jstring_eqb_refl; reflexivity).
  rewrite lookup_set_same. reflexivity.
Qed.

Lemma filter_keeps_all : forall (A : Type) (g : A -> bool) l,
  length l <= length (filter g l) -> forall x, In x l -> g x = true.
Proof.
  induction l as [|a l IH]; intros H x Hx; [destruct Hx|].
  simpl in H. pose proof (filter_length_le g l) as L.
  destruct (g a) eqn:G.
  - simpl in H. destruct Hx as [<-|Hx]; [exact G | apply IH; [lia | exact Hx]].
  - lia.
Qed.

(** X16. The path extractor never sees an allowed sub-command: whenever the
    orchestrator hands an action with a command text to
    [extractFromToolInput], every sub-command of that text is one that
    [isAllowedCommand] refuses.  The tokens of an allowed sub-command,
    such as [build] in [npm run build], cannot block the others. *)
Theorem extractor_sees_no_allowed_sub_command :
  forall (M : ScoutBlock) (toolName toolInput : value) (options : Options)
         (d : GuardDecision) (calls : list Call) (action : value) (t : jstring),
  checkScoutBlock M toolName toolInput options = Some (d, calls) ->
  In (ExtractFromToolInput action) calls ->
  get action "command" = Some (JStr t) ->
  Forall (fun sub => isAllowedCommand (trim sub) = false)
         (splitCompoundCommand t).
Proof.
  intros M toolName toolInput options d calls action t H Hin G.
  unfold checkScoutBlock in H.
  destruct (get toolInput "command") as [c1|] eqn:G1; [|discriminate].
  destruct (get (unwrap_step toolInput c1) "command") as [c2|] eqn:G2; [|discriminate].
  destruct (truthy c2) eqn:T.
  - destruct (filter (fun cmd => negb (isAllowedCommand (trim cmd))) (split_value c2))
      as [|x0 l0] eqn:F.
    { simpl in H. inversion H; subst. destruct Hin. }
    rewrite <- F in H.
    assert (Z : (length (filter (fun cmd => negb (isAllowedCommand (trim cmd)))
                           (split_value c2)) =? 0) = false)
      by (rewrite F; reflexivity).
    rewrite Z in H. clear Z.
    destruct c2 as [| | | |s2| |]; try discriminate F.
    cbn [split_value] in *.
    destruct (length (filter (fun cmd => negb (isAllowedCommand (trim cmd)))
                        (splitCompoundCommand s2))
              <? length (splitCompoundCommand s2)) eqn:Lt.
    + pose proof (inspect_extracts _ _ _ _ _ _ _ H Hin) as ->.
      rewrite get_spread_same in G. inversion G; subst t.
      change (join (js " ; ")
                (filter (fun cmd => negb (isAllowedCommand (trim cmd)))
                   (splitCompoundCommand s2)))
        with (narrowed_text s2).
      rewrite split_narrowed. apply Forall_forall. intros x Hx.
      unfold nonAllowed in Hx. apply filter_In in Hx. destruct Hx as [_ Hx].
      apply negb_true_iff in Hx. exact Hx.
    + pose proof (inspect_extracts _ _ _ _ _ _ _ H Hin) as ->.
      rewrite G2 in G. inversion G; subst t.
      apply Nat.ltb_ge in Lt. apply Forall_forall. intros x Hx.
      apply negb_true_iff.
      apply (filter_keeps_all _ (fun cmd => negb (isAllowedCommand (trim cmd)))
               (splitCompoundCommand s2) Lt x Hx).
  - pose proof (inspect_extracts _ _ _ _ _ _ _ H Hin) as ->.
    rewrite G2 in G. inversion G; subst c2.
    destruct t; [constructor | discriminate T].
Qed.

Lemma extractor_sees_no_allowed_sub_command_witness :
  Forall (fun sub => isAllowedCommand (trim sub) = false)
         (splitCompoundCommand (js "cat ../../etc/secrets")).
Proof.
  apply (extractor_sees_no_allowed_sub_command SpecModel.modules bash
           (command_only (JStr build_then_read)) no_options
           (blocked_path (js "../../etc/secrets")
              (Build_MatchResult true (Some (js "**/etc/**"))))
           [LoadPatterns (js "/repo/.claude/.ckignore");
            CreateMatcher [js "node_modules"; js "**/etc/**"; js "!node_modules/.bin"];
            ExtractFromToolInput (command_only (JStr (js "cat ../../etc/secrets")));
            MatchPath (js "../../etc/secrets")]
           (command_only (JStr (js "cat ../../etc/secrets")))).
  - vm_compute. reflexivity.
  - right. right. left. reflexivity.
  - reflexivity.
Defined.

(** X21. The breadth check is called exactly when the breadth option is not
    switched off and the tool is the enumeration tool or the action
    carries a truthy pattern, whatever unwrapping and narrowing did to
    the command; only the short circuit skips it. *)
Theorem breadth_check_runs_iff :
  forall (M : ScoutBlock) (toolName : value) (fields : list (jstring * value))
         (options : Options) (d : GuardDecision) (calls : list Call),
  checkScoutBlock M toolName (JObj fields) options = Some (d, calls) ->
  isAllowedCommand_flag d = None ->
  ((exists action, In (DetectBroadPatternIssue action) calls)
   <->
   match checkBroadPatterns options with Some b => b | None => true end
   && (strict_eq_str toolName (js "Glob")
       || truthy (lookup_field (js "pattern") fields)) = true).
Proof.
  intros M toolName fields options d calls H F.
  destruct (orchestrator_cases _ _ _ _ _ _ H) as (c1 & c2 & _ & _ & [C|C]).
  - destruct C as (_ & _ & -> & _). discriminate F.
  - destruct C as (a & I & A).
    assert (U : exists fs1, unwrap_step (JObj fields) c1 = JObj fs1 /\
              lookup_field (js "pattern") fs1 = lookup_field (js "pattern") fields).
    { unfold unwrap_step. destruct (truthy c1); [|eauto].
      destruct (differs (unwrap_value c1) c1); [|eauto].
      simpl. eexists. split; [reflexivity|].
      apply lookup_set_other. reflexivity. }
    destruct U as (fs1 & U & K1).
    assert (A' : exists fs2, a = JObj fs2 /\
              lookup_field (js "pattern") fs2 = lookup_field (js "pattern") fields).
    { destruct A as [-> | (x & ->)]; rewrite U.
      - eauto.
      - simpl. eexists. split; [reflexivity|].
        rewrite lookup_set_other by reflexivity. exact K1. }
    destruct A' as (fs2 & -> & K2).
    destruct (inspect_cases _ _ _ _ _ _ I) as (pat & G & C). cbv zeta in C.
    simpl in G. inversion G; subst pat. rewrite K2 in C.
    destruct C as [C|C].
    + destruct C as (Br & _ & _ & ->). split; [intros _; exact Br|].
      intros _. eexists. left. reflexivity.
    + destruct C as (_ & calls' & C & ->). split.
      * intros (x & Hin). apply in_app_or in Hin. destruct Hin as [Hin|Hin].
        -- destruct (_ && _); [reflexivity | destruct Hin].
        -- destruct Hin as [E|[E|[E|Hin]]]; try discriminate E.
           destruct (check_paths_calls _ _ _ _ _ _ C Hin) as (p & E). discriminate E.
      * intros Br. rewrite Br. eexists. left. reflexivity.
Qed.

Lemma breadth_check_runs_iff_witness :
  (exists action,
     In (DetectBroadPatternIssue action)
        [DetectBroadPatternIssue (JObj [(js "pattern", JStr (js "**/*"))])])
  <->
  match checkBroadPatterns no_options with Some b => b | None => true end
  && (strict_eq_str (JStr (js "Glob")) (js "Glob")
      || truthy (lookup_field (js "pattern") [(js "pattern", JStr (js "**/*"))]))
  = true.
Proof.
  apply (breadth_check_runs_iff SpecModel.modules (JStr (js "Glob"))
           [(js "pattern", JStr (js "**/*"))] no_options
           (blocked_broad (JStr (js "**/*"))
              (detectBroadPatternIssue SpecModel.modules
                 (JObj [(js "pattern", JStr (js "**/*"))])))).
  - vm_compute. reflexivity.
  - reflexivity.
Defined.

Lemma inspect_loads : forall M toolName action options d calls f,
  inspect M toolName action options = Some (d, calls) ->
  In (LoadPatterns f) calls -> f = rule_resource M options.
Proof.
  intros M toolName action options d calls f I L.
  destruct (inspect_cases _ _ _ _ _ _ I) as (pat & _ & [C|C]); cbv zeta in C.
  - destruct C as (_ & _ & _ & ->). destruct L as [E|[]]. discriminate E.
  - destruct C as (_ & calls' & C & ->).
    apply in_app_or in L. destruct L as [L|L].
    + destruct (_ && _); [destruct L as [E|[]]; discriminate E | destruct L].
    + destruct L as [E|[E|[E|L]]]; try discriminate E.
      * inversion E. reflexivity.
      * destruct (check_paths_calls _ _ _ _ _ _ C L) as (p & E). discriminate E.
Qed.

(** X22. The rules are read from the file the options name: every rule-loading
    call of a run is on [ckignorePath] when the options give one that is
    not empty, and on [.ckignore] below [claudeDir] otherwise. *)
Theorem rules_come_from_the_named_file :
  forall (M : ScoutBlock) (toolName toolInput : value) (options : Options)
         (d : GuardDecision) (calls : list Call) (f : jstring),
  checkScoutBlock M toolName toolInput options = Some (d, calls) ->
  In (LoadPatterns f) calls ->
  match ckignorePath options, claudeDir options with
  | Some ((_ :: _) as g), _ => f = g
  | _, Some dir => f = path_join M dir (js ".ckignore")
  | _, None =>
      f = path_join M (path_join M (process_cwd M) (js ".claude")) (js ".ckignore")
  end.
Proof.
  intros M toolName toolInput options d calls f H L.
  assert (R : f = rule_resource M options).
  { destruct (orchestrator_cases _ _ _ _ _ _ H) as (c1 & c2 & _ & _ & [C|C]).
    - destruct C as (_ & _ & _ & ->). destruct L.
    - destruct C as (a & I & _). eapply inspect_loads; eauto. }
  rewrite R. unfold rule_resource.
  destruct (ckignorePath options) as [[|x g]|];
    destruct (claudeDir options); reflexivity.
Qed.

Lemma rules_come_from_the_named_file_witness :
  js "/repo/.claude/.ckignore" = js "/repo/.claude/.ckignore".
Proof.
  apply (rules_come_from_the_named_file SpecModel.modules bash
           (command_only (JStr build_then_read)) named_rules
           (blocked_path (js "../../etc/secrets")
              (Build_MatchResult true (Some (js "**/etc/**"))))
           [LoadPatterns (js "/repo/.claude/.ckignore");
            CreateMatcher [js "node_modules"; js "**/etc/**"; js "!node_modules/.bin"];
            ExtractFromToolInput (command_only (JStr (js "cat ../../etc/secrets")));
            MatchPath (js "../../etc/secrets")]
           (js "/repo/.claude/.ckignore")).
  - vm_compute. reflexivity.
  - left. reflexivity.
Defined.

(** *** The hook *)

(** X24. The exit code of the hook follows the decision: on a text that parses
    to data with an object as action, the hook exits with 2 when the guard
    blocks and with 0 when it does not. *)
Theorem hook_exit_follows_decision :
  forall (M : ScoutBlock) (H : Host) (hookInput : jstring)
         (data tool_input tool_name : value)
         (d : GuardDecision) (calls : list Call),
  isHookEnabled H (js "scout-block") = true ->
  blank hookInput = false ->
  JSON_parse H hookInput = Some data ->
  get data "tool_input" = Some tool_input ->
  get data "tool_name" = Some tool_name ->
  truthy tool_input && typeof_object tool_input = true ->
  checkScoutBlock M
    (if truthy tool_name then tool_name else JStr (js "unknown"))
    tool_input
    {| ckignorePath :=
         Some (path_join M (path_dirname H (dirname_ H)) (js ".ckignore"));
       claudeDir := Some (path_dirname H (dirname_ H));
       checkBroadPatterns := Some true |}
  = Some (d, calls) ->
  scout_block M H hookInput = if blocked d then EXIT_BLOCKED else EXIT_ALLOWED.
Proof.
  intros M H hookInput data tool_input tool_name d calls En B P TI TN O C.
  unfold scout_block. rewrite En. simpl negb. cbv iota.
  unfold blank in B. rewrite B, P, TI, TN.
  apply andb_true_iff in O. destruct O as [O1 O2]. rewrite O1, O2. simpl orb.
  cbv iota beta zeta. rewrite C.
  destruct (orchestrator_cases _ _ _ _ _ _ C) as (c1 & c2 & _ & _ & [S|S]).
  - destruct S as (_ & _ & -> & _). reflexivity.
  - destruct S as (a & I & _).
    destruct (inspect_not_flagged _ _ _ _ _ _ I) as [F _].
    rewrite F. simpl is_true. cbv iota.
    destruct (blocked d); [|reflexivity].
    destruct (is_true (isBroadPattern d)); reflexivity.
Qed.

Lemma hook_exit_follows_decision_witness :
  scout_block SpecModel.modules (host_reading read_action) (js "x") = EXIT_BLOCKED.
Proof.
  apply (hook_exit_follows_decision SpecModel.modules (host_reading read_action)
           (js "x") read_action (command_only (JStr build_then_read)) bash
           (blocked_path (js "../../etc/secrets")
              (Build_MatchResult true (Some (js "**/etc/**"))))
           [LoadPatterns (js "/repo/.claude/.ckignore");
            CreateMatcher [js "node_modules"; js "**/etc/**"; js "!node_modules/.bin"];
            ExtractFromToolInput (command_only (JStr (js "cat ../../etc/secrets")));
            MatchPath (js "../../etc/secrets")]);
    vm_compute; reflexivity.
Defined.

(** X23. The hook blocks for two reasons only: the input is empty or white
    space, or the guard returned a blocked decision for the parsed
    action.  A switched-off hook, a text that does not parse, data
    without an action and a guard that throws all end with exit code 0. *)
Theorem hook_blocks_only_on_decision :
  forall (M : ScoutBlock) (H : Host) (hookInput : jstring),
  scout_block M H hookInput = EXIT_BLOCKED ->
  isHookEnabled H (js "scout-block") = true /\
  (blank hookInput = true \/
   exists data tool_input tool_name d calls,
     JSON_parse H hookInput = Some data /\
     get data "tool_input" = Some tool_input /\
     get data "tool_name" = Some tool_name /\
     truthy tool_input && typeof_object tool_input = true /\
     checkScoutBlock M
       (if truthy tool_name then tool_name else JStr (js "unknown"))
       tool_input
       {| ckignorePath :=
            Some (path_join M (path_dirname H (dirname_ H)) (js ".ckignore"));
          claudeDir := Some (path_dirname H (dirname_ H));
          checkBroadPatterns := Some true |}
     = Some (d, calls) /\
     blocked d = true).
Proof.
  intros M H hookInput E. unfold scout_block in E.
  destruct (isHookEnabled H (js "scout-block")); [|discriminate E].
  split; [reflexivity|]. simpl negb in E. cbv iota in E.
  unfold blank.
  destruct (is_empty hookInput || (length (trim hookInput) =? 0));
    [left; reflexivity|]. right.
  destruct (JSON_parse H hookInput) as [data|] eqn:P; [|discriminate E].
  destruct (get data "tool_input") as [ti|] eqn:G1; [|discriminate E].
  destruct (get data "tool_name") as [tn|] eqn:G2; [|discriminate E].
  destruct (truthy ti) eqn:T; [|discriminate E].
  destruct (typeof_object ti) eqn:O; [|discriminate E].
  simpl in E.
  match type of E with
  | match ?c with _ => _ end = _ => destruct c as [[d calls]|] eqn:C
  end; [|discriminate E].
  exists data, ti, tn, d, calls.
  split; [reflexivity|]. split; [exact G1|]. split; [exact G2|].
  split; [rewrite T, O; reflexivity|]. split; [exact C|].
  destruct (is_true (isAllowedCommand_flag d)); [discriminate E|].
  destruct (blocked d); [reflexivity|]. discriminate E.
Qed.

Lemma hook_blocks_only_on_decision_witness :
  isHookEnabled (host_reading read_action) (js "scout-block") = true /\
  (blank (js "x") = true \/
   exists data tool_input tool_name d calls,
     JSON_parse (host_reading read_action) (js "x") = Some data /\
     get data "tool_input" = Some tool_input /\
     get data "tool_name" = Some tool_name /\
     truthy tool_input && typeof_object tool_input = true /\
     checkScoutBlock SpecModel.modules
       (if truthy tool_name then tool_name else JStr (js "unknown"))
       tool_input
       {| ckignorePath :=
            Some (path_join SpecModel.modules
                    (path_dirname (host_reading read_action)
                       (dirname_ (host_reading read_action))) (js ".ckignore"));
          claudeDir := Some (path_dirname (host_reading read_action)
                               (dirname_ (host_reading read_action)));
          checkBroadPatterns := Some true |}
     = Some (d, calls) /\
     blocked d = true).
Proof.
  apply (hook_blocks_only_on_decision SpecModel.modules (host_reading read_action)
           (js "x")).
  vm_compute. reflexivity.
Defined.

End MoreFacts.
Import MoreFacts.

Module TextFacts.

(** *** Trimming *)

Lemma drop_while_all : forall p s, forallb p s = true -> drop_while p s = [].
Proof.
  induction s as [|c s IH]; simpl; intros H; [reflexivity|].
  apply andb_true_iff in H. destruct H as [-> H]. apply IH. exact H.
Qed.

Lemma drop_while_app : forall p a b,
  drop_while p (a ++ b)
  = if forallb p a then drop_while p b else drop_while p a ++ b.
Proof.
  induction a as [|c a IH]; intros b; simpl; [reflexivity|].
  destruct (p c); simpl; [apply IH | reflexivity].
Qed.

Lemma drop_while_same_length : forall p s,
  length (drop_while p s) = length s -> drop_while p s = s.
Proof.
  intros p [|c s] H; [reflexivity|]. simpl in *.
  destruct (p c); [|reflexivity].
  pose proof (drop_while_length p s). lia.
Qed.

Lemma trim_end_fixed_rev : forall y,
  trim_end y = y -> drop_while is_space (rev y) = rev y.
Proof.
  intros y H. unfold trim_end in H.
  rewrite <- H at 2. rewrite rev_involutive. reflexivity.
Qed.

(** A text is what [trim_end] keeps of it, and white space. *)
Lemma trim_end_split : forall y,
  exists w, y = trim_end y ++ w /\ forallb is_space w = true.
Proof.
  intros y. destruct (drop_while_split is_space (rev y)) as (w & E & W).
  exists (rev w). split.
  - unfold trim_end. rewrite <- rev_app_distr, <- E, rev_involutive. reflexivity.
  - rewrite forallb_forall in *. intros x Hx. apply W. apply in_rev. exact Hx.
Qed.

Lemma trim_split : forall c,
  exists l t, c = l ++ trim c ++ t /\
              forallb is_space l = true /\ forallb is_space t = true.
Proof.
  intros c. destruct (drop_while_split is_space c) as (l & E & L).
  destruct (trim_end_split (trim_start c)) as (t & E' & T).
  exists l, t. split; [|split; assumption].
  unfold trim. rewrite <- E'. exact E.
Qed.

Lemma trim_end_app : forall y b,
  trim_end y = y -> trim_end (y ++ b) = y ++ trim_end b.
Proof.
  intros y b H. apply trim_end_fixed_rev in H.
  unfold trim_end. rewrite rev_app_distr, drop_while_app.
  destruct (forallb is_space (rev b)) eqn:A.
  - rewrite H, rev_involutive, (drop_while_all _ _ A). simpl.
    rewrite app_nil_r. reflexivity.
  - rewrite rev_app_distr, rev_involutive. reflexivity.
Qed.

(** What follows inside a text that does not end with white space does
    not end with white space either. *)
Lemma trim_end_suffix : forall y p z,
  trim_end y = y -> y = p ++ z -> z <> [] -> trim_end z = z.
Proof.
  intros y p z H E Z. apply trim_end_fixed_rev in H.
  subst y. rewrite rev_app_distr in H.
  destruct (rev z) as [|a m] eqn:R.
  { exfalso. apply Z. rewrite <- (rev_involutive z), R. reflexivity. }
  assert (A : is_space a = false).
  { destruct (is_space a) eqn:A; [|reflexivity]. exfalso.
    simpl in H. rewrite A in H.
    pose proof (drop_while_length is_space (m ++ rev p)) as L.
    rewrite H in L. simpl in L. lia. }
  unfold trim_end. rewrite R. simpl. rewrite A. rewrite <- R.
  apply rev_involutive.
Qed.

Lemma trim_end_of_trim : forall c, trim_end (trim c) = trim c.
Proof. intros c. unfold trim. apply trim_end_idem. Qed.

Lemma trim_start_of_trim : forall c, trim_start (trim c) = trim c.
Proof. intros c. unfold trim. apply trim_start_trim_end. Qed.

Lemma trim_fixed : forall r,
  trim r = r -> trim_start r = r /\ trim_end r = r.
Proof.
  intros r H. split.
  - rewrite <- H. apply trim_start_of_trim.
  - rewrite <- H. apply trim_end_of_trim.
Qed.

Lemma trim_of_fixed : forall r,
  trim_start r = r -> trim_end r = r -> trim r = r.
Proof. intros r H1 H2. unfold trim. rewrite H1. exact H2. Qed.

Lemma trim_nil_of_le : forall s : jstring, length s <= 0 -> s = [].
Proof. intros [|c s] H; [reflexivity | simpl in H; lia]. Qed.

Lemma replace_empty_nil : forall r, replace_empty r [] = [].
Proof.
  intros r. apply trim_nil_of_le. apply (replace_empty_le r []).
Qed.

(** *** Classification and surrounding white space *)

Lemma stripCommandPrefix_trim : forall c,
  stripCommandPrefix (trim c) = stripCommandPrefix c.
Proof.
  intros c. destruct c as [|x c]; [reflexivity|].
  rewrite (stripCommandPrefix_nonempty (x :: c)) by reflexivity.
  destruct (trim (x :: c)) as [|y t] eqn:E.
  - rewrite !replace_empty_nil. reflexivity.
  - rewrite stripCommandPrefix_nonempty by reflexivity.
    rewrite <- E, trim_idem. reflexivity.
Qed.

(** X6. The classifiers that trim their argument give the same answer on a
    command and on the command trimmed: the [trim] of line 178 changes
    nothing for [isAllowedCommand]. *)
Theorem classification_ignores_outer_space : forall c : jstring,
  isAllowedCommand (trim c) = isAllowedCommand c /\
  isBuildCommand (trim c) = isBuildCommand c /\
  isVenvCreationCommand (trim c) = isVenvCreationCommand c.
Proof.
  intros c. split; [|split].
  - unfold isAllowedCommand. rewrite stripCommandPrefix_trim. reflexivity.
  - destruct c as [|x c]; [reflexivity|].
    unfold isBuildCommand at 2. cbn [is_empty].
    destruct (trim (x :: c)) as [|y t] eqn:E; [vm_compute; reflexivity|].
    unfold isBuildCommand. cbn [is_empty]. rewrite <- E, trim_idem. reflexivity.
  - destruct c as [|x c]; [reflexivity|].
    unfold isVenvCreationCommand at 2. cbn [is_empty].
    destruct (trim (x :: c)) as [|y t] eqn:E; [vm_compute; reflexivity|].
    unfold isVenvCreationCommand. cbn [is_empty]. rewrite <- E, trim_idem. reflexivity.
Qed.

(** *** What [stripCommandPrefix] keeps *)

Lemma replace_anchored_suffix : forall r str,
  anchored r = true -> exists pre, str = pre ++ replace_empty r str.
Proof.
  intros r str A. unfold replace_empty.
  destruct (exec r str) as [[i s']|] eqn:E; [|exists []; reflexivity].
  pose proof (exec_anchored _ _ _ _ A E) as ->.
  unfold exec in E. apply search_from_some in E. destruct E as [_ [E _]].
  apply exec_at_sound in E. apply matches_consumed in E.
  destruct E as (w & [Hr _]). simpl in Hr. exists w. exact Hr.
Qed.

(** The three replacements of [stripCommandPrefix] leave the end of the
    text they start from. *)
Lemma strip_steps_suffix : forall y0,
  exists p, y0 = p ++ replace_empty ENV_ASSIGNMENTS
                        (replace_empty COMMAND_WRAPPER
                           (replace_empty ENV_ASSIGNMENTS y0)).
Proof.
  intros y0.
  destruct (replace_anchored_suffix ENV_ASSIGNMENTS y0 eq_refl) as (p1 & E1).
  set (y1 := replace_empty ENV_ASSIGNMENTS y0) in *.
  destruct (replace_anchored_suffix COMMAND_WRAPPER y1 eq_refl) as (p2 & E2).
  set (y2 := replace_empty COMMAND_WRAPPER y1) in *.
  destruct (replace_anchored_suffix ENV_ASSIGNMENTS y2 eq_refl) as (p3 & E3).
  set (y3 := replace_empty ENV_ASSIGNMENTS y2) in *.
  exists (p1 ++ p2 ++ p3).
  rewrite E1, E2, E3 at 1. rewrite <- !app_assoc. reflexivity.
Qed.

(** X7. [stripCommandPrefix] removes a prefix and nothing else: its result is
    the end of the trimmed command, code unit for code unit, and it is
    trimmed. *)
Theorem strip_keeps_the_end : forall c : jstring,
  trim (stripCommandPrefix c) = stripCommandPrefix c /\
  exists pre, trim c = pre ++ stripCommandPrefix c.
Proof.
  intros c. split; [apply stripCommandPrefix_trimmed|].
  destruct c as [|x c]; [exists []; reflexivity|].
  rewrite stripCommandPrefix_nonempty by reflexivity.
  set (y0 := trim (x :: c)).
  destruct (strip_steps_suffix y0) as (p & E).
  set (y3 := replace_empty ENV_ASSIGNMENTS
               (replace_empty COMMAND_WRAPPER
                  (replace_empty ENV_ASSIGNMENTS y0))) in *.
  destruct (drop_while_split is_space y3) as (w & E4 & _).
  fold (trim_start y3) in E4.
  assert (S : y0 = (p ++ w) ++ trim_start y3).
  { rewrite E at 1. rewrite E4 at 1. rewrite <- !app_assoc. reflexivity. }
  unfold trim. destruct (trim_start y3) as [|a z] eqn:Z.
  - exists y0. rewrite app_nil_r. reflexivity.
  - rewrite (trim_end_suffix y0 (p ++ w) (a :: z));
      [eauto | apply trim_end_of_trim | exact S | discriminate].
Qed.

(** *** What [splitCompoundCommand] returns *)

Lemma in_order_prefix : forall l t p, in_order l t -> in_order l (p ++ t).
Proof.
  intros l t p H. destruct H as [s | x l pre t H].
  - constructor.
  - rewrite app_assoc. constructor. exact H.
Qed.

Lemma in_order_filter : forall (g : jstring -> bool) l s,
  in_order l s -> in_order (filter g l) s.
Proof.
  intros g l s H. induction H as [s | x l pre t H IH]; simpl.
  - constructor.
  - destruct (g x).
    + constructor. exact IH.
    + rewrite app_assoc. apply in_order_prefix. exact IH.
Qed.

Lemma pieces_in_order : forall n s cur,
  length s <= n ->
  exists a t l, pieces cur s = (cur ++ a) :: l /\ s = a ++ t /\ in_order l t.
Proof.
  induction n as [|n IH]; intros s cur Hn.
  - destruct s; [|simpl in Hn; lia]. rewrite pieces_nil.
    exists [], [], []. rewrite app_nil_r. repeat split. constructor.
  - destruct s as [|c t].
    { rewrite pieces_nil. exists [], [], []. rewrite app_nil_r.
      repeat split. constructor. }
    rewrite pieces_cons. destruct (sep_at (c :: t)) as [r|] eqn:E.
    + pose proof (sep_at_length _ _ E) as Lr.
      destruct (sep_at_shorter _ _ E) as (m & Em & _).
      destruct (IH r [] ltac:(simpl in *; lia)) as (a & t' & l & P & R & O).
      exists [], (c :: t), (pieces [] r). rewrite app_nil_r.
      split; [reflexivity|]. split; [reflexivity|].
      rewrite P, Em, R. simpl. constructor. exact O.
    + destruct (IH t (cur ++ [c]) ltac:(simpl in *; lia)) as (a & t' & l & P & R & O).
      exists (c :: a), t', l. split; [|split].
      * rewrite P, <- app_assoc. reflexivity.
      * rewrite R. reflexivity.
      * exact O.
Qed.

(** X2. Splitting neither invents nor reorders text: the sub-commands occur in
    the command one after the other, each as a contiguous part of it. *)
Theorem sub_commands_occur_in_order : forall c : jstring,
  in_order (splitCompoundCommand c) c.
Proof.
  intros c. rewrite splitCompoundCommand_pieces. apply in_order_filter.
  destruct (pieces_in_order (length c) c [] (le_n _)) as (a & t & l & P & R & O).
  rewrite P, R. simpl. apply (@IO_cons a l [] t). exact O.
Qed.

(** X3. The white space around an operator goes with the operator: no
    sub-command but the first starts with white space and none but the
    last ends with it.  The first may start and the last may end with
    white space, which is why the orchestrator trims each one. *)
Theorem inner_edges_are_trimmed : forall c : jstring,
  Forall no_leading_space (tl (splitCompoundCommand c)) /\
  Forall no_trailing_space (removelast (splitCompoundCommand c)).
Proof.
  intros c. rewrite splitCompoundCommand_pieces.
  destruct (pieces_wf (length c) c [] (le_n _) (quiet_nil c)) as (_ & W2 & W3 & _).
  split; apply Forall_forall; intros x H.
  - apply W3. eapply tl_filter. exact H.
  - apply W2. eapply removelast_filter. exact H.
Qed.

(** *** What [unwrapShellExecutor] returns *)

Lemma executor_prefix_length : forall e, executor_prefix e -> 4 <= length e.
Proof.
  intros e H. destruct H as [sh ws Hin Hn _|].
  - destruct ws; [congruence|]. simpl in Hin.
    destruct Hin as [<-|[<-|[<-|[]]]]; rewrite !length_app; simpl; lia.
  - simpl. lia.
Qed.

(** X5. When [unwrapShellExecutor] changes a command, what it returns is a
    contiguous part of the command, after at least six code units (the
    executor, white space and a quote) and before at least one (a quote):
    unwrapping adds no text and shortens the command. *)
Theorem unwrap_returns_a_part : forall c : jstring,
  unwrapShellExecutor c = c \/
  exists pre post,
    c = pre ++ unwrapShellExecutor c ++ post /\
    6 <= length pre /\ 1 <= length post.
Proof.
  intros c. unfold unwrapShellExecutor.
  destruct (is_empty c); [left; reflexivity|].
  unfold match_group.
  destruct (exec SHELL_EXECUTOR (trim c)) as [[i s']|] eqn:E; [|left; reflexivity].
  right.
  pose proof (exec_anchored SHELL_EXECUTOR _ _ _ eq_refl E) as ->.
  unfold exec in E. apply search_from_some in E. destruct E as [_ [E _]].
  apply exec_at_sound in E. apply shell_executor_elim in E.
  destruct E as (e & ws & q1 & inner & q2 & ws2 & He & Hn & Hw & Hq1 & Hq2 & Hi & Hd & Hw2 & Ht & Hcap).
  rewrite Hcap.
  destruct (trim_split c) as (l & t & Ec & _ & _).
  exists (l ++ e ++ ws ++ [q1]), ([q2] ++ ws2 ++ t). split; [|split].
  - rewrite Ec at 1. rewrite Ht. rewrite <- !app_assoc. reflexivity.
  - rewrite !length_app. pose proof (executor_prefix_length e He).
    destruct ws; [congruence|]. simpl. lia.
  - simpl. lia.
Qed.

End TextFacts.
Import TextFacts.

Module FrameFacts.

(** A match of a pattern without [$] does not look at what follows it:
    it is still a match when text is added after the input. *)
Lemma matches_extend : forall r s s' t,
  matches r s s' -> eol_free r = true ->
  matches r (extend s t) (extend s' t).
Proof.
  intros r s s' t H. induction H; simpl; intros F.
  - constructor.
  - change (extend (advance s t0) t) with (advance (extend s t) (t0 ++ t)).
    apply M_class with (c := c); [|assumption]. simpl. rewrite H. reflexivity.
  - apply andb_true_iff in F. destruct F. econstructor; eauto.
  - apply andb_true_iff in F. destruct F. apply M_alt_l; auto.
  - apply andb_true_iff in F. destruct F. apply M_alt_r; auto.
  - constructor.
  - eapply M_star_step; eauto. simpl. rewrite !length_app. lia.
  - constructor. assumption.
  - discriminate.
  - pose proof (matches_rest_length _ _ _ H) as L.
    replace (extend (capture n s s') t)
      with (capture n (extend s t) (extend s' t)).
    + constructor. auto.
    + unfold capture, extend. simpl. f_equal. f_equal. f_equal.
      rewrite firstn_app.
      replace (pos s' - pos s - length (rest s)) with 0 by lia.
      simpl. apply app_nil_r.
Qed.

Lemma start_at_app : forall str t i,
  i <= length str -> start_at (str ++ t) i = extend (start_at str i) t.
Proof.
  intros str t i H. unfold start_at, extend. simpl. f_equal.
  rewrite skipn_app. replace (i - length str) with 0 by lia. reflexivity.
Qed.

(** [test] on a pattern without [$] stays true when text is added. *)
Lemma test_app : forall r str t,
  eol_free r = true -> test r str = true -> test r (str ++ t) = true.
Proof.
  intros r str t F T. apply test_true_iff in T.
  destruct T as (i & s' & Hi & Hm). apply test_true_iff.
  exists i, (extend s' t). split.
  - rewrite length_app. lia.
  - rewrite start_at_app by assumption. apply matches_extend; assumption.
Qed.

Lemma drop_while_app_nonempty : forall p a b,
  drop_while p a <> [] -> drop_while p (a ++ b) = drop_while p a ++ b.
Proof.
  induction a as [|c a IH]; intros b H; simpl in *; [congruence|].
  destruct (p c); [apply IH; assumption | reflexivity].
Qed.

(** Trimming a command with text added keeps the trimmed command as a
    prefix, when that is not empty. *)
Lemma trim_app : forall c t,
  trim c <> [] -> exists u, trim (c ++ t) = trim c ++ u.
Proof.
  intros c t H.
  assert (Z : trim_start c <> []).
  { intros Z. apply H. unfold trim. rewrite Z. reflexivity. }
  destruct (trim_end_split (trim_start c)) as (w & E & _).
  fold (trim c) in E.
  unfold trim at 1. unfold trim_start at 1.
  rewrite drop_while_app_nonempty by exact Z.
  fold (trim_start c). rewrite E, <- app_assoc.
  rewrite trim_end_app by apply trim_end_of_trim.
  eauto.
Qed.

Lemma isBuildCommand_app : forall c t,
  isBuildCommand c = true -> isBuildCommand (c ++ t) = true.
Proof.
  intros c t H. destruct c as [|x c]; [discriminate H|].
  unfold isBuildCommand in *. cbn [is_empty app] in *.
  destruct (trim (x :: c)) as [|y z] eqn:E; [vm_compute in H; discriminate H|].
  destruct (trim_app (x :: c) t) as (u & U); [rewrite E; discriminate|].
  change (x :: c ++ t) with ((x :: c) ++ t). rewrite U, E.
  apply orb_true_iff in H. apply orb_true_iff.
  destruct H as [H|H]; [left | right]; apply test_app; auto.
Qed.

Lemma isVenvExecutable_app : forall c t,
  isVenvExecutable c = true -> isVenvExecutable (c ++ t) = true.
Proof.
  intros c t H. destruct c as [|x c]; [discriminate H|].
  unfold isVenvExecutable in *. cbn [is_empty app] in *.
  change (x :: c ++ t) with ((x :: c) ++ t). apply test_app; auto.
Qed.

(** X12. The build, tool and venv-executable patterns have no end anchor: a
    command they recognize stays recognized whatever text is added after
    it, operators and further commands included.  Classifying before
    splitting would allow [npm run build && cat dist/file.js]. *)
Theorem recognized_prefix_stays_recognized : forall c t : jstring,
  isBuildCommand c || isVenvExecutable c = true ->
  isBuildCommand (c ++ t) || isVenvExecutable (c ++ t) = true.
Proof.
  intros c t H. apply orb_true_iff in H. apply orb_true_iff.
  destruct H as [H|H]; [left; apply isBuildCommand_app | right; apply isVenvExecutable_app];
    exact H.
Qed.

Lemma recognized_prefix_stays_recognized_witness :
  isBuildCommand (js "npm run build" ++ js " && cat dist/file.js")
  || isVenvExecutable (js "npm run build" ++ js " && cat dist/file.js") = true.
Proof.
  apply (recognized_prefix_stays_recognized (js "npm run build")
           (js " && cat dist/file.js")).
  vm_compute. reflexivity.
Defined.

End FrameFacts.
Import FrameFacts.

Module PrefixFacts.

(** *** The greedy loops of the prefix patterns, run *)

Lemma bt_plus_class : forall (R : Type) p (k : mstate -> option R) s,
  bt (plus (RClass p)) k s
  = match rest s with
    | c :: t => if p c then greedy p k (S (pos s)) (caps s) t else None
    | [] => None
    end.
Proof.
  intros R p k s.
  change (bt (plus (RClass p)) k s)
    with (match rest s with
          | c :: t =>
              if p c
              then star_loop (bt (RClass p)) k
                     (length (rest (advance s t))) (advance s t)
              else None
          | [] => None
          end).
  destruct (rest s) as [|c t] eqn:E; [reflexivity|].
  destruct (p c); [|reflexivity].
  rewrite star_loop_greedy by (simpl; lia). reflexivity.
Qed.

(** The star hands the longest run to its continuation first. *)
Lemma greedy_max : forall (R : Type) p (k : mstate -> option R) caps l n,
  k (MState (n + (length l - length (drop_while p l))) (drop_while p l) caps) <> None ->
  greedy p k n caps l
  = k (MState (n + (length l - length (drop_while p l))) (drop_while p l) caps).
Proof.
  intros R p k caps; induction l as [|c t IH]; intros n H.
  - simpl in *. replace (n + 0) with n in * by lia. reflexivity.
  - cbn [greedy drop_while] in *. destruct (p c) eqn:P.
    + pose proof (drop_while_length p t).
      replace (n + (length (c :: t) - length (drop_while p t)))
        with (S n + (length t - length (drop_while p t))) in * by (cbn [length]; lia).
      rewrite IH by assumption.
      destruct (k _); [reflexivity | congruence].
    + rewrite Nat.sub_diag. replace (n + 0) with n by lia. reflexivity.
Qed.

Lemma run_of_length : forall p s r, run_of p s = Some r -> length r < length s.
Proof.
  intros p [|c t] r H; simpl in H; [discriminate|].
  destruct (p c); [|discriminate]. inversion H; subst.
  pose proof (drop_while_length p t). simpl. lia.
Qed.

Lemma run_of_split : forall p s r,
  run_of p s = Some r -> exists w, s = w ++ r /\ w <> [] /\ forallb p w = true.
Proof.
  intros p [|c t] r H; simpl in H; [discriminate|].
  destruct (p c) eqn:P; [|discriminate]. inversion H; subst.
  destruct (drop_while_split p t) as (w & E & W).
  exists (c :: w). split; [simpl; rewrite <- E; reflexivity|].
  split; [discriminate|]. simpl. rewrite P, W. reflexivity.
Qed.

Lemma run_of_fixed : forall p s r,
  run_of p s = Some r -> drop_while p r = r.
Proof.
  intros p [|c t] r H; simpl in H; [discriminate|].
  destruct (p c); [|discriminate]. inversion H; subst. apply drop_while_idem.
Qed.

Lemma run_of_app : forall p w r,
  w <> [] -> forallb p w = true -> drop_while p r = r ->
  run_of p (w ++ r) = Some r.
Proof.
  intros p [|c w] r N W F; [congruence|]. simpl in *.
  apply andb_true_iff in W. destruct W as [-> W]. f_equal.
  rewrite drop_while_app, W. exact F.
Qed.

(** When the continuation refuses every state that starts with a code
    unit of the class, the loop hands it the state after the whole run. *)
Lemma bt_plus_class_all : forall (R : Type) p (k : mstate -> option R) s,
  (forall m c t cs, p c = true -> k (MState m (c :: t) cs) = None) ->
  bt (plus (RClass p)) k s
  = match run_of p (rest s) with
    | Some r => k (MState (pos s + (length (rest s) - length r)) r (caps s))
    | None => None
    end.
Proof.
  intros R p k s H. rewrite bt_plus_class. unfold run_of.
  destruct (rest s) as [|c t]; [reflexivity|].
  destruct (p c) eqn:P; [|reflexivity].
  rewrite greedy_all by (intros; apply H; assumption).
  cbn [drop_while]. rewrite P. pose proof (drop_while_length p t).
  replace (S (pos s) + (length t - length (drop_while p t)))
    with (pos s + (length (c :: t) - length (drop_while p t)))
    by (cbn [length]; lia).
  reflexivity.
Qed.

(** In any case the state after the whole run is the one tried first. *)
Lemma bt_plus_class_max : forall (R : Type) p (k : mstate -> option R) s r,
  run_of p (rest s) = Some r ->
  k (MState (pos s + (length (rest s) - length r)) r (caps s)) <> None ->
  bt (plus (RClass p)) k s
  = k (MState (pos s + (length (rest s) - length r)) r (caps s)).
Proof.
  intros R p k s r E H. rewrite bt_plus_class. unfold run_of in E.
  destruct (rest s) as [|c t]; [discriminate|].
  destruct (p c) eqn:P; [|discriminate]. inversion E; subst r. clear E.
  cbn [drop_while] in *. rewrite P in *. pose proof (drop_while_length p t).
  replace (pos s + (length (c :: t) - length (drop_while p t)))
    with (S (pos s) + (length t - length (drop_while p t))) in *
    by (cbn [length]; lia).
  apply greedy_max. exact H.
Qed.

Lemma bt_plus_class_none : forall (R : Type) p (k : mstate -> option R) s,
  run_of p (rest s) = None -> bt (plus (RClass p)) k s = None.
Proof.
  intros R p k s E. rewrite bt_plus_class. unfold run_of in E.
  destruct (rest s) as [|c t]; [reflexivity|].
  destruct (p c); [discriminate | reflexivity].
Qed.

Lemma word_not_equals : forall c, is_word c = true -> N.eqb 61 c = false.
Proof.
  intros c H. destruct (N.eqb_spec 61 c) as [<-|]; [discriminate | reflexivity].
Qed.

Lemma space_not_word : forall c, is_space c = true -> is_word c = false.
Proof.
  intros c H. destruct (is_word c) eqn:W; [|reflexivity]. exfalso.
  unfold is_word in W. unfold is_space in H.
  repeat rewrite ?orb_true_iff, ?andb_true_iff, ?N.leb_le, ?N.eqb_eq in W.
  repeat rewrite ?orb_true_iff, ?andb_true_iff, ?N.leb_le, ?N.eqb_eq in H.
  lia.
Qed.

Lemma space_not_equals : forall c, is_space c = true -> N.eqb c 61 = false.
Proof.
  intros c H. destruct (N.eqb_spec c 61) as [->|]; [discriminate | reflexivity].
Qed.

(** *** One assignment *)

Lemma bt_assignment_unfold : forall (R : Type) (K : mstate -> option R) s,
  bt ASSIGNMENT K s
  = bt (plus (RClass is_word))
       (bt (RClass (N.eqb 61))
           (bt (plus (RClass (fun c => negb (is_space c))))
               (bt (plus (RClass is_space)) (fun s' => K (capture 1 s s')))))
       s.
Proof. reflexivity. Qed.

(** The body of the loop on the text: it fails where no assignment
    starts, and where one starts the state after it, white space
    included, is the first that the continuation sees. *)
Lemma bt_assignment : forall (R : Type) (K : mstate -> option R) s,
  match assignment_at (rest s) with
  | None => bt ASSIGNMENT K s = None
  | Some r => exists st, rest st = r /\
                         (K st <> None -> bt ASSIGNMENT K s = K st)
  end.
Proof.
  intros R K s. rewrite bt_assignment_unfold.
  rewrite bt_plus_class_all.
  2:{ intros m c t cs W. cbn [bt rest]. rewrite (word_not_equals c W). reflexivity. }
  unfold assignment_at.
  destruct (run_of is_word (rest s)) as [[|e s2]|]; [reflexivity| |reflexivity].
  cbn [bt rest]. rewrite (N.eqb_sym e 61).
  destruct (N.eqb 61 e); [|reflexivity].
  rewrite bt_plus_class_all.
  2:{ intros m c t cs W. rewrite bt_plus_class. cbn [rest].
      apply negb_true_iff in W. rewrite W. reflexivity. }
  cbn [rest advance pos caps].
  destruct (run_of (fun c => negb (is_space c)) s2) as [s3|]; [|reflexivity].
  match goal with
  | |- context [bt (plus (RClass is_space)) ?k ?st] =>
      set (st3 := st); set (K3 := k)
  end.
  assert (R3 : rest st3 = s3) by reflexivity.
  destruct (run_of is_space s3) as [r|] eqn:E3.
  - exists (capture 1 s
              (MState (pos st3 + (length (rest st3) - length r)) r (caps st3))).
    split; [reflexivity|].
    intros H. rewrite <- R3 in E3.
    apply (bt_plus_class_max R is_space K3 st3 r E3 H).
  - apply bt_plus_class_none. rewrite R3. exact E3.
Qed.

Lemma assignment_at_length : forall s r,
  assignment_at s = Some r -> length r < length s.
Proof.
  intros s r H. unfold assignment_at in H.
  destruct (run_of is_word s) as [[|e s2]|] eqn:E1; try discriminate.
  destruct (N.eqb e 61); [|discriminate].
  destruct (run_of (fun c => negb (is_space c)) s2) as [s3|] eqn:E2; [|discriminate].
  apply run_of_length in E1, E2, H. simpl in E1. lia.
Qed.

Lemma assignment_at_no_leading : forall s r,
  assignment_at s = Some r -> trim_start r = r.
Proof.
  intros s r H. unfold assignment_at in H.
  destruct (run_of is_word s) as [[|e s2]|]; try discriminate.
  destruct (N.eqb e 61); [|discriminate].
  destruct (run_of (fun c => negb (is_space c)) s2) as [s3|]; [|discriminate].
  eapply run_of_fixed. exact H.
Qed.

(** *** The loop *)

Lemma skip_fuel : forall f1 f2 s,
  length s <= f1 -> length s <= f2 ->
  skip_assignments f1 s = skip_assignments f2 s.
Proof.
  induction f1 as [|f1 IH]; intros f2 s H1 H2.
  - destruct s; [|simpl in H1; lia]. destruct f2; reflexivity.
  - destruct f2 as [|f2].
    + destruct s; [|simpl in H2; lia]. reflexivity.
    + simpl. destruct (assignment_at s) as [r|] eqn:E; [|reflexivity].
      apply assignment_at_length in E. apply IH; lia.
Qed.

Lemma skip_none : forall f s,
  length s <= f -> assignment_at (skip_assignments f s) = None.
Proof.
  induction f as [|f IH]; intros s H.
  - destruct s; [reflexivity | simpl in H; lia].
  - simpl. destruct (assignment_at s) as [r|] eqn:E; [|exact E].
    apply IH. apply assignment_at_length in E. lia.
Qed.

Lemma skip_no_leading : forall f s,
  trim_start s = s -> trim_start (skip_assignments f s) = skip_assignments f s.
Proof.
  induction f as [|f IH]; intros s H; [exact H|].
  simpl. destruct (assignment_at s) as [r|] eqn:E; [|exact H].
  apply IH. eapply assignment_at_no_leading. exact E.
Qed.

Lemma star_assignments : forall fuel s,
  length (rest s) <= fuel ->
  exists s', star_loop (bt ASSIGNMENT) (fun x => Some x) fuel s = Some s' /\
             rest s' = skip_assignments fuel (rest s).
Proof.
  induction fuel as [|fuel IH]; intros s H.
  - exists s. split; reflexivity.
  - cbn [star_loop skip_assignments].
    pose proof (bt_assignment mstate
                  (fun s' => if length (rest s') <? length (rest s)
                             then star_loop (bt ASSIGNMENT) (fun x => Some x) fuel s'
                             else None) s) as B.
    destruct (assignment_at (rest s)) as [r|] eqn:E.
    + destruct B as (st & Hr & B).
      pose proof (assignment_at_length _ _ E) as L.
      destruct (IH st ltac:(rewrite Hr; lia)) as (s' & S1 & S2).
      assert (K : (if length (rest st) <? length (rest s)
                   then star_loop (bt ASSIGNMENT) (fun x => Some x) fuel st
                   else None) = Some s').
      { rewrite Hr. replace (length r <? length (rest s)) with true
          by (symmetry; apply Nat.ltb_lt; exact L). exact S1. }
      rewrite B by (rewrite K; discriminate). rewrite K.
      exists s'. split; [reflexivity|]. rewrite S2, Hr. reflexivity.
    + rewrite B. exists s. split; reflexivity.
Qed.

Lemma ENV_ASSIGNMENTS_unfold :
  ENV_ASSIGNMENTS = RSeq RBol (RSeq ASSIGNMENT (RStar ASSIGNMENT)).
Proof. reflexivity. Qed.

Lemma exec_at_assignments : forall str,
  match assignment_at str with
  | None => exec_at ENV_ASSIGNMENTS str 0 = None
  | Some r => exists s', exec_at ENV_ASSIGNMENTS str 0 = Some s' /\
                         rest s' = skip_assignments (length r) r
  end.
Proof.
  intros str. unfold exec_at. rewrite ENV_ASSIGNMENTS_unfold.
  cbn [bt pos Nat.eqb skipn].
  pose proof (bt_assignment mstate
                (fun s1 => star_loop (bt ASSIGNMENT) (fun x => Some x)
                             (length (rest s1)) s1)
                (MState 0 str [])) as B.
  cbn [rest] in B.
  destruct (assignment_at str) as [r|].
  - destruct B as (st & Hr & B).
    destruct (star_assignments (length (rest st)) st (le_n _)) as (s' & S1 & S2).
    rewrite B by (rewrite S1; discriminate). rewrite S1.
    exists s'. split; [reflexivity|]. rewrite S2, Hr. reflexivity.
  - exact B.
Qed.

Lemma exec_first_index : forall r str s,
  exec_at r str 0 = Some s -> exec r str = Some (0, s).
Proof.
  intros r str s H. unfold exec. destruct (length str); simpl; rewrite H; reflexivity.
Qed.

Lemma exec_anchored_none : forall r str,
  anchored r = true -> exec_at r str 0 = None -> exec r str = None.
Proof.
  intros r str A H. destruct (exec r str) as [[i s']|] eqn:E; [|reflexivity].
  pose proof (exec_anchored _ _ _ _ A E) as ->.
  unfold exec in E. apply search_from_some in E. destruct E as [_ [E _]].
  congruence.
Qed.

(** [replace(ENV_ASSIGNMENTS, '')] on the text: the assignments at its
    head are skipped, all of them. *)
Lemma replace_assignments : forall str,
  replace_empty ENV_ASSIGNMENTS str = skip_assignments (length str) str.
Proof.
  intros str. unfold replace_empty.
  pose proof (exec_at_assignments str) as B.
  destruct (assignment_at str) as [r|] eqn:E.
  - destruct B as (s' & X & Hr). rewrite (exec_first_index _ _ _ X).
    simpl firstn. simpl app. rewrite Hr.
    pose proof (assignment_at_length _ _ E) as L.
    destruct str as [|c t]; [simpl in L; lia|].
    cbn [length skip_assignments]. rewrite E.
    apply skip_fuel; simpl in *; lia.
  - rewrite (exec_anchored_none ENV_ASSIGNMENTS str eq_refl B).
    destruct str; [reflexivity|]. cbn [length skip_assignments]. rewrite E.
    reflexivity.
Qed.

Lemma test_assignments : forall str,
  test ENV_ASSIGNMENTS str
  = match assignment_at str with Some _ => true | None => false end.
Proof.
  intros str. unfold test. pose proof (exec_at_assignments str) as B.
  destruct (assignment_at str) as [r|].
  - destruct B as (s' & X & _). rewrite (exec_first_index _ _ _ X). reflexivity.
  - rewrite (exec_anchored_none ENV_ASSIGNMENTS str eq_refl B). reflexivity.
Qed.

(** *** The wrapper pattern, run *)

Lemma bt_plus_space_accept : forall s s',
  bt (plus space) (fun x => Some x) s = Some s' ->
  run_of is_space (rest s) = Some (rest s').
Proof.
  intros s s' H. unfold space in H. rewrite bt_plus_class in H.
  unfold run_of. destruct (rest s) as [|c t]; [discriminate|].
  destruct (is_space c) eqn:P; [|discriminate].
  rewrite greedy_accept in H. inversion H; subst. cbn [rest drop_while].
  rewrite P. reflexivity.
Qed.

Lemma COMMAND_WRAPPER_unfold :
  COMMAND_WRAPPER
  = RSeq RBol (RSeq (RGroup 1 (words COMMAND_WRAPPERS)) (plus space)).
Proof. reflexivity. Qed.

(** What a match of the wrapper pattern leaves: the text after a wrapper
    word and all the white space that follows it. *)
Lemma exec_wrapper_rest : forall y i s',
  exec COMMAND_WRAPPER y = Some (i, s') ->
  i = 0 /\ trim_start (rest s') = rest s' /\
  exists w sp, In w COMMAND_WRAPPERS /\ y = js w ++ sp ++ rest s' /\
               sp <> [] /\ forallb is_space sp = true.
Proof.
  intros y i s' E.
  pose proof (exec_anchored COMMAND_WRAPPER _ _ _ eq_refl E) as ->.
  split; [reflexivity|].
  unfold exec in E. apply search_from_some in E. destruct E as [_ [E _]].
  unfold exec_at in E. rewrite COMMAND_WRAPPER_unfold in E.
  change (bt (RGroup 1 (words COMMAND_WRAPPERS))
             (bt (plus space) (fun x => Some x))
             (MState 0 y []) = Some s') in E.
  apply bt_sound in E. destruct E as (s1 & M & B).
  apply group_elim in M. destruct M as (s0 & M & ->).
  apply words_elim in M. destruct M as (w & t & Hin & Hr & ->).
  apply bt_plus_space_accept in B. cbn [rest capture] in B, Hr.
  split; [eapply run_of_fixed; exact B|].
  destruct (run_of_split _ _ _ B) as (sp & Et & N & S).
  exists w, sp. repeat split; auto. rewrite Hr, Et. reflexivity.
Qed.

Lemma replace_wrapper_no_leading : forall y,
  trim_start y = y ->
  trim_start (replace_empty COMMAND_WRAPPER y) = replace_empty COMMAND_WRAPPER y.
Proof.
  intros y H. unfold replace_empty.
  destruct (exec COMMAND_WRAPPER y) as [[i s']|] eqn:E; [|exact H].
  destruct (exec_wrapper_rest _ _ _ E) as (-> & T & _). exact T.
Qed.

Lemma trim_start_trim_end_fixed : forall y,
  trim_start y = y -> trim y = trim_end y.
Proof. intros y H. unfold trim. rewrite H. reflexivity. Qed.

(** For a command that is not empty, the last replacement of
    [stripCommandPrefix] is already trimmed. *)
Lemma strip_is_last_replacement : forall c,
  c <> [] ->
  stripCommandPrefix c
  = replace_empty ENV_ASSIGNMENTS
      (replace_empty COMMAND_WRAPPER
         (replace_empty ENV_ASSIGNMENTS (trim c))).
Proof.
  intros c N. destruct c as [|x c]; [congruence|].
  rewrite stripCommandPrefix_nonempty by reflexivity.
  set (y0 := trim (x :: c)).
  destruct (strip_steps_suffix y0) as (p & E).
  assert (T0 : trim_start y0 = y0) by apply trim_start_of_trim.
  assert (T1 : trim_start (replace_empty ENV_ASSIGNMENTS y0)
               = replace_empty ENV_ASSIGNMENTS y0).
  { rewrite replace_assignments. apply skip_no_leading. exact T0. }
  pose proof (replace_wrapper_no_leading _ T1) as T2.
  set (y2 := replace_empty COMMAND_WRAPPER (replace_empty ENV_ASSIGNMENTS y0)) in *.
  assert (T3 : trim_start (replace_empty ENV_ASSIGNMENTS y2)
               = replace_empty ENV_ASSIGNMENTS y2).
  { rewrite replace_assignments. apply skip_no_leading. exact T2. }
  set (y3 := replace_empty ENV_ASSIGNMENTS y2) in *.
  rewrite (trim_start_trim_end_fixed _ T3).
  destruct y3 as [|a z] eqn:Y; [reflexivity|].
  apply (trim_end_suffix y0 p (a :: z));
    [apply trim_end_of_trim | exact E | discriminate].
Qed.

Lemma strip_no_assignment : forall c,
  assignment_at (stripCommandPrefix c) = None.
Proof.
  intros c. destruct c as [|x c]; [reflexivity|].
  rewrite strip_is_last_replacement by discriminate.
  rewrite replace_assignments. apply skip_none. apply le_n.
Qed.

(** X11. No environment assignment is left at the head of what
    [stripCommandPrefix] returns, so a second application changes the
    result exactly when it starts with a wrapper word and white space:
    the wrappers are removed one level at a time, the assignments all at
    once. *)
Theorem second_pass_strips_a_wrapper_only : forall c : jstring,
  test ENV_ASSIGNMENTS (stripCommandPrefix c) = false /\
  (stripCommandPrefix (stripCommandPrefix c) = stripCommandPrefix c
   <-> test COMMAND_WRAPPER (stripCommandPrefix c) = false).
Proof.
  intros c.
  assert (A : test ENV_ASSIGNMENTS (stripCommandPrefix c) = false).
  { rewrite test_assignments, strip_no_assignment. reflexivity. }
  split; [exact A|]. split.
  - intros F. destruct (test COMMAND_WRAPPER (stripCommandPrefix c)) eqn:W;
      [|reflexivity].
    exfalso.
    assert (L : length (stripCommandPrefix (stripCommandPrefix c))
                < length (stripCommandPrefix c)).
    { apply strip_shorter; [apply stripCommandPrefix_trimmed|].
      unfold has_strippable_prefix. rewrite W. apply orb_true_r. }
    rewrite F in L. lia.
  - intros W. apply strip_fixed; [apply stripCommandPrefix_trimmed|].
    unfold has_strippable_prefix. rewrite A, W. reflexivity.
Qed.

(** *** Assignments and wrappers in front of a command *)

Lemma trim_end_app_r : forall a r,
  trim_end r = r -> r <> [] -> trim_end (a ++ r) = a ++ r.
Proof.
  intros a r H N. apply trim_end_fixed_rev in H.
  unfold trim_end. rewrite rev_app_distr, drop_while_app.
  destruct (forallb is_space (rev r)) eqn:A.
  - exfalso. rewrite (drop_while_all _ _ A) in H.
    apply N. rewrite <- (rev_involutive r), <- H. reflexivity.
  - rewrite H, <- rev_app_distr, rev_involutive. reflexivity.
Qed.

Lemma trim_start_head : forall c t,
  is_space c = false -> trim_start (c :: t) = c :: t.
Proof. intros c t H. unfold trim_start. simpl. rewrite H. reflexivity. Qed.

Lemma word_not_space : forall c, is_word c = true -> is_space c = false.
Proof.
  intros c W. destruct (is_space c) eqn:S; [|reflexivity].
  rewrite (space_not_word c S) in W. discriminate.
Qed.

Lemma head_fixed : forall (p : N -> bool) ws r,
  ws <> [] -> forallb is_space ws = true ->
  (forall c, is_space c = true -> p c = false) ->
  drop_while p (ws ++ r) = ws ++ r.
Proof.
  intros p [|e ws] r N S H; [congruence|]. simpl in *.
  apply andb_true_iff in S. destruct S as [S _].
  rewrite (H e S). reflexivity.
Qed.

(** A command that starts with a word, the text after white space and
    not empty, is trimmed when the text is. *)
Lemma prefixed_trimmed : forall a r,
  (exists x t, a = x :: t /\ is_space x = false) ->
  trim r = r -> r <> [] -> trim (a ++ r) = a ++ r.
Proof.
  intros a r (x & t & -> & X) T N. apply trim_fixed in T. destruct T as [_ T].
  apply trim_of_fixed.
  - simpl. apply trim_start_head. exact X.
  - apply trim_end_app_r; assumption.
Qed.

Lemma assignment_at_app : forall k v ws r,
  k <> [] -> forallb is_word k = true ->
  v <> [] -> forallb (fun c => negb (is_space c)) v = true ->
  ws <> [] -> forallb is_space ws = true ->
  trim_start r = r ->
  assignment_at (k ++ js "=" ++ v ++ ws ++ r) = Some r.
Proof.
  intros k v ws r Nk Wk Nv Wv Nw Ww T. unfold assignment_at.
  rewrite (run_of_app is_word k (js "=" ++ v ++ ws ++ r) Nk Wk eq_refl).
  change (js "=" ++ v ++ ws ++ r) with (61%N :: v ++ ws ++ r). cbn [N.eqb Pos.eqb].
  rewrite (run_of_app (fun c => negb (is_space c)) v (ws ++ r) Nv Wv).
  - apply run_of_app; assumption.
  - apply head_fixed; auto. intros c S. rewrite S. reflexivity.
Qed.

Lemma replace_assignments_app : forall k v ws r,
  k <> [] -> forallb is_word k = true ->
  v <> [] -> forallb (fun c => negb (is_space c)) v = true ->
  ws <> [] -> forallb is_space ws = true ->
  trim_start r = r ->
  replace_empty ENV_ASSIGNMENTS (k ++ js "=" ++ v ++ ws ++ r)
  = replace_empty ENV_ASSIGNMENTS r.
Proof.
  intros k v ws r Nk Wk Nv Wv Nw Ww T.
  pose proof (assignment_at_app k v ws r Nk Wk Nv Wv Nw Ww T) as A.
  pose proof (assignment_at_length _ _ A) as L.
  rewrite !replace_assignments.
  destruct (length (k ++ js "=" ++ v ++ ws ++ r)) as [|n] eqn:E; [lia|].
  cbn [skip_assignments]. rewrite A. apply skip_fuel; lia.
Qed.

(** X8. An environment assignment in front of a command is skipped with the
    white space after it, whatever follows: a command with an assignment
    before it normalizes, and classifies, as the command does. *)
Theorem assignment_in_front_is_skipped :
  forall k v ws r : jstring,
  k <> [] -> forallb is_word k = true ->
  v <> [] -> forallb (fun c => negb (is_space c)) v = true ->
  ws <> [] -> forallb is_space ws = true ->
  trim r = r -> r <> [] ->
  stripCommandPrefix (k ++ js "=" ++ v ++ ws ++ r) = stripCommandPrefix r /\
  isAllowedCommand (k ++ js "=" ++ v ++ ws ++ r) = isAllowedCommand r.
Proof.
  intros k v ws r Nk Wk Nv Wv Nw Ww T Nr.
  assert (S : stripCommandPrefix (k ++ js "=" ++ v ++ ws ++ r) = stripCommandPrefix r).
  { destruct (trim_fixed r T) as [Ts Te].
    assert (Tc : trim (k ++ js "=" ++ v ++ ws ++ r) = k ++ js "=" ++ v ++ ws ++ r).
    { rewrite !app_assoc. apply prefixed_trimmed; [|exact T|exact Nr].
      destruct k as [|x k]; [congruence|]. simpl in Wk.
      apply andb_true_iff in Wk. destruct Wk as [Wx _].
      eexists x, _. split; [reflexivity|]. apply word_not_space. exact Wx. }
    destruct r as [|x r]; [congruence|].
    rewrite (stripCommandPrefix_nonempty (x :: r)) by reflexivity.
    rewrite stripCommandPrefix_nonempty by (destruct k; [congruence | reflexivity]).
    rewrite Tc, T.
    rewrite (replace_assignments_app k v ws (x :: r)) by assumption.
    reflexivity. }
  split; [exact S|]. unfold isAllowedCommand. rewrite S. reflexivity.
Qed.

Lemma assignment_in_front_is_skipped_witness :
  stripCommandPrefix (js "NODE_ENV" ++ js "=" ++ js "production" ++ js " "
                      ++ js "npm run build")
  = stripCommandPrefix (js "npm run build") /\
  isAllowedCommand (js "NODE_ENV" ++ js "=" ++ js "production" ++ js " "
                    ++ js "npm run build")
  = isAllowedCommand (js "npm run build").
Proof.
  apply (assignment_in_front_is_skipped (js "NODE_ENV") (js "production")
           (js " ") (js "npm run build"));
    solve [discriminate | vm_compute; reflexivity].
Defined.

Lemma wrapper_word : forall w,
  In w COMMAND_WRAPPERS ->
  forallb is_word (js w) = true /\ js w <> [].
Proof.
  intros w H. simpl in H.
  destruct H as [<-|[<-|[<-|[<-|[<-|[<-|[]]]]]]]; split;
    solve [vm_compute; reflexivity | discriminate].
Qed.

(** Two wrapper words followed by white space at the head of the same
    text are the same word. *)
Lemma wrapper_unique : forall w w' e t e' t',
  In w COMMAND_WRAPPERS -> In w' COMMAND_WRAPPERS ->
  is_space e = true -> is_space e' = true ->
  js w ++ e :: t = js w' ++ e' :: t' -> w = w'.
Proof.
  intros w w' e t e' t' H H' S S' E. simpl in H, H'.
  destruct H as [<-|[<-|[<-|[<-|[<-|[<-|[]]]]]]];
    destruct H' as [<-|[<-|[<-|[<-|[<-|[<-|[]]]]]]];
    try reflexivity; exfalso; cbn in E; inversion E; subst; discriminate.
Qed.

Lemma spaces_then_text : forall a x b y,
  forallb is_space a = true -> forallb is_space b = true ->
  trim_start x = x -> trim_start y = y ->
  a ++ x = b ++ y -> x = y.
Proof.
  intros a x b y A B X Y E.
  assert (D : drop_while is_space (a ++ x) = drop_while is_space (b ++ y))
    by (rewrite E; reflexivity).
  rewrite !drop_while_app, A, B in D. unfold trim_start in X, Y.
  rewrite X, Y in D. exact D.
Qed.

Lemma replace_wrapper_app : forall w ws r,
  In w COMMAND_WRAPPERS -> ws <> [] -> forallb is_space ws = true ->
  trim_start r = r ->
  replace_empty COMMAND_WRAPPER (js w ++ ws ++ r) = r.
Proof.
  intros w ws r Hin Nw Ww T. unfold replace_empty.
  assert (M : exists s', matches COMMAND_WRAPPER (start_at (js w ++ ws ++ r) 0) s').
  { rewrite COMMAND_WRAPPER_unfold. eexists. eapply M_seq.
    - apply M_bol. reflexivity.
    - eapply M_seq.
      + apply M_group. eapply words_intro; [exact Hin | reflexivity].
      + eapply plus_class_intro; [exact Nw | exact Ww | reflexivity]. }
  destruct M as (s' & M). apply exec_at_complete in M. destruct M as (s2 & X).
  rewrite (exec_first_index _ _ _ X).
  destruct (exec_wrapper_rest _ _ _ (exec_first_index _ _ _ X))
    as (_ & T2 & w' & sp & Hin' & E & Nsp & Wsp).
  simpl firstn. simpl app.
  destruct ws as [|e ws]; [congruence|]. destruct sp as [|e' sp]; [congruence|].
  simpl in Ww, Wsp. apply andb_true_iff in Ww, Wsp.
  destruct Ww as [We Ww], Wsp as [We' Wsp].
  assert (U : w = w').
  { eapply (wrapper_unique w w' e (ws ++ r) e' (sp ++ rest s2)); eauto. }
  subst w'. apply app_inv_head in E.
  symmetry. apply (spaces_then_text (e :: ws) r (e' :: sp) (rest s2)); auto;
    simpl; rewrite ?We, ?We', ?Ww, ?Wsp; reflexivity.
Qed.

(** What [stripCommandPrefix] does with a wrapper word in front of a
    trimmed command: the wrapper and the white space go, and then the
    assignments at the head of the command. *)
Lemma strip_after_wrapper : forall w ws r,
  In w COMMAND_WRAPPERS ->
  ws <> [] -> forallb is_space ws = true ->
  trim r = r -> r <> [] ->
  stripCommandPrefix (js w ++ ws ++ r) = replace_empty ENV_ASSIGNMENTS r.
Proof.
  intros w ws r Hin Nw Ww T Nr.
  destruct (trim_fixed r T) as [Ts Te].
  destruct (wrapper_word w Hin) as [Ww' Nw'].
  assert (Tc : trim (js w ++ ws ++ r) = js w ++ ws ++ r).
  { rewrite app_assoc. apply prefixed_trimmed; [|exact T|exact Nr].
    destruct (js w) as [|x k]; [congruence|]. simpl in Ww'.
    apply andb_true_iff in Ww'. destruct Ww' as [Wx _].
    eexists x, _. split; [reflexivity|]. apply word_not_space. exact Wx. }
  assert (N : assignment_at (js w ++ ws ++ r) = None).
  { unfold assignment_at.
    rewrite (run_of_app is_word (js w) (ws ++ r) Nw' Ww').
    - destruct ws as [|e ws]; [congruence|]. simpl in Ww.
      apply andb_true_iff in Ww. destruct Ww as [We _].
      cbn [app]. rewrite (space_not_equals e We). reflexivity.
    - apply head_fixed; auto. apply space_not_word. }
  rewrite strip_is_last_replacement
    by (destruct (js w); [congruence | discriminate]).
  rewrite Tc.
  rewrite (replace_empty_no_match ENV_ASSIGNMENTS (js w ++ ws ++ r))
    by (rewrite test_assignments, N; reflexivity).
  rewrite (replace_wrapper_app w ws r Hin Nw Ww Ts).
  reflexivity.
Qed.

(** X9. One wrapper word in front of a command is removed with the white
    space after it, and one only: the command that follows, when no
    assignment starts it, is returned as it is, a further wrapper
    included. *)
Theorem one_wrapper_is_removed :
  forall (w : string) (ws r : jstring),
  In w COMMAND_WRAPPERS ->
  ws <> [] -> forallb is_space ws = true ->
  trim r = r -> r <> [] ->
  test ENV_ASSIGNMENTS r = false ->
  stripCommandPrefix (js w ++ ws ++ r) = r.
Proof.
  intros w ws r Hin Nw Ww T Nr A.
  rewrite strip_after_wrapper by assumption.
  apply replace_empty_no_match. exact A.
Qed.

Lemma one_wrapper_is_removed_witness :
  stripCommandPrefix (js "sudo" ++ js " " ++ js "sudo ls") = js "sudo ls".
Proof.
  apply (one_wrapper_is_removed "sudo" (js " ") (js "sudo ls"));
    solve [discriminate | vm_compute; reflexivity
          | simpl; left; reflexivity].
Defined.

(** X10. Assignments are skipped after a wrapper as well, as the third
    replacement is there for: a wrapper, an assignment and a command
    normalize to what the wrapper and the command normalize to. *)
Theorem assignment_after_wrapper_is_skipped :
  forall (w : string) (ws k v ws' r : jstring),
  In w COMMAND_WRAPPERS ->
  ws <> [] -> forallb is_space ws = true ->
  k <> [] -> forallb is_word k = true ->
  v <> [] -> forallb (fun c => negb (is_space c)) v = true ->
  ws' <> [] -> forallb is_space ws' = true ->
  trim r = r -> r <> [] ->
  stripCommandPrefix (js w ++ ws ++ k ++ js "=" ++ v ++ ws' ++ r)
  = stripCommandPrefix (js w ++ ws ++ r).
Proof.
  intros w ws k v ws' r Hin Nw Ww Nk Wk Nv Wv Nw' Ww' T Nr.
  destruct (trim_fixed r T) as [Ts Te].
  rewrite (strip_after_wrapper w ws r) by assumption.
  rewrite (strip_after_wrapper w ws (k ++ js "=" ++ v ++ ws' ++ r)); try assumption.
  - apply replace_assignments_app; assumption.
  - rewrite !app_assoc. apply prefixed_trimmed; [|exact T|exact Nr].
    destruct k as [|x k]; [congruence|]. simpl in Wk.
    apply andb_true_iff in Wk. destruct Wk as [Wx _].
    eexists x, _. split; [reflexivity|]. apply word_not_space. exact Wx.
  - destruct k; [congruence | discriminate].
Qed.

Lemma assignment_after_wrapper_is_skipped_witness :
  stripCommandPrefix (js "sudo" ++ js " " ++ js "VAR" ++ js "=" ++ js "x"
                      ++ js " " ++ js "cmd")
  = stripCommandPrefix (js "sudo" ++ js " " ++ js "cmd").
Proof.
  apply (assignment_after_wrapper_is_skipped "sudo" (js " ") (js "VAR") (js "x")
           (js " ") (js "cmd"));
    solve [discriminate | vm_compute; reflexivity
          | simpl; left; reflexivity].
Defined.

End PrefixFacts.
Import PrefixFacts.
